(** * bitcore-lib [lib/unit.js]: the [Unit] value type

    A shallow embedding of [lib/unit.js] (denomination table [UNITS], the
    [Unit] constructor, its static factories, [_from], [to], the fixed-unit
    conversions and [toObject]) together with the part of the JavaScript
    run-time the file relies on: IEEE-754 binary64 numbers,
    [Number.prototype.toFixed], [parseInt], [parseFloat], property lookup on
    an object literal, and lodash's [_.isNumber] / [_.isObject]. *)

From Stdlib Require Import ZArith QArith Qround Qabs Qpower Qfield List Bool Lia Lqa.
From Stdlib Require Import Strings.Ascii Strings.String.
From Stdlib Require Import Floats.SpecFloat.
From Stdlib Require Import Morphisms Setoid.
Import ListNotations.

Local Open Scope Z_scope.

(** ** JavaScript numbers

    A JavaScript Number is an IEEE-754 binary64 value.  We use the
    specification of binary floating point of the standard library
    ([SpecFloat], precision 53, [emax] 1024): arithmetic is correctly rounded
    (round to nearest, ties to even) and computes inside Rocq. *)

Module Num.

Definition number : Type := spec_float.

Definition prec : Z := 53.
Definition emax : Z := 1024.

Definition NaN : number := S754_nan.
Definition pos_zero : number := S754_zero false.
Definition neg_zero : number := S754_zero true.

(** [x * y], [x / y] and [x <= y] on Numbers. *)
Definition mul (x y : number) : number := SFmul prec emax x y.
Definition div (x y : number) : number := SFdiv prec emax x y.
Definition leb (x y : number) : bool := SFleb x y.

(** The Number nearest to an integer: the meaning of an integer literal and
    of the conversion written 𝔽 in ECMA-262. *)
Definition of_Z (z : Z) : number := binary_normalize prec emax z 0 false.

(** The Number nearest to the rational [num / den], with the given sign.
    [SFdiv] on the two integers (exponent 0) is one correctly rounded
    division, hence the round-to-nearest-even of the quotient. *)
Definition of_ratio (neg : bool) (num : Z) (den : positive) : number :=
  match num with
  | Zpos p => SFdiv prec emax (S754_finite neg p 0) (S754_finite false den 0)
  | _ => S754_zero neg
  end.

(** The Number for an integer, a zero taking the given sign. *)
Definition of_integer (neg_zero : bool) (n : Z) : number :=
  if n =? 0 then S754_zero neg_zero else of_Z n.

(** The Number nearest to the decimal [n / 10^places], a zero taking the
    given sign. *)
Definition of_decimal (neg_zero : bool) (n : Z) (places : nat) : number :=
  match n with
  | 0 => S754_zero neg_zero
  | Zpos _ => of_ratio false n (Z.to_pos (10 ^ Z.of_nat places))
  | Zneg m => of_ratio true (Zpos m) (Z.to_pos (10 ^ Z.of_nat places))
  end.

Definition is_finite (x : number) : bool :=
  match x with
  | S754_zero _ | S754_finite _ _ _ => true
  | _ => false
  end.

Definition is_negative (x : number) : bool :=
  match x with
  | S754_finite s _ _ => s
  | _ => false
  end.

(** The members of [spec_float] that are binary64 values: a mantissa of 53
    bits, or of fewer bits at the least exponent -1074, and an exponent of at
    most 971.  Every Number is one of them, and the operations return such
    values; the type also holds pairs of a mantissa and an exponent that are
    not in this form, which are no Numbers. *)
Definition valid (x : number) : bool := valid_binary prec emax x.

(** The mathematical value of the absolute value of a finite Number, as an
    exact rational: [m * 2^e]. *)
Definition abs_Q (x : number) : Q :=
  match x with
  | S754_finite _ m e =>
      match e with
      | Zneg k => Zpos m # (2 ^ k)
      | _ => inject_Z (Zpos m * 2 ^ e)
      end
  | _ => 0%Q
  end.

(** The mathematical value ℝ(x) of a finite Number. *)
Definition to_Q (x : number) : Q :=
  if is_negative x then Qopp (abs_Q x) else abs_Q x.

End Num.

(** ** Strings of decimal digits

    JavaScript strings are modelled by [string]; every string the program
    builds or scans is made of code units below 256. *)

Module Digits.

Definition is_digit (c : ascii) : bool :=
  let n := N_of_ascii c in ((48 <=? n) && (n <=? 57))%N.

Definition digit_value (c : ascii) : Z := Z.of_N (N_of_ascii c) - 48.

Definition digit_char (d : Z) : ascii := ascii_of_N (Z.to_N (48 + d)).

(** Strings of decimal digits only. *)
Fixpoint all_digits (s : string) : bool :=
  match s with
  | EmptyString => true
  | String c s' => is_digit c && all_digits s'
  end.

(** [s] does not start with a digit. *)
Definition stops (s : string) : Prop :=
  match s with
  | EmptyString => True
  | String c _ => is_digit c = false
  end.

(** The integer denoted by a string of decimal digits, read after [acc]. *)
Fixpoint value_from (acc : Z) (s : string) : Z :=
  match s with
  | EmptyString => acc
  | String c s' => value_from (10 * acc + digit_value c) s'
  end.

Definition value (s : string) : Z := value_from 0 s.

(** The longest prefix of decimal digits, and what follows it. *)
Fixpoint span (s : string) : string * string :=
  match s with
  | EmptyString => (EmptyString, EmptyString)
  | String c s' =>
      if is_digit c then let (d, r) := span s' in (String c d, r)
      else (EmptyString, s)
  end.

(** The decimal digits of [n >= 0], most significant first, put in front of
    [acc]; [fuel] bounds the number of digits. *)
Fixpoint digits_onto (fuel : nat) (n : Z) (acc : string) : string :=
  match fuel with
  | O => acc
  | S fuel' =>
      let acc' := String (digit_char (n mod 10)) acc in
      if n / 10 =? 0 then acc' else digits_onto fuel' (n / 10) acc'
  end.

(** The decimal representation of [n >= 0] ("0" for zero); a number has no
    more decimal digits than binary ones. *)
Definition of_Z (n : Z) : string :=
  digits_onto (S (Z.to_nat (Z.log2 n))) n EmptyString.

Fixpoint zeros (k : nat) : string :=
  match k with
  | O => EmptyString
  | S k' => String "0"%char (zeros k')
  end.

(** The first [k] code units of a string and the remaining ones. *)
Fixpoint split_at (k : nat) (s : string) : string * string :=
  match k, s with
  | S k', String c s' => let (a, b) := split_at k' s' in (String c a, b)
  | _, _ => (EmptyString, s)
  end.

End Digits.

(** ** The built-in functions the program calls

    [Number.prototype.toFixed], [parseInt] and [parseFloat], after
    ECMA-262 (sections 21.1.3.3, 19.2.5 and 19.2.4). *)

Module JS.

Local Open Scope string_scope.

(** *** Number::toString, in the cases [toFixed] defers to it *)

(** Does the decimal [s * scale] denote the Number [x]? *)
Definition reads_back (x : Num.number) (s scale : Z) : bool :=
  SFeqb (Num.of_Z (s * scale)) x.

(** The shortest decimal significand [s] (of [k] digits, [k] growing from
    its first value) such that [s * 10^(n-k)] reads back as [x]; among the
    two candidates around the exact value [X] the closer one, the even one
    on a tie.  Seventeen digits always suffice for a binary64 value. *)
Fixpoint shortest_significand (fuel : nat) (x : Num.number) (X n k : Z) : Z * Z :=
  let scale := 10 ^ (n - k) in
  let lo := X / scale in
  let hi := lo + 1 in
  match fuel with
  | O => (lo, k)
  | S fuel' =>
      match reads_back x lo scale, reads_back x hi scale with
      | true, true =>
          match (X - lo * scale ?= hi * scale - X)%Z with
          | Lt => (lo, k)
          | Gt => (hi, k)
          | Eq => (if Z.even lo then lo else hi, k)
          end
      | true, false => (lo, k)
      | false, true => (hi, k)
      | false, false => shortest_significand fuel' x X n (k + 1)
      end
  end.

(** Number::toString for a finite [x >= 10^21], whose value [X] is an
    integer of [n >= 22] digits: the digits of the significand, a point after
    the first one when there are several, and the exponent [n - 1]. *)
Definition toString_exponential (x : Num.number) : string :=
  let X := Qfloor (Num.abs_Q x) in
  let n := Z.of_nat (String.length (Digits.of_Z X)) in
  let (s, k) := shortest_significand 17 x X n 1 in
  let (s, n) := if (s =? 10 ^ k)%Z then (1, n + 1) else (s, n) in
  let digits := Digits.of_Z s in
  let mantissa :=
    match digits with
    | String d EmptyString => digits
    | String d rest => String d ("." ++ rest)
    | EmptyString => digits
    end in
  mantissa ++ "e+" ++ Digits.of_Z (n - 1).

(** Number::toString for the values that are not finite. *)
Definition toString_not_finite (x : Num.number) : string :=
  match x with
  | S754_infinity false => "Infinity"
  | S754_infinity true => "-Infinity"
  | _ => "NaN"
  end.

(** *** Number.prototype.toFixed *)

(** Step 11.a: the integer [n] for which [n / 10^f - X] is as close to zero
    as possible, the larger [n] if there are two. *)
Definition nearest_scaled (X : Q) (f : nat) : Z :=
  Qfloor (X * inject_Z (10 ^ Z.of_nat f) + (1 # 2)).

(** Steps 11.b to 11.d: the digits of [n], padded on the left to [f + 1]
    digits, with a point before the last [f] of them. *)
Definition fixed_digits (n : Z) (f : nat) : string :=
  let m := Digits.of_Z n in
  match f with
  | O => m
  | _ =>
      let k := String.length m in
      let m := if (k <=? f)%nat then Digits.zeros (f + 1 - k) ++ m else m in
      let (a, b) := Digits.split_at (String.length m - f) m in
      a ++ "." ++ b
  end.

Definition ten21 : Q := inject_Z (10 ^ 21).

(** Step 9: the sign [toFixed] writes; [-0] is not below zero. *)
Definition sign_string (neg : bool) : string := if neg then "-" else "".

(** [x.toFixed(f)] for [0 <= f <= 100] ([x.toFixed()] is [x.toFixed(0)]). *)
Definition toFixed (x : Num.number) (f : nat) : string :=
  if negb (Num.is_finite x) then toString_not_finite x
  else
    let s := sign_string (Num.is_negative x) in
    let X := Num.abs_Q x in
    let m :=
      if Qle_bool ten21 X then toString_exponential (SFabs x)
      else fixed_digits (nearest_scaled X f) f in
    s ++ m.

(** *** Scanning *)

(** White space and line terminators among the code units below 256. *)
Definition is_white_space (c : ascii) : bool :=
  let n := N_of_ascii c in
  ((9 <=? n)%N && (n <=? 13)%N) || (n =? 32)%N || (n =? 160)%N.

Fixpoint trim_start (s : string) : string :=
  match s with
  | String c s' => if is_white_space c then trim_start s' else s
  | EmptyString => s
  end.

(** A leading sign, removed: [true] for "-". *)
Definition take_sign (s : string) : bool * string :=
  match s with
  | String c r =>
      if Ascii.eqb c "-" then (true, r)
      else if Ascii.eqb c "+" then (false, r)
      else (false, s)
  | EmptyString => (false, s)
  end.

(** What follows the prefix [p] in [s], when [s] starts with [p]. *)
Fixpoint after_prefix (p s : string) : option string :=
  match p, s with
  | EmptyString, _ => Some s
  | String a p', String b s' => if Ascii.eqb a b then after_prefix p' s' else None
  | String _ _, EmptyString => None
  end.

(** Does [s] start with "0" and then [a] or [b]?  If so, what follows. *)
Definition after_radix_prefix (a b : ascii) (s : string) : option string :=
  match s with
  | String c0 (String c1 r) =>
      if Ascii.eqb c0 "0" && (Ascii.eqb c1 a || Ascii.eqb c1 b) then Some r else None
  | _ => None
  end.

Definition hex_digit_value (c : ascii) : option Z :=
  let n := Z.of_N (N_of_ascii c) in
  if ((48 <=? n) && (n <=? 57))%Z then Some (n - 48)
  else if ((65 <=? n) && (n <=? 70))%Z then Some (n - 55)
  else if ((97 <=? n) && (n <=? 102))%Z then Some (n - 87)
  else None.

(** The value of the longest prefix of hexadecimal digits read after [acc];
    [None] when that prefix is empty. *)
Fixpoint hex_prefix_value (acc : option Z) (s : string) : option Z :=
  match s with
  | String c s' =>
      match hex_digit_value c with
      | Some d =>
          hex_prefix_value (Some (16 * match acc with Some a => a | None => 0 end + d)) s'
      | None => acc
      end
  | EmptyString => acc
  end.

(** The Number for a scanned integer: a zero keeps the sign. *)
Definition signed_integer (neg : bool) (mathInt : Z) : Num.number :=
  if (mathInt =? 0)%Z then S754_zero neg
  else Num.of_Z (if neg then - mathInt else mathInt).

(** [parseInt(string)], no radix given. *)
Definition parseInt (input : string) : Num.number :=
  let (neg, S) := take_sign (trim_start input) in
  match after_radix_prefix "x" "X" S with
  | Some hex =>
      match hex_prefix_value None hex with
      | Some mathInt => signed_integer neg mathInt
      | None => Num.NaN
      end
  | None =>
      match fst (Digits.span S) with
      | EmptyString => Num.NaN
      | Z => signed_integer neg (Digits.value Z)
      end
  end.

(** The exponent part ([e] or [E], an optional sign, digits) at the head of
    [s] when there is one, and what follows; the exponent is 0 otherwise. *)
Definition exponent_part (s : string) : Z * string :=
  match s with
  | String c r =>
      if Ascii.eqb c "e" || Ascii.eqb c "E" then
        let (neg, r') := take_sign r in
        match Digits.span r' with
        | (EmptyString, _) => (0, s)
        | (d, rest) => (if neg then - Digits.value d else Digits.value d, rest)
        end
      else (0, s)
  | EmptyString => (0, s)
  end.

(** The Number for the decimal [digits * 10^exponent]. *)
Definition decimal_number (neg : bool) (digits exponent : Z) : Num.number :=
  match exponent with
  | Zneg e => Num.of_ratio neg digits (10 ^ e)
  | _ => Num.of_ratio neg (digits * 10 ^ exponent) 1
  end.

(** The fraction digits after a point at the head of [s], if there is one. *)
Definition fraction_part (s : string) : string * string :=
  match s with
  | String c after => if Ascii.eqb c "." then Digits.span after else (EmptyString, s)
  | EmptyString => (EmptyString, s)
  end.

(** The value of the longest prefix of [s] that is a StrDecimalLiteral and
    the rest of [s]; [None] when no prefix is one. *)
Definition scan_decimal_literal (s : string) : option (Num.number * string) :=
  let (neg, S) := take_sign s in
  match after_prefix "Infinity" S with
  | Some rest => Some (S754_infinity neg, rest)
  | None =>
      let (int, r) := Digits.span S in
      let (frac, r') := fraction_part r in
      match int, frac with
      | EmptyString, EmptyString => None
      | _, _ =>
          let (exponent, rest) := exponent_part r' in
          Some (decimal_number neg (Digits.value (int ++ frac))
                  (exponent - Z.of_nat (String.length frac)), rest)
      end
  end.

(** [parseFloat(string)]. *)
Definition parseFloat (input : string) : Num.number :=
  match scan_decimal_literal (trim_start input) with
  | Some (x, _) => x
  | None => Num.NaN
  end.

(** *** ToNumber on strings (StringToNumber) *)

Fixpoint trim_end (s : string) : string :=
  match s with
  | EmptyString => EmptyString
  | String c s' =>
      match trim_end s' with
      | EmptyString => if is_white_space c then EmptyString else String c EmptyString
      | t => String c t
      end
  end.

(** The value of a string made of digits of the radix only, [None] for any
    other string. *)
Fixpoint radix_value (radix : Z) (acc : option Z) (s : string) : option Z :=
  match s with
  | EmptyString => acc
  | String c s' =>
      match hex_digit_value c with
      | Some d =>
          if (d <? radix)%Z
          then radix_value radix
                 (Some (radix * match acc with Some a => a | None => 0 end + d)) s'
          else None
      | None => None
      end
  end.

Definition integer_literal (radix : Z) (digits : string) : Num.number :=
  match digits with
  | EmptyString => Num.NaN
  | _ =>
      match radix_value radix None digits with
      | Some n => Num.of_Z n
      | None => Num.NaN
      end
  end.

Definition StringToNumber (str : string) : Num.number :=
  let literal := trim_end (trim_start str) in
  match literal with
  | EmptyString => Num.pos_zero
  | _ =>
      match after_radix_prefix "x" "X" literal,
            after_radix_prefix "o" "O" literal,
            after_radix_prefix "b" "B" literal with
      | Some digits, _, _ => integer_literal 16 digits
      | _, Some digits, _ => integer_literal 8 digits
      | _, _, Some digits => integer_literal 2 digits
      | None, None, None =>
          match scan_decimal_literal literal with
          | Some (x, EmptyString) => x
          | _ => Num.NaN
          end
      end
  end.

(** *** Number::toString, radix 10, on every Number (ECMA-262 6.1.6.1.20) *)

(** The integer [n] with [10^(n-1) <= X < 10^n], for [X > 0]. *)
Definition decimal_exponent (X : Q) : Z :=
  if Qle_bool 1 X then Z.of_nat (String.length (Digits.of_Z (Qfloor X)))
  else
    let Y := Qinv X in
    let d := Z.of_nat (String.length (Digits.of_Z (Qfloor Y))) in
    if Qeq_bool Y (inject_Z (10 ^ (d - 1))) then 2 - d else 1 - d.

(** Does the decimal [s * 10^e] denote the Number [x]? *)
Definition denotes (x : Num.number) (s e : Z) : bool :=
  SFeqb (decimal_number false s e) x.

(** Step 5: the least [k >= 1] and an integer [s] of [k] digits such that
    [s * 10^(n-k)] denotes [x], looked for from [k] upwards; of the two
    candidates around the exact value [X] the closer one, the even one on a
    tie.  Seventeen digits always suffice for a binary64 value. *)
Fixpoint shortest_decimal (fuel : nat) (x : Num.number) (X : Q) (n k : Z) : Z * Z :=
  let scale := (inject_Z 10 ^ (n - k))%Q in
  let lo := Qfloor (X / scale) in
  let hi := (lo + 1)%Z in
  match fuel with
  | O => (lo, k)
  | S fuel' =>
      match denotes x lo (n - k), denotes x hi (n - k) with
      | true, true =>
          match (X - inject_Z lo * scale ?= inject_Z hi * scale - X)%Q with
          | Lt => (lo, k)
          | Gt => (hi, k)
          | Eq => (if Z.even lo then lo else hi, k)
          end
      | true, false => (lo, k)
      | false, true => (hi, k)
      | false, false => shortest_decimal fuel' x X n (k + 1)
      end
  end.

(** Steps 6 to 10: the digits of [s] (there are [k]) laid out for the
    exponent [n]. *)
Definition layout (s k n : Z) : string :=
  let digits := Digits.of_Z s in
  if ((k <=? n) && (n <=? 21))%Z then digits ++ Digits.zeros (Z.to_nat (n - k))
  else if ((0 <? n) && (n <=? 21))%Z then
    let (a, b) := Digits.split_at (Z.to_nat n) digits in a ++ "." ++ b
  else if ((-6 <? n) && (n <=? 0))%Z then
    "0." ++ Digits.zeros (Z.to_nat (- n)) ++ digits
  else
    let exponent :=
      (if (n - 1 <? 0)%Z then "-" else "+") ++ Digits.of_Z (Z.abs (n - 1)) in
    match digits with
    | String d (String _ _ as rest) => String d ("." ++ rest) ++ "e" ++ exponent
    | _ => digits ++ "e" ++ exponent
    end.

(** [Number::toString(x, 10)], which is also [ToString(x)]. *)
Definition Number_toString (x : Num.number) : string :=
  match x with
  | S754_nan => "NaN"
  | S754_zero _ => "0"
  | S754_infinity neg => sign_string neg ++ "Infinity"
  | S754_finite neg _ _ =>
      let X := Num.abs_Q x in
      let n := decimal_exponent X in
      let (s, k) := shortest_decimal 17 (SFabs x) X n 1 in
      let '(s, k, n) := if (s =? 10 ^ k)%Z then (1, 1, n + 1)%Z else (s, k, n) in
      sign_string neg ++ layout s k n
  end.

End JS.

(** ** Values, completions and the collaborators of [lib/unit.js] *)

(** The values an amount or a code is taken from: [undefined] (an argument
    left out), [null], the booleans, the Numbers and the strings.  Symbols,
    BigInts and objects (an array such as [['BLK']], a String object) are
    not among them: what is proved about every [value] is proved about these
    five kinds. *)
Inductive value : Type :=
  | VUndefined
  | VNull
  | VBoolean (b : bool)
  | VNumber (x : Num.number)
  | VString (s : string).

(** What [Unit.fromObject] can receive: a primitive, or an object with
    primitive property values (Object.prototype defines neither [amount] nor
    [code], so only own properties matter). *)
Inductive argument : Type :=
  | Primitive (v : value)
  | Object (props : list (string * value)).

(** Modelled from the spec: the error-signaling facility [./errors] is not
    part of the sources; it supplies two distinguishable error kinds,
    [InvalidRate(value)] and [UnknownCode(value)], which carry the offending
    value.  [InvalidArgument] is the generic argument error of the
    precondition-checking facility. *)
Inductive error : Type :=
  | InvalidRate (rate : value)
  | UnknownCode (code : value)
  | InvalidArgument (message : string).

(** A call returns a value or throws. *)
Inductive completion (A : Type) : Type :=
  | Normal (a : A)
  | Throw (e : error).

Arguments Normal {A} a.
Arguments Throw {A} e.

Definition bind {A B : Type} (c : completion A) (k : A -> completion B) : completion B :=
  match c with
  | Normal a => k a
  | Throw e => Throw e
  end.

Notation "'let*' x ':=' c 'in' k" := (bind c (fun x => k))
  (at level 10, x pattern, c at level 100, k at level 200).

(** Modelled from the spec: [$.checkArgument] of [./util/preconditions] is
    not part of the sources; it rejects a false condition with a generic
    argument error. *)
Definition checkArgument (condition : bool) (message : string) : completion unit :=
  if condition then Normal tt else Throw (InvalidArgument message).

(** lodash: [_.isNumber] holds of Numbers, [_.isObject] of objects. *)
Definition isNumber (v : value) : bool :=
  match v with
  | VNumber _ => true
  | _ => false
  end.

Definition isObject (data : argument) : bool :=
  match data with
  | Object _ => true
  | Primitive _ => false
  end.

(** ToNumber, as the operators [*], [/] and [<=] apply it to an operand of
    these five kinds, on which it never throws. *)
Definition ToNumber (v : value) : Num.number :=
  match v with
  | VUndefined => Num.NaN
  | VNull => Num.pos_zero
  | VBoolean b => if b then Num.of_Z 1 else Num.pos_zero
  | VNumber x => x
  | VString s => JS.StringToNumber s
  end.

(** [data.key] on an object of [argument]. *)
Fixpoint get_property (props : list (string * value)) (key : string) : value :=
  match props with
  | [] => VUndefined
  | (k, v) :: rest => if String.eqb k key then v else get_property rest key
  end.

Definition property_of (data : argument) (key : string) : value :=
  match data with
  | Object props => get_property props key
  | Primitive _ => VUndefined
  end.

(** ** [lib/unit.js] *)

Module Unit.

Local Open Scope string_scope.

(** The table [UNITS]: an object literal, each key bound to the array
    [[scale, digits]]. *)
Definition UNITS : list (string * (Num.number * nat)) :=
  [ ("BLK", (Num.of_Z 100000000, 8%nat));
    ("mBLK", (Num.of_Z 100000, 5%nat));
    ("uBLK", (Num.of_Z 100, 2%nat));
    ("ratoshis", (Num.of_Z 1, 0%nat)) ].

(** [Unit[key] = key] for every key of [UNITS]. *)
Definition BLK : string := "BLK".
Definition mBLK : string := "mBLK".
Definition uBLK : string := "uBLK".
Definition ratoshis : string := "ratoshis".

(** The properties an object literal inherits from Object.prototype: eleven
    functions and the accessor [__proto__], whose value is the prototype
    object itself. *)
Definition Object_prototype_keys : list string :=
  [ "constructor"; "hasOwnProperty"; "isPrototypeOf"; "propertyIsEnumerable";
    "toLocaleString"; "toString"; "valueOf"; "__proto__";
    "__defineGetter__"; "__defineSetter__"; "__lookupGetter__";
    "__lookupSetter__" ].

(** What [UNITS[code]] evaluates to. *)
Inductive property : Type :=
  | Entry (scale : Num.number) (digits : nat)
  | Inherited
  | Undefined.

Fixpoint own_property (table : list (string * (Num.number * nat))) (key : string) : property :=
  match table with
  | [] => Undefined
  | (k, (scale, digits)) :: rest =>
      if String.eqb k key then Entry scale digits else own_property rest key
  end.

(** [UNITS[key]]: an own property, else one found along the prototype
    chain. *)
Definition lookup (key : string) : property :=
  match own_property UNITS key with
  | Undefined =>
      if existsb (String.eqb key) Object_prototype_keys then Inherited else Undefined
  | entry => entry
  end.

(** [UNITS[code]], the code converted to a property key.  The key of a
    Number is its decimal representation ("NaN", "Infinity", or digits with a
    sign, a point or an exponent), which names no property of [UNITS] or of
    Object.prototype. *)
Definition UNITS_get (code : value) : property :=
  match code with
  | VString key => lookup key
  | VUndefined => lookup "undefined"
  | VNull => lookup "null"
  | VBoolean b => lookup (if b then "true" else "false")
  | VNumber _ => Undefined
  end.

(** [!UNITS[code]]: arrays, functions and objects are truthy. *)
Definition missing (p : property) : bool :=
  match p with
  | Undefined => true
  | _ => false
  end.

(** [UNITS[code][0]] and [UNITS[code][1]]; a function and the prototype
    object have no property named 0 or 1. *)
Definition scale_of (p : property) : value :=
  match p with
  | Entry scale _ => VNumber scale
  | _ => VUndefined
  end.

(** As the argument of [toFixed], [undefined] counts as 0 digits. *)
Definition digits_of (p : property) : nat :=
  match p with
  | Entry _ digits => digits
  | _ => 0%nat
  end.

(** An instance: the field [_value].  The accessors the constructor defines
    for the keys of [UNITS] are the functions [get] below. *)
Record instance : Type := { _value : Num.number }.

(** [Unit.prototype._from] *)
Definition _from (amount code : value) : completion Num.number :=
  if missing (UNITS_get code) then Throw (UnknownCode code)
  else
    Normal (JS.parseInt
              (JS.toFixed (Num.mul (ToNumber amount) (ToNumber (scale_of (UNITS_get code)))) 0)).

(** [new Unit(amount, code)]: the body of the constructor run on a fresh
    object. *)
Definition construct (amount code : value) : completion instance :=
  let* (amount, code) :=
    if isNumber code then
      if Num.leb (ToNumber code) Num.pos_zero then Throw (InvalidRate code)
      else Normal (VNumber (Num.div (ToNumber amount) (ToNumber code)), VString BLK)
    else Normal (amount, code) in
  let* v := _from amount code in
  Normal {| _value := v |}.

(** *** The function [Unit] and its receiver *)

(** The receiver of a call of the function [Unit], its [this]: the object
    that the operator [new] has just created, which inherits from
    [Unit.prototype]; or a value that is no instance of [Unit], which is what
    a call without [new] passes ([undefined] for [Unit(amount, code)], the
    file being in strict mode; the object [o] for [o.Unit(amount, code)]).
    An instance that is already constructed is not among the receivers: the
    specification describes no call that passes one. *)
Inductive receiver : Type :=
  | Created
  | Other (this : argument).

(** [this instanceof Unit] *)
Definition instanceof_Unit (this : receiver) : bool :=
  match this with
  | Created => true
  | Other _ => false
  end.

(** How a call of the function ends when it does not throw: it has
    initialised its receiver and returns nothing, or it returns an object. *)
Inductive outcome : Type :=
  | Initialised (this : instance)
  | Returned (object : instance).

(** The function [Unit], lines 39 to 64, called on a receiver.  The
    expression [new Unit(amount, code)] of line 41 is [construct]. *)
Definition Unit_function (this : receiver) (amount code : value) : completion outcome :=
  if negb (instanceof_Unit this) then
    let* object := construct amount code in
    Normal (Returned object)
  else
    let* (amount, code) :=
      if isNumber code then
        if Num.leb (ToNumber code) Num.pos_zero then Throw (InvalidRate code)
        else Normal (VNumber (Num.div (ToNumber amount) (ToNumber code)), VString BLK)
      else Normal (amount, code) in
    let* v := _from amount code in
    Normal (Initialised {| _value := v |}).

(** The operator [new] applied to the function: the function is called on a
    created object, and the value is the object the function returns, or the
    created object when the function returns nothing. *)
Definition new_Unit (amount code : value) : completion instance :=
  match Unit_function Created amount code with
  | Normal (Initialised this) => Normal this
  | Normal (Returned object) => Normal object
  | Throw e => Throw e
  end.

(** The value of a call without [new] on a receiver: what the function
    returns, [undefined] (here [None]) when it returns nothing. *)
Definition call_on (this : receiver) (amount code : value) : completion (option instance) :=
  match Unit_function this amount code with
  | Normal (Returned object) => Normal (Some object)
  | Normal (Initialised _) => Normal None
  | Throw e => Throw e
  end.

(** [Unit(amount, code)]: the receiver is [undefined]. *)
Definition call (amount code : value) : completion (option instance) :=
  call_on (Other (Primitive VUndefined)) amount code.

(** *** Static factories *)

Definition fromObject (data : argument) : completion instance :=
  let* _ := checkArgument (isObject data) "Argument is expected to be an object" in
  construct (property_of data "amount") (property_of data "code").

Definition fromBLK (amount : value) : completion instance :=
  construct amount (VString BLK).

Definition fromMillis (amount : value) : completion instance :=
  construct amount (VString mBLK).

Definition fromMilis := fromMillis.

Definition fromMicros (amount : value) : completion instance :=
  construct amount (VString uBLK).

Definition fromBits := fromMicros.

Definition fromRatoshis (amount : value) : completion instance :=
  construct amount (VString ratoshis).

Definition fromFiat (amount rate : value) : completion instance :=
  construct amount rate.

(** *** Methods

    A method runs on the instance it is called on, in state-passing style: it
    yields its completion and the instance as the call leaves it. *)

Definition method (A : Type) : Type := instance -> completion A * instance.

Definition ret {A : Type} (a : A) : method A := fun this => (Normal a, this).

Definition throw {A : Type} (e : error) : method A := fun this => (Throw e, this).

Definition read_value : method Num.number := fun this => (Normal (_value this), this).

Definition then_ {A B : Type} (m : method A) (k : A -> method B) : method B :=
  fun this =>
    match m this with
    | (Normal a, this') => k a this'
    | (Throw e, this') => (Throw e, this')
    end.

Notation "x <- m ;; k" := (then_ m (fun x => k))
  (at level 61, m at next level, right associativity).

(** The second part of [Unit.prototype.to]: the conversion to a
    denomination. *)
Definition to_denomination (code : value) : method Num.number :=
  if missing (UNITS_get code) then throw (UnknownCode code)
  else
    this_value <- read_value ;;
    let value := Num.div this_value (ToNumber (scale_of (UNITS_get code))) in
    ret (JS.parseFloat (JS.toFixed value (digits_of (UNITS_get code)))).

(** The accessor defined for [key]: [self.to(key)], where [key] is a string,
    so that the call takes the second part of [to]. *)
Definition get (key : string) : method Num.number := to_denomination (VString key).

(** [Unit.prototype.to] *)
Definition to (code : value) : method Num.number :=
  if isNumber code then
    if Num.leb (ToNumber code) Num.pos_zero then throw (InvalidRate code)
    else
      this_BLK <- get BLK ;;
      ret (JS.parseFloat (JS.toFixed (Num.mul this_BLK (ToNumber code)) 2))
  else to_denomination code.

Definition toBLK : method Num.number := to (VString BLK).

Definition toMillis : method Num.number := to (VString mBLK).

Definition toMilis := toMillis.

Definition toMicros : method Num.number := to (VString uBLK).

Definition toRatoshis : method Num.number := to (VString ratoshis).

Definition atRate (rate : value) : method Num.number := to rate.

(** The plain object [{amount: ..., code: ...}]. *)
Record plain_object : Type := { amount : Num.number; code : string }.

(** [Unit.prototype.toObject], also bound to [toJSON]. *)
Definition toObject : method plain_object :=
  this_BLK <- get BLK ;;
  ret {| amount := this_BLK; code := BLK |}.

Definition toJSON := toObject.

(** [Unit.prototype.toString]: [this.ratoshis + ' ratoshis'], the Number
    converted to a string. *)
Definition toString : method string :=
  this_ratoshis <- get ratoshis ;;
  ret (JS.Number_toString this_ratoshis ++ " ratoshis").

(** [Unit.prototype.inspect] *)
Definition inspect : method string :=
  string_ <- toString ;;
  ret ("<Unit: " ++ string_ ++ ">").

(** The members of an instance: the twelve functions that [lib/unit.js]
    puts on [Unit.prototype] and the four accessors that the constructor
    defines; and a call of any one of them on an instance. *)
Inductive member : Type :=
  | M_from (amount code : value)
  | Mto (code : value)
  | MtoBLK
  | MtoMillis
  | MtoMilis
  | MtoMicros
  | MtoRatoshis
  | MatRate (rate : value)
  | MtoString
  | MtoObject
  | MtoJSON
  | Minspect
  | Mget_BLK
  | Mget_mBLK
  | Mget_uBLK
  | Mget_ratoshis.

Inductive answer : Type :=
  | ANumber (x : Num.number)
  | AString (s : string)
  | AObject (o : plain_object).

Definition number_answer (m : method Num.number) : method answer :=
  x <- m ;; ret (ANumber x).

Definition string_answer (m : method string) : method answer :=
  s <- m ;; ret (AString s).

Definition invoke (m : member) : method answer :=
  match m with
  | M_from amount code => number_answer (fun this => (_from amount code, this))
  | Mto code => number_answer (to code)
  | MtoBLK => number_answer toBLK
  | MtoMillis => number_answer toMillis
  | MtoMilis => number_answer toMilis
  | MtoMicros => number_answer toMicros
  | MtoRatoshis => number_answer toRatoshis
  | MatRate rate => number_answer (atRate rate)
  | MtoString => string_answer toString
  | MtoObject => o <- toObject ;; ret (AObject o)
  | MtoJSON => o <- toJSON ;; ret (AObject o)
  | Minspect => string_answer inspect
  | Mget_BLK => number_answer (get BLK)
  | Mget_mBLK => number_answer (get mBLK)
  | Mget_uBLK => number_answer (get uBLK)
  | Mget_ratoshis => number_answer (get ratoshis)
  end.

(** A client that calls members one after the other on an instance and
    catches what they throw: the completions of the calls, and the instance
    as the last call leaves it. *)
Fixpoint invoke_each (ms : list member) (this : instance) : list (completion answer) * instance :=
  match ms with
  | [] => ([], this)
  | m :: rest =>
      let (c, this') := invoke m this in
      let (cs, this'') := invoke_each rest this' in
      (c :: cs, this'')
  end.

(** The object [toObject] returns, as an argument of [Unit.fromObject]. *)
Definition as_argument (o : plain_object) : argument :=
  Object [("amount", VNumber (amount o)); ("code", VString (code o))].

(** The numbers of decimals that the entries of [UNITS] give. *)
Definition table_digits (d : nat) : Prop :=
  In d (map (fun entry => snd (snd entry)) UNITS).

End Unit.

(** ** The vocabulary of the specification

    Definitions that follow the words of the specification, to compare the
    program with. *)

Module Spec.

(** The four recognized denomination codes and their scale, in atomic
    units. *)
Definition recognized (code : string) : Prop :=
  In code ["BLK"; "mBLK"; "uBLK"; "ratoshis"]%string.

Definition scale (code : string) : Z :=
  if String.eqb code "BLK" then 100000000
  else if String.eqb code "mBLK" then 100000
  else if String.eqb code "uBLK" then 100
  else 1.

(** The nearest integer, a tie going away from zero. *)
Definition round_half_away_from_zero (q : Q) : Z :=
  if Qle_bool 0 q then Qfloor (q + (1 # 2)) else - Qfloor (- q + (1 # 2)).

(** Rounding to a number of decimal places, by the same rule. *)
Definition round_places (q : Q) (places : nat) : Q :=
  inject_Z (round_half_away_from_zero (q * inject_Z (10 ^ Z.of_nat places)))
  / inject_Z (10 ^ Z.of_nat places).

End Spec.

(** ** The vocabulary of binary64 rounding

    Definitions used to state what the arithmetic of [SpecFloat] computes. *)

Module Rounding.

(** The exponent of the format for a value of [z] bits above the exponent
    (precision 53, least exponent -1074). *)
Definition fexp64 (z : Z) : Z := fexp Num.prec Num.emax z.

(** Powers of two as rationals. *)
Definition pow2 (e : Z) : Q := (2 ^ e)%Q.

(** Where a value lies with respect to the mantissa of a shift record: on
    it, in the lower half above it, half way, or in the upper half (the round
    and sticky bits). *)
Definition located (x : Q) (rec : shr_record) : Prop :=
  let m := inject_Z (shr_m rec) in
  match shr_r rec, shr_s rec with
  | false, false => (x == m)%Q
  | false, true => (m < x /\ x < m + (1 # 2))%Q
  | true, false => (x == m + (1 # 2))%Q
  | true, true => (m + (1 # 2) < x /\ x < m + 1)%Q
  end.

(** The mantissa of a shift record rounded to nearest, ties to even. *)
Definition rounded (rec : shr_record) : Z :=
  round_nearest_even (shr_m rec) (loc_of_shr_record rec).

(** What [binary_round_aux] returns for a mantissa and an exponent. *)
Definition build (s : bool) (M e : Z) : spec_float :=
  match M with
  | 0 => S754_zero s
  | Z.pos m => if e <=? 971 then S754_finite s m e else S754_infinity s
  | Z.neg _ => S754_nan
  end.

(** The unit roundoff and half the least positive Number. *)
Definition u53 : Q := 1 # 2 ^ 53.
Definition eta : Q := 1 # 2 ^ 1075.

(** A value with a sign. *)
Definition signed (s : bool) (q : Q) : Q := if s then Qopp q else q.

(** The exact quotient of two finite Numbers. *)
Definition quotient (mx my : positive) (ex ey : Z) : Q :=
  (inject_Z (Z.pos mx) * pow2 ex / (inject_Z (Z.pos my) * pow2 ey))%Q.

End Rounding.

(** * Properties *)

(** ** Numbers *)

Module NumFacts.

Import Num.

Lemma digits2_pos_bounds (m : positive) :
  2 ^ (Z.pos (digits2_pos m) - 1) <= Z.pos m < 2 ^ Z.pos (digits2_pos m).
Proof.
  induction m as [m IH|m IH|]; cbn [digits2_pos].
  - rewrite Pos2Z.inj_succ.
    replace (Z.succ (Z.pos (digits2_pos m)) - 1) with (Z.succ (Z.pos (digits2_pos m) - 1)) by lia.
    rewrite !Z.pow_succ_r by lia. lia.
  - rewrite Pos2Z.inj_succ.
    replace (Z.succ (Z.pos (digits2_pos m)) - 1) with (Z.succ (Z.pos (digits2_pos m) - 1)) by lia.
    rewrite !Z.pow_succ_r by lia. lia.
  - simpl. lia.
Qed.

Lemma digits2_pos_shift (m k : positive) :
  digits2_pos (Pos.iter xO m k) = (digits2_pos m + k)%positive.
Proof.
  induction k as [|k IH] using Pos.peano_ind.
  - simpl. lia.
  - rewrite Pos.iter_succ. cbn [digits2_pos]. rewrite IH. lia.
Qed.

Lemma shift_value (m k : positive) :
  Z.pos (Pos.iter xO m k) = Z.pos m * 2 ^ Z.pos k.
Proof.
  induction k as [|k IH] using Pos.peano_ind.
  - simpl. lia.
  - rewrite Pos.iter_succ, Pos2Z.inj_succ, Z.pow_succ_r by lia.
    rewrite Pos2Z.inj_xO, IH. lia.
Qed.

(** A mantissa of 53 bits with an exponent in range is its own rounding. *)
Lemma binary_round_aux_exact (s : bool) (m : positive) (e : Z) :
  Z.pos (digits2_pos m) = 53 -> -1074 <= e <= 971 ->
  binary_round_aux prec emax s (Z.pos m) e loc_Exact = S754_finite s m e.
Proof.
  intros Hd He.
  assert (Hshift : fexp prec emax (Zdigits2 (Z.pos m) + e) - e = 0).
  { unfold fexp, emin, prec, emax. cbn [Zdigits2]. rewrite Hd. lia. }
  unfold binary_round_aux, shr_fexp.
  rewrite Hshift. cbn [shr_record_of_loc shr shr_m loc_of_shr_record round_nearest_even].
  rewrite Hshift. cbn [shr_record_of_loc shr shr_m].
  replace (e <=? emax - prec) with true; [reflexivity|].
  symmetry. apply Z.leb_le. unfold emax, prec. lia.
Qed.

Lemma binary_round_small (s : bool) (m : positive) :
  Z.pos m < 2 ^ 53 ->
  exists m' e, binary_round prec emax s m 0 = S754_finite s m' e
               /\ e <= 0 /\ Z.pos m' = Z.pos m * 2 ^ (- e).
Proof.
  intro Hm.
  pose proof (digits2_pos_bounds m) as [Hlo Hhi].
  assert (Hd : Z.pos (digits2_pos m) <= 53).
  { destruct (Z_le_gt_dec (Z.pos (digits2_pos m)) 53) as [|Hgt]; [assumption|].
    assert (2 ^ 53 <= 2 ^ (Z.pos (digits2_pos m) - 1)) by (apply Z.pow_le_mono_r; lia).
    lia. }
  unfold binary_round.
  assert (Hf : fexp prec emax (Z.pos (digits2_pos m) + 0) = Z.pos (digits2_pos m) - 53).
  { unfold fexp, emin, prec, emax. lia. }
  rewrite Hf. unfold shl_align.
  destruct (Z.pos (digits2_pos m) - 53 - 0) as [|k|k] eqn:Hk; try lia.
  - exists m, 0. rewrite binary_round_aux_exact by lia.
    repeat split; lia.
  - exists (Pos.iter xO m k), (Z.pos (digits2_pos m) - 53).
    rewrite binary_round_aux_exact.
    + repeat split; [lia|]. rewrite shift_value. f_equal. f_equal. lia.
    + rewrite digits2_pos_shift, Pos2Z.inj_add. lia.
    + lia.
Qed.

Lemma finite_value (s : bool) (m m0 : positive) (e : Z) :
  e <= 0 -> Z.pos m = Z.pos m0 * 2 ^ (- e) ->
  (abs_Q (S754_finite s m e) == inject_Z (Z.pos m0))%Q.
Proof.
  intros He Hm. unfold abs_Q.
  destruct e as [|k|k]; try lia.
  - change (- 0) with 0 in Hm. rewrite Z.pow_0_r, Z.mul_1_r in *.
    now rewrite Hm.
  - unfold Qeq. cbn [Qnum Qden inject_Z].
    rewrite Hm. cbn [Z.opp]. rewrite Pos2Z.inj_pow. lia.
Qed.

(** Integers up to [2^53] are Numbers. *)
Lemma of_Z_exact (n : Z) :
  Z.abs n <= 2 ^ 53 -> (to_Q (of_Z n) == inject_Z n)%Q.
Proof.
  intro Hn.
  destruct (Z.eq_dec (Z.abs n) (2 ^ 53)) as [E|E].
  - destruct (Z.abs_eq_or_opp n) as [H|H]; rewrite H in E.
    + subst n. vm_compute. reflexivity.
    + assert (n = - 2 ^ 53) by lia. subst n. vm_compute. reflexivity.
  - destruct n as [|m|m].
    + reflexivity.
    + destruct (binary_round_small false m) as (m' & e & Hr & He & Hv); [lia|].
      unfold of_Z, binary_normalize. rewrite Hr.
      unfold to_Q. cbn [is_negative].
      apply (finite_value false m' m e He Hv).
    + destruct (binary_round_small true m) as (m' & e & Hr & He & Hv); [lia|].
      unfold of_Z, binary_normalize. rewrite Hr.
      unfold to_Q. cbn [is_negative].
      rewrite (finite_value true m' m e He Hv). reflexivity.
Qed.

Lemma abs_Q_nonneg (x : Num.number) : (0 <= Num.abs_Q x)%Q.
Proof.
  destruct x as [s|s| |s m e]; unfold Num.abs_Q; try apply Qle_refl.
  destruct e as [|e|e]; unfold Qle; cbn [Qnum Qden inject_Z].
  - lia.
  - assert (0 < 2 ^ Z.pos e) by (apply Z.pow_pos_nonneg; lia). nia.
  - lia.
Qed.

Lemma pow10_pos (f : nat) : 0 < 10 ^ Z.of_nat f.
Proof. apply Z.pow_pos_nonneg; lia. Qed.

Lemma of_integer_exact (neg : bool) (n : Z) :
  Z.abs n <= 2 ^ 53 -> (to_Q (of_integer neg n) == inject_Z n)%Q.
Proof.
  intro Hn. unfold of_integer.
  destruct (Z.eqb_spec n 0) as [->|_]; [reflexivity|].
  now apply of_Z_exact.
Qed.

End NumFacts.

(** ** Rounding half away from zero *)

Module SpecFacts.

Lemma round_half_away_from_zero_comp (q q' : Q) :
  (q == q')%Q ->
  Spec.round_half_away_from_zero q = Spec.round_half_away_from_zero q'.
Proof.
  intro E. unfold Spec.round_half_away_from_zero.
  assert (Hb : Qle_bool 0 q = Qle_bool 0 q').
  { destruct (Qle_bool 0 q) eqn:H1, (Qle_bool 0 q') eqn:H2; try reflexivity.
    - apply Qle_bool_iff in H1. rewrite E in H1. apply Qle_bool_iff in H1. congruence.
    - apply Qle_bool_iff in H2. rewrite <- E in H2. apply Qle_bool_iff in H2. congruence. }
  rewrite Hb. destruct (Qle_bool 0 q'); now rewrite E.
Qed.

(** Rounding half away from zero moves a value by at most one half. *)
Lemma round_half_away_from_zero_error (q : Q) :
  (Qabs (inject_Z (Spec.round_half_away_from_zero q) - q) <= 1 # 2)%Q.
Proof.
  apply Qabs_Qle_condition. unfold Spec.round_half_away_from_zero.
  destruct (Qle_bool 0 q).
  - pose proof (Qfloor_le (q + (1 # 2))) as H1.
    pose proof (Qlt_floor (q + (1 # 2))) as H2.
    rewrite inject_Z_plus in H2. change (inject_Z 1) with 1%Q in H2.
    split; lra.
  - pose proof (Qfloor_le (- q + (1 # 2))) as H1.
    pose proof (Qlt_floor (- q + (1 # 2))) as H2.
    rewrite inject_Z_plus in H2. change (inject_Z 1) with 1%Q in H2.
    rewrite inject_Z_opp.
    split; lra.
Qed.

(** Rounding to two decimal places moves a value by at most 0.005. *)
Lemma round_places_2_error (q : Q) :
  (Qabs (Spec.round_places q 2 - q) <= 1 # 200)%Q.
Proof.
  unfold Spec.round_places.
  change (inject_Z (10 ^ Z.of_nat 2)) with (100 # 1)%Q.
  pose proof (round_half_away_from_zero_error (q * (100 # 1))) as H.
  apply Qabs_Qle_condition in H. apply Qabs_Qle_condition.
  set (n := inject_Z (Spec.round_half_away_from_zero (q * (100 # 1)))) in *.
  setoid_replace (n / (100 # 1))%Q with (n * (1 # 100))%Q by (unfold Qdiv; reflexivity).
  split; lra.
Qed.

(** An integer within less than one half of a value is its rounding. *)
Lemma round_half_away_from_zero_unique (q : Q) (n : Z) :
  (Qabs (q - inject_Z n) < 1 # 2)%Q -> Spec.round_half_away_from_zero q = n.
Proof.
  intro H. apply Qabs_Qlt_condition in H. destruct H as [H1 H2].
  pose proof (round_half_away_from_zero_error q) as Hr.
  apply Qabs_Qle_condition in Hr. destruct Hr as [H3 H4].
  set (r := Spec.round_half_away_from_zero q) in *.
  assert (Hlt : (inject_Z r - inject_Z n < 1)%Q) by lra.
  assert (Hgt : (-1 < inject_Z r - inject_Z n)%Q) by lra.
  assert (E : (inject_Z r - inject_Z n == inject_Z (r - n))%Q).
  { unfold Z.sub. rewrite inject_Z_plus, inject_Z_opp. reflexivity. }
  rewrite E in Hlt, Hgt.
  change 1%Q with (inject_Z 1) in Hlt. change (-1)%Q with (inject_Z (-1)) in Hgt.
  rewrite <- Zlt_Qlt in Hlt, Hgt. lia.
Qed.

End SpecFacts.

(** ** binary64 arithmetic: what [SFmul] and [SFdiv] compute

    Every finite result of a multiplication or a division is within the
    relative error [2^-53] of the exact result, or within [2^-1075] of it
    when it is subnormal. *)

Module RoundingFacts.

Import Rounding.

Lemma located_comp (x y : Q) (rec : shr_record) :
  (x == y)%Q -> located x rec -> located y rec.
Proof.
  intros E. unfold located. destruct (shr_r rec), (shr_s rec); now rewrite E.
Qed.

Lemma inject_xO (p : positive) : (inject_Z (Z.pos p~0) == 2 * inject_Z (Z.pos p))%Q.
Proof. rewrite Pos2Z.inj_xO, inject_Z_mult. reflexivity. Qed.

Lemma inject_xI (p : positive) : (inject_Z (Z.pos p~1) == 2 * inject_Z (Z.pos p) + 1)%Q.
Proof. rewrite Pos2Z.inj_xI, inject_Z_plus, inject_Z_mult. reflexivity. Qed.

Lemma shr_1_located (x : Q) (rec : shr_record) :
  0 <= shr_m rec -> located x rec ->
  0 <= shr_m (shr_1 rec)
  /\ shr_m (shr_1 rec) = shr_m rec / 2
  /\ located (x * (1 # 2)) (shr_1 rec).
Proof.
  destruct rec as [m r s]. cbn [shr_m]. intros Hm H.
  assert (Hdiv : shr_m (shr_1 (Build_shr_record m r s)) = m / 2).
  { destruct m as [|[p|p|]|p]; try lia; cbn [shr_1 shr_m].
    - reflexivity.
    - rewrite Pos2Z.inj_xI. apply Z.div_unique with 1; lia.
    - rewrite Pos2Z.inj_xO. apply Z.div_unique with 0; lia.
    - reflexivity. }
  split; [rewrite Hdiv; apply Z.div_pos; lia|]. split; [exact Hdiv|]. clear Hdiv.
  destruct m as [|[p|p|]|p]; [| | | |lia];
    destruct r, s; unfold located in *; cbn in *;
    try (pose proof (inject_xO p)); try (pose proof (inject_xI p));
    change (inject_Z 0) with 0%Q in *; change (inject_Z 1) with 1%Q in *;
    lra.
Qed.

Lemma pow2_xO (p : positive) : (2 ^ p~0 = 2 ^ p * 2 ^ p)%positive.
Proof.
  apply Pos2Z.inj. rewrite Pos2Z.inj_mul, !Pos2Z.inj_pow.
  replace (Z.pos p~0) with (Z.pos p + Z.pos p) by lia.
  apply Z.pow_add_r; lia.
Qed.

Lemma pow2_xI (p : positive) : (2 ^ p~1 = 2 * (2 ^ p * 2 ^ p))%positive.
Proof.
  apply Pos2Z.inj. rewrite !Pos2Z.inj_mul, !Pos2Z.inj_pow.
  replace (Z.pos p~1) with (1 + (Z.pos p + Z.pos p)) by lia.
  rewrite !Z.pow_add_r by lia. reflexivity.
Qed.

(** The shift loop divides the mantissa by a power of two and keeps track of
    where the value lies. *)
Lemma iter_located (p : positive) :
  forall (x : Q) (rec : shr_record),
  0 <= shr_m rec -> located x rec ->
  0 <= shr_m (iter_pos shr_1 p rec)
  /\ shr_m (iter_pos shr_1 p rec) = shr_m rec / Z.pos (2 ^ p)
  /\ located (x * (1 # 2 ^ p)) (iter_pos shr_1 p rec).
Proof.
  induction p as [p IH|p IH|]; intros x rec Hm H; cbn [iter_pos].
  - destruct (shr_1_located x rec Hm H) as (Hm1 & E1 & H1).
    destruct (IH _ _ Hm1 H1) as (Hm2 & E2 & H2).
    destruct (IH _ _ Hm2 H2) as (Hm3 & E3 & H3).
    split; [exact Hm3|]. split.
    + rewrite E3, E2, E1, pow2_xI, !Pos2Z.inj_mul, !Z.div_div by lia.
      f_equal.
    + assert (E : (x * (1 # 2 ^ p~1) == x * (1 # 2) * (1 # 2 ^ p) * (1 # 2 ^ p))%Q).
      { rewrite pow2_xI. unfold Qeq, Qmult. cbn [Qnum Qden]. lia. }
      apply (located_comp _ _ _ (Qeq_sym _ _ E) H3).
  - destruct (IH _ _ Hm H) as (Hm2 & E2 & H2).
    destruct (IH _ _ Hm2 H2) as (Hm3 & E3 & H3).
    split; [exact Hm3|]. split.
    + rewrite E3, E2, pow2_xO, !Pos2Z.inj_mul, !Z.div_div by lia. reflexivity.
    + assert (E : (x * (1 # 2 ^ p~0) == x * (1 # 2 ^ p) * (1 # 2 ^ p))%Q).
      { rewrite pow2_xO. unfold Qeq, Qmult. cbn [Qnum Qden]. lia. }
      apply (located_comp _ _ _ (Qeq_sym _ _ E) H3).
  - apply shr_1_located; assumption.
Qed.

Lemma fexp64_spec (z : Z) : fexp64 z = Z.max (z - 53) (-1074).
Proof. reflexivity. Qed.

Lemma Zdigits2_nonneg (z : Z) : 0 <= Zdigits2 z.
Proof. destruct z; simpl; lia. Qed.

Lemma Zdigits2_bounds (z : Z) :
  0 < z -> 2 ^ (Zdigits2 z - 1) <= z < 2 ^ Zdigits2 z.
Proof.
  destruct z as [|p|p]; try lia. intros _. apply NumFacts.digits2_pos_bounds.
Qed.

Lemma Zdigits2_le (z k : Z) : 0 <= k -> 0 <= z < 2 ^ k -> Zdigits2 z <= k.
Proof.
  intros Hk [H0 Hz].
  destruct (Z.eq_dec z 0) as [->|Hne]; [simpl; lia|].
  destruct (Zdigits2_bounds z) as [Hlo _]; [lia|].
  destruct (Z_le_gt_dec (Zdigits2 z) k) as [|Hgt]; [assumption|].
  assert (2 ^ k <= 2 ^ (Zdigits2 z - 1)) by (apply Z.pow_le_mono_r; lia).
  lia.
Qed.

Lemma Zdigits2_ge (z k : Z) : 0 < z -> 2 ^ (k - 1) <= z -> k <= Zdigits2 z.
Proof.
  intros H0 Hz.
  destruct (Zdigits2_bounds z H0) as [_ Hhi].
  destruct (Z_le_gt_dec k (Zdigits2 z)) as [|Hgt]; [assumption|].
  assert (2 ^ Zdigits2 z <= 2 ^ (k - 1))
    by (apply Z.pow_le_mono_r; pose proof (Zdigits2_nonneg z); lia).
  lia.
Qed.

Lemma pow2_pos (e : Z) : (0 < pow2 e)%Q.
Proof. apply Qpower_0_lt. reflexivity. Qed.

Lemma pow2_add (a b : Z) : (pow2 (a + b) == pow2 a * pow2 b)%Q.
Proof. apply Qpower_plus. discriminate. Qed.

Lemma pow2_inject (e : Z) : 0 <= e -> (inject_Z (2 ^ e) == pow2 e)%Q.
Proof. intro H. unfold pow2. now rewrite Zpower_Qpower. Qed.

Lemma pow2_0 : (pow2 0 == 1)%Q.
Proof. reflexivity. Qed.

Lemma pow2_opp (e : Z) : (pow2 (- e) * pow2 e == 1)%Q.
Proof. rewrite <- pow2_add. replace (- e + e) with 0 by lia. reflexivity. Qed.

Lemma pow2_neg (p : positive) : (1 # 2 ^ p == pow2 (Z.neg p))%Q.
Proof.
  assert (H : (inject_Z (Z.pos (2 ^ p)) == pow2 (Z.pos p))%Q).
  { rewrite Pos2Z.inj_pow. apply pow2_inject. lia. }
  pose proof (pow2_opp (Z.pos p)) as Ho. change (- Z.pos p) with (Z.neg p) in Ho.
  rewrite <- H in Ho.
  assert (E : (1 # 2 ^ p == / inject_Z (Z.pos (2 ^ p)))%Q) by reflexivity.
  rewrite E.
  apply (Qmult_inj_r _ _ (inject_Z (Z.pos (2 ^ p)))); [discriminate|].
  rewrite Ho. rewrite Qmult_comm. apply Qmult_inv_r. discriminate.
Qed.

Lemma pow2_le (a b : Z) : a <= b -> (pow2 a <= pow2 b)%Q.
Proof. intro H. apply Qpower_le_compat_l; [assumption | discriminate]. Qed.

Lemma abs_Q_finite (s : bool) (m : positive) (e : Z) :
  (Num.abs_Q (S754_finite s m e) == inject_Z (Z.pos m) * pow2 e)%Q.
Proof.
  unfold Num.abs_Q. destruct e as [|p|p].
  - rewrite Z.pow_0_r, Z.mul_1_r, pow2_0. ring.
  - rewrite inject_Z_mult, pow2_inject by lia. reflexivity.
  - rewrite <- pow2_neg. unfold Qeq, Qmult. cbn [Qnum Qden inject_Z]. lia.
Qed.

(** Rounding to nearest, ties to even, moves a located value by at most one
    half. *)
Lemma round_located (x : Q) (rec : shr_record) :
  located x rec ->
  shr_m rec <= rounded rec <= shr_m rec + 1
  /\ (Qabs (inject_Z (rounded rec) - x) <= 1 # 2)%Q
  /\ (loc_of_shr_record rec = loc_Exact ->
      rounded rec = shr_m rec /\ (x == inject_Z (rounded rec))%Q).
Proof.
  destruct rec as [m r s]. unfold located, rounded. cbn [shr_m shr_r shr_s].
  intros H.
  assert (Hinj : (inject_Z (m + 1) == inject_Z m + 1)%Q)
    by (rewrite inject_Z_plus; reflexivity).
  destruct r, s; cbn [loc_of_shr_record round_nearest_even].
  - split; [lia|]. split; [|discriminate].
    apply Qabs_Qle_condition. rewrite Hinj. split; lra.
  - split; [destruct (Z.even m); lia|]. split; [|discriminate].
    apply Qabs_Qle_condition. destruct (Z.even m); [|rewrite Hinj]; split; lra.
  - split; [lia|]. split; [|discriminate].
    apply Qabs_Qle_condition. split; lra.
  - split; [lia|]. split.
    + apply Qabs_Qle_condition. split; lra.
    + intros _. split; [reflexivity | exact H].
Qed.

Lemma shr_m_of_loc (m : Z) (l : location) : shr_m (shr_record_of_loc m l) = m.
Proof. destruct l as [|[]]; reflexivity. Qed.

Lemma loc_of_record_of_loc (m : Z) (l : location) :
  loc_of_shr_record (shr_record_of_loc m l) = l.
Proof. destruct l as [|[]]; reflexivity. Qed.

Lemma fexp64_mono (a b : Z) : a <= b -> fexp64 a <= fexp64 b.
Proof. rewrite !fexp64_spec. lia. Qed.

(** The first shift of [binary_round_aux]. *)
Lemma shr_fexp_spec (mx ex : Z) (lx : location) (X : Q) :
  0 <= mx -> located X (shr_record_of_loc mx lx) ->
  exists rec' e',
    shr_fexp Num.prec Num.emax mx ex lx = (rec', e')
    /\ e' = Z.max ex (fexp64 (Zdigits2 mx + ex))
    /\ 0 <= shr_m rec'
    /\ shr_m rec' = mx / 2 ^ (e' - ex)
    /\ located (X * pow2 (ex - e')) rec'
    /\ (e' = ex -> rec' = shr_record_of_loc mx lx).
Proof.
  intros Hm HX. unfold shr_fexp, shr. fold (fexp64 (Zdigits2 mx + ex)).
  assert (Hsame : located (X * pow2 (ex - ex)) (shr_record_of_loc mx lx)).
  { apply (located_comp X); [|exact HX].
    replace (ex - ex) with 0 by lia. rewrite pow2_0. ring. }
  destruct (fexp64 (Zdigits2 mx + ex) - ex) as [|p|p] eqn:En.
  - exists (shr_record_of_loc mx lx), ex.
    rewrite shr_m_of_loc. replace (ex - ex) with 0 in * by lia.
    rewrite Z.pow_0_r, Z.div_1_r. repeat split; auto; lia.
  - destruct (iter_located p X (shr_record_of_loc mx lx)) as (H0 & Hdiv & Hloc);
      [rewrite shr_m_of_loc; exact Hm | exact HX |].
    exists (iter_pos shr_1 p (shr_record_of_loc mx lx)), (ex + Z.pos p).
    rewrite shr_m_of_loc in Hdiv.
    replace (ex + Z.pos p - ex) with (Z.pos p) by lia.
    replace (ex - (ex + Z.pos p)) with (Z.neg p) by lia.
    split; [reflexivity|]. split; [lia|]. split; [exact H0|].
    split; [|split].
    + rewrite Hdiv, Pos2Z.inj_pow. reflexivity.
    + apply (located_comp (X * (1 # 2 ^ p))); [|exact Hloc].
      now rewrite pow2_neg.
    + intro. lia.
  - exists (shr_record_of_loc mx lx), ex.
    rewrite shr_m_of_loc. replace (ex - ex) with 0 in * by lia.
    rewrite Z.pow_0_r, Z.div_1_r. repeat split; auto; lia.
Qed.

(** The second shift of [binary_round_aux] keeps the value: it does nothing,
    or halves an even mantissa. *)
Lemma renormalize (M e' k : Z) :
  -1074 <= e' -> fexp64 (k + e') <= e' -> 0 <= M <= 2 ^ Z.max k 0 ->
  exists rec'' e'',
    shr_fexp Num.prec Num.emax M e' loc_Exact = (rec'', e'')
    /\ 0 <= shr_m rec''
    /\ ((e'' = e' /\ shr_m rec'' = M) \/ (e'' = e' + 1 /\ M = 2 * shr_m rec'')).
Proof.
  intros He Hk [HM0 HM].
  set (K := Z.max k 0) in *.
  assert (HK : 0 <= K) by lia.
  assert (Hd1 : Zdigits2 M <= K + 1).
  { apply Zdigits2_le; [lia|]. rewrite Z.pow_add_r, Z.pow_1_r by lia. lia. }
  assert (HfK : fexp64 (K + e') <= e').
  { destruct (Z.max_spec k 0) as [[_ E]|[_ E]]; fold K in E; rewrite E.
    - rewrite fexp64_spec. lia.
    - exact Hk. }
  unfold shr_fexp, shr. fold (fexp64 (Zdigits2 M + e')).
  cbn [shr_record_of_loc].
  destruct (fexp64 (Zdigits2 M + e') - e') as [|p|p] eqn:En.
  - eexists _, e'. split; [reflexivity|]. cbn [shr_m]. auto.
  - assert (Hp : Z.pos p <= 1).
    { pose proof (fexp64_mono (Zdigits2 M + e') (K + 1 + e') ltac:(lia)) as Hmono.
      rewrite !fexp64_spec in *. lia. }
    assert (p = 1%positive) by lia. subst p.
    assert (HMK : M = 2 ^ K).
    { destruct (Z.eq_dec M (2 ^ K)) as [|Hne]; [assumption|].
      assert (Zdigits2 M <= K) by (apply Zdigits2_le; lia).
      pose proof (fexp64_mono (Zdigits2 M + e') (K + e') ltac:(lia)). lia. }
    assert (HK1 : 1 <= K).
    { destruct (Z.eq_dec K 0) as [E0|]; [|lia].
      rewrite E0 in HMK. change (2 ^ 0) with 1 in HMK. subst M.
      cbn [Zdigits2 digits2_pos] in En. rewrite fexp64_spec in En. lia. }
    assert (HM2 : M = 2 * 2 ^ (K - 1)).
    { rewrite HMK. replace K with (1 + (K - 1)) at 1 by lia.
      rewrite Z.pow_add_r by lia. reflexivity. }
    assert (Hpos : 0 < 2 ^ (K - 1)) by (apply Z.pow_pos_nonneg; lia).
    destruct M as [|[q|q|]|q]; try lia.
    eexists _, (e' + 1). split; [reflexivity|].
    cbn [iter_pos shr_1 shr_m]. split; [lia|]. right. split; [reflexivity|].
    rewrite Pos2Z.inj_xO. reflexivity.
  - eexists _, e'. split; [reflexivity|]. cbn [shr_m]. auto.
Qed.

Lemma half_min : ((1 # 2) * pow2 (-1074) == eta)%Q.
Proof.
  change (-1074) with (Z.neg 1074). rewrite <- pow2_neg.
  unfold eta, Qeq, Qmult. cbn [Qnum Qden].
  rewrite !Pos2Z.inj_mul, !Pos2Z.inj_pow.
  change (Z.pos 1075) with (1 + 1074). rewrite Z.pow_add_r by lia. lia.
Qed.

Lemma binary_round_aux_spec (s : bool) (mx ex : Z) (lx : location) (X : Q) :
  0 <= mx -> located X (shr_record_of_loc mx lx) ->
  (ex <= fexp64 (Zdigits2 mx + ex) \/ lx = loc_Exact) ->
  exists M e,
    binary_round_aux Num.prec Num.emax s mx ex lx = build s M e
    /\ 0 <= M
    /\ (Qabs (inject_Z M * pow2 e - X * pow2 ex)
        <= u53 * (inject_Z M * pow2 e) + eta)%Q
    /\ (ex <= fexp64 (Zdigits2 mx + ex) -> e <= fexp64 (Zdigits2 mx + ex) + 1).
Proof.
  intros Hm HX Hn.
  destruct (shr_fexp_spec mx ex lx X Hm HX) as (rec' & e' & E1 & He' & Hm' & Hdiv & Hloc & Hsame).
  destruct (round_located _ rec' Hloc) as (HM2 & Herr & Hexact).
  set (M2 := rounded rec') in *.
  set (d := Zdigits2 mx) in *.
  pose proof (Zdigits2_nonneg mx) as Hd0. fold d in Hd0.
  assert (Hemin : -1074 <= e') by (rewrite He', fexp64_spec; lia).
  assert (Hpe : 0 <= e' - ex) by lia.
  assert (Hp2 : 0 < 2 ^ (e' - ex)) by (apply Z.pow_pos_nonneg; lia).
  (* the shifted mantissa is below 2^k *)
  assert (Hlt : shr_m rec' < 2 ^ Z.max (d + ex - e') 0).
  { rewrite Hdiv.
    assert (0 < 2 ^ Z.max (d + ex - e') 0) by (apply Z.pow_pos_nonneg; lia).
    destruct (Z.eq_dec mx 0) as [->|Hne]; [rewrite Z.div_0_l; lia|].
    destruct (Zdigits2_bounds mx) as [_ Hhi]; [lia|]. fold d in Hhi.
    destruct (Z_le_gt_dec 0 (d + ex - e')) as [Hk|Hk].
    - rewrite Z.max_l by lia.
      apply Z.div_lt_upper_bound; [lia|].
      rewrite <- Z.pow_add_r by lia.
      replace (e' - ex + (d + ex - e')) with d by lia. exact Hhi.
    - rewrite Z.div_small; [lia|]. split; [lia|].
      assert (2 ^ d <= 2 ^ (e' - ex)) by (apply Z.pow_le_mono_r; lia). lia. }
  destruct (renormalize M2 e' (d + ex - e')) as (rec'' & e'' & E2 & Hm'' & Hval);
    [exact Hemin | replace (d + ex - e' + e') with (d + ex) by lia; lia | lia |].
  exists (shr_m rec''), e''.
  split; [|split; [exact Hm''|split]].
  - unfold binary_round_aux. rewrite E1. fold (rounded rec'). fold M2. rewrite E2.
    reflexivity.
  - (* the value is that of the rounded mantissa *)
    assert (Hv : (inject_Z (shr_m rec'') * pow2 e'' == inject_Z M2 * pow2 e')%Q).
    { destruct Hval as [[-> ->]|[-> ->]]; [reflexivity|].
      rewrite inject_Z_mult, pow2_add. change (pow2 1) with 2%Q.
      change (inject_Z 2) with 2%Q. ring. }
    rewrite Hv.
    assert (HX' : (X * pow2 ex == X * pow2 (ex - e') * pow2 e')%Q).
    { rewrite <- Qmult_assoc, <- pow2_add. replace (ex - e' + e') with ex by lia.
      reflexivity. }
    rewrite HX'.
    set (X' := (X * pow2 (ex - e'))%Q) in *.
    pose proof (pow2_pos e') as Hpos.
    assert (Hfact : (inject_Z M2 * pow2 e' - X' * pow2 e'
                     == (inject_Z M2 - X') * pow2 e')%Q) by ring.
    rewrite Hfact, Qabs_Qmult, (Qabs_pos (pow2 e')) by (apply Qlt_le_weak; exact Hpos).
    assert (HM2nn : (0 <= inject_Z M2)%Q)
      by (change 0%Q with (inject_Z 0); rewrite <- Zle_Qle; lia).
    assert (Heta : (0 <= eta)%Q) by discriminate.
    assert (Hu : (0 <= u53 * (inject_Z M2 * pow2 e'))%Q).
    { apply Qmult_le_0_compat; [discriminate|].
      apply Qmult_le_0_compat; [exact HM2nn | apply Qlt_le_weak; exact Hpos]. }
    destruct (Z.eq_dec e' (-1074)) as [Emin|Hnmin].
    + (* at the least exponent, half a unit is [eta] *)
      apply (Qle_trans _ ((1 # 2) * pow2 e')).
      * apply Qmult_le_compat_r; [exact Herr | apply Qlt_le_weak; exact Hpos].
      * rewrite Emin, half_min. rewrite <- Emin. lra.
    + destruct (Z_le_gt_dec ex (fexp64 (d + ex))) as [Hshift|Hnoshift].
      * (* a normal result: the mantissa has 53 bits *)
        assert (Ee' : e' = d + ex - 53) by (rewrite fexp64_spec in *; lia).
        assert (Hmx : 0 < mx).
        { destruct (Z.eq_dec mx 0) as [E0|]; [|lia].
          unfold d in Ee'. rewrite E0 in Ee'. simpl in Ee'. lia. }
        destruct (Zdigits2_bounds mx Hmx) as [Hlo _]. fold d in Hlo.
        assert (H52 : 2 ^ 52 <= shr_m rec').
        { rewrite Hdiv. apply Z.div_le_lower_bound; [lia|].
          rewrite <- Z.pow_add_r by lia.
          replace (e' - ex + 52) with (d - 1) by lia. exact Hlo. }
        assert (H52' : (inject_Z (2 ^ 52) <= inject_Z M2)%Q)
          by (rewrite <- Zle_Qle; lia).
        apply (Qle_trans _ ((1 # 2) * pow2 e')).
        { apply Qmult_le_compat_r; [exact Herr | apply Qlt_le_weak; exact Hpos]. }
        apply (Qle_trans _ (u53 * (inject_Z M2 * pow2 e') + 0)); [|apply Qplus_le_compat; [apply Qle_refl|exact Heta]].
        rewrite Qplus_0_r, Qmult_assoc.
        apply Qmult_le_compat_r; [|apply Qlt_le_weak; exact Hpos].
        apply (Qle_trans _ (u53 * inject_Z (2 ^ 52))); [discriminate|].
        apply Qmult_le_l; [reflexivity | exact H52'].
      * (* no shift of an exact value: no error *)
        destruct Hn as [Hn|Hn]; [fold d in Hn; lia|].
        assert (Ee' : e' = ex) by lia.
        specialize (Hsame Ee'). rewrite Hsame, Hn in Hexact.
        destruct (Hexact eq_refl) as [_ Hx].
        assert (Hz : (inject_Z M2 - X' == 0)%Q) by (rewrite Hx; ring).
        rewrite Hz. change (Qabs 0) with 0%Q. rewrite Qmult_0_l.
        apply (Qle_trans _ (0 + 0)); [discriminate|].
        apply Qplus_le_compat; assumption.
  - intro Hshift. fold d in Hshift. rewrite He', Z.max_r in * by lia.
    fold d. destruct Hval as [[-> _]|[-> _]]; lia.
Qed.

(** The value of what [binary_round_aux] builds. *)
Lemma abs_Q_build (s : bool) (M e : Z) :
  0 <= M -> Num.is_finite (build s M e) = true ->
  (Num.abs_Q (build s M e) == inject_Z M * pow2 e)%Q.
Proof.
  intros HM Hfin. destruct M as [|m|m]; [| |lia].
  - cbn. ring.
  - unfold build in *. destruct (e <=? 971); [|discriminate].
    apply abs_Q_finite.
Qed.

#[global] Instance signed_comp : Proper (eq ==> Qeq ==> Qeq) signed.
Proof. intros s s' <- x y E. destruct s; unfold signed; now rewrite E. Qed.

Lemma to_Q_signed (x : Num.number) :
  exists s, (Num.to_Q x == signed s (Num.abs_Q x))%Q
            /\ (forall s' m e, x = S754_finite s' m e -> s = s').
Proof.
  destruct x as [s|s| |s m e].
  - exists s. split; [destruct s; reflexivity | discriminate].
  - exists s. split; [destruct s; reflexivity | discriminate].
  - exists false. split; [reflexivity | discriminate].
  - exists s. split; [reflexivity|]. intros s' m' e' E. now inversion E.
Qed.

Lemma to_Q_build (s : bool) (M e : Z) :
  0 <= M -> Num.is_finite (build s M e) = true ->
  (Num.to_Q (build s M e) == signed s (inject_Z M * pow2 e))%Q.
Proof.
  intros HM Hfin. destruct M as [|m|m]; [| |lia].
  - cbn. destruct s; cbn; ring.
  - unfold build in *. destruct (e <=? 971); [|discriminate].
    unfold Num.to_Q. cbn [Num.is_negative]. unfold signed.
    destruct s; rewrite abs_Q_finite; reflexivity.
Qed.

Lemma signed_mult (a b : bool) (x y : Q) :
  (signed (xorb a b) (x * y) == signed a x * signed b y)%Q.
Proof. destruct a, b; unfold signed; cbn [xorb]; ring. Qed.

Lemma signed_div (a b : bool) (x y : Q) :
  (signed (xorb a b) (x / y) == signed a x / signed b y)%Q.
Proof.
  destruct (Qeq_dec y 0) as [E|E].
  - destruct a, b; unfold signed, Qdiv; cbn [xorb]; rewrite E;
      change (- 0)%Q with 0%Q; change (/ 0)%Q with 0%Q; ring.
  - destruct a, b; unfold signed; cbn [xorb]; field; auto.
    all: intro H; apply E; lra.
Qed.

Lemma signed_error (s : bool) (x y : Q) :
  (Qabs (signed s x - signed s y) == Qabs (x - y))%Q.
Proof.
  destruct s; unfold signed; [|reflexivity].
  setoid_replace (- x - - y)%Q with (- (x - y))%Q by ring.
  apply Qabs_opp.
Qed.

Lemma Qabs_signed (s : bool) (x : Q) : (0 <= x)%Q -> (Qabs (signed s x) == x)%Q.
Proof.
  intro H. destruct s; unfold signed.
  - rewrite Qabs_opp. now apply Qabs_pos.
  - now apply Qabs_pos.
Qed.

(** ** Multiplication *)

Lemma to_Q_finite (s : bool) (m : positive) (e : Z) :
  (Num.to_Q (S754_finite s m e) == signed s (inject_Z (Z.pos m) * pow2 e))%Q.
Proof.
  unfold Num.to_Q. cbn [Num.is_negative]. unfold signed.
  destruct s; rewrite abs_Q_finite; reflexivity.
Qed.

Lemma mul_error (x y : Num.number) :
  Num.is_finite x = true -> Num.is_finite y = true ->
  Num.is_finite (Num.mul x y) = true ->
  (Qabs (Num.to_Q (Num.mul x y) - Num.to_Q x * Num.to_Q y)
   <= u53 * Qabs (Num.to_Q (Num.mul x y)) + eta)%Q.
Proof.
  intros Hx Hy Hr.
  assert (Hz : forall q, (q == 0)%Q ->
               (Qabs (0 - q) <= u53 * Qabs 0 + eta)%Q).
  { intros q E. rewrite E. discriminate. }
  destruct x as [sx|sx| |sx mx ex]; try discriminate;
    destruct y as [sy|sy| |sy my ey]; try discriminate.
  all: try (apply Hz; cbn; ring).
  unfold Num.mul, SFmul in *.
  destruct (binary_round_aux_spec (xorb sx sy) (Z.pos (mx * my)) (ex + ey) loc_Exact
                (inject_Z (Z.pos (mx * my)))) as (M & e & E & HM & Herr & _);
    [lia | reflexivity | now right |].
  rewrite E in *.
  rewrite (to_Q_build _ M e HM Hr), !to_Q_finite.
  rewrite <- signed_mult.
  assert (Hprod : (inject_Z (Z.pos mx) * pow2 ex * (inject_Z (Z.pos my) * pow2 ey)
                   == inject_Z (Z.pos (mx * my)) * pow2 (ex + ey))%Q).
  { rewrite Pos2Z.inj_mul, inject_Z_mult, pow2_add. ring. }
  rewrite Hprod, signed_error, Qabs_signed; [exact Herr|].
  apply Qmult_le_0_compat.
  - change 0%Q with (inject_Z 0). rewrite <- Zle_Qle. exact HM.
  - apply Qlt_le_weak, pow2_pos.
Qed.

(** ** Division *)

(** The location [SFdiv] computes for a quotient and its remainder. *)
Lemma new_location_located (my : positive) (q r : Z) :
  0 <= r < Z.pos my ->
  located ((q * Z.pos my + r) # my) (shr_record_of_loc q (new_location (Z.pos my) r)).
Proof.
  intros Hr. unfold new_location, new_location_even, new_location_odd.
  destruct (Z.even (Z.pos my)) eqn:Hev.
  - destruct (Z.eqb_spec r 0) as [E|E].
    + subst r. unfold located. cbn [shr_record_of_loc shr_m shr_r shr_s].
      unfold Qeq, inject_Z. cbn [Qnum Qden]. lia.
    + destruct (Z.compare_spec (2 * r) (Z.pos my)) as [C|C|C];
        unfold located; cbn [shr_record_of_loc shr_m shr_r shr_s];
        unfold Qlt, Qeq, Qplus, inject_Z; cbn [Qnum Qden]; lia.
  - assert (Hodd : 2 * r <> Z.pos my).
    { intro E. rewrite <- E, Z.even_mul in Hev. discriminate. }
    destruct (Z.eqb_spec r 0) as [E|E].
    + subst r. unfold located. cbn [shr_record_of_loc shr_m shr_r shr_s].
      unfold Qeq, inject_Z. cbn [Qnum Qden]. lia.
    + destruct (Z.compare_spec (2 * r + 1) (Z.pos my)) as [C|C|C];
        unfold located; cbn [shr_record_of_loc shr_m shr_r shr_s];
        unfold Qlt, Qeq, Qplus, inject_Z; cbn [Qnum Qden]; lia.
Qed.

(** What [SFdiv_core_binary] returns: the quotient of the shifted mantissas,
    located, with enough bits for the rounding that follows. *)
Lemma div_core_spec (mx my : positive) (ex ey : Z) :
  exists q e l X,
    SFdiv_core_binary Num.prec Num.emax (Z.pos mx) ex (Z.pos my) ey = (q, e, l)
    /\ 0 <= q
    /\ located X (shr_record_of_loc q l)
    /\ (X * pow2 e == inject_Z (Z.pos mx) * pow2 ex / (inject_Z (Z.pos my) * pow2 ey))%Q
    /\ e <= fexp64 (Zdigits2 q + e).
Proof.
  unfold SFdiv_core_binary.
  set (d1 := Zdigits2 (Z.pos mx)). set (d2 := Zdigits2 (Z.pos my)).
  fold (fexp64 (d1 + ex - (d2 + ey))).
  set (z := d1 + ex - (d2 + ey)).
  set (e := Z.min (fexp64 z) (ex - ey)).
  set (s := ex - ey - e).
  assert (Hs : 0 <= s) by (unfold s, e; lia).
  set (m' := match s with Z.pos _ => Z.shiftl (Z.pos mx) s | 0 => Z.pos mx | Z.neg _ => 0 end).
  assert (Hm' : m' = Z.pos mx * 2 ^ s).
  { unfold m'. destruct s as [|p|p]; [rewrite Z.pow_0_r; lia | | lia].
    apply Z.shiftl_mul_pow2. lia. }
  assert (Hps : 0 < 2 ^ s) by (apply Z.pow_pos_nonneg; lia).
  pose proof (Z.div_eucl_eq m' (Z.pos my) ltac:(lia)) as Heq.
  pose proof (Z.mod_pos_bound m' (Z.pos my) ltac:(lia)) as Hr.
  unfold Z.modulo in Hr.
  destruct (Z.div_eucl m' (Z.pos my)) as [q r] eqn:Ediv.
  assert (Hq : 0 <= q).
  { assert (q = m' / Z.pos my) by (unfold Z.div; now rewrite Ediv).
    subst q. apply Z.div_pos; lia. }
  exists q, e, (new_location (Z.pos my) r), ((q * Z.pos my + r) # my).
  split; [reflexivity|]. split; [exact Hq|].
  split; [apply new_location_located; exact Hr|]. split.
  - (* the value *)
    assert (Hnum : (((q * Z.pos my + r) # my) == inject_Z m' / inject_Z (Z.pos my))%Q).
    { rewrite Heq. unfold Qdiv, Qeq, Qmult, Qinv, inject_Z. cbn [Qnum Qden]. lia. }
    rewrite Hnum, Hm', inject_Z_mult, (pow2_inject s Hs).
    assert (Hex : (pow2 ex == pow2 s * pow2 e * pow2 ey)%Q).
    { rewrite <- !pow2_add. replace (s + e + ey) with ex by (unfold s; lia). reflexivity. }
    rewrite Hex.
    pose proof (pow2_pos ey). pose proof (pow2_pos e). pose proof (pow2_pos s).
    field. split; [lra | discriminate].
  - (* enough bits *)
    rewrite fexp64_spec.
    destruct (Z_le_gt_dec e (-1074)) as [|Hgt]; [lia|].
    assert (Hz : e <= z - 53) by (unfold e in *; rewrite fexp64_spec in *; lia).
    destruct (Zdigits2_bounds (Z.pos mx)) as [Hlo1 _]; [lia|]. fold d1 in Hlo1.
    destruct (Zdigits2_bounds (Z.pos my)) as [_ Hhi2]; [lia|]. fold d2 in Hhi2.
    pose proof (Zdigits2_nonneg (Z.pos my)) as Hd2. fold d2 in Hd2.
    assert (Hd1 : 1 <= d1) by (unfold d1; simpl; lia).
    assert (Hq52 : 2 ^ (z - e - 1) <= q).
    { assert (q = m' / Z.pos my) by (unfold Z.div; now rewrite Ediv).
      subst q. apply Z.div_le_lower_bound; [lia|].
      rewrite Hm'.
      assert (Hpow : 2 ^ d2 * 2 ^ (z - e - 1) = 2 ^ (d1 - 1) * 2 ^ s).
      { rewrite <- !Z.pow_add_r by lia. f_equal. unfold z, s. lia. }
      assert (0 < 2 ^ (z - e - 1)) by (apply Z.pow_pos_nonneg; lia).
      nia. }
    assert (H52 : 2 ^ 52 <= q).
    { assert (2 ^ 52 <= 2 ^ (z - e - 1)) by (apply Z.pow_le_mono_r; lia). lia. }
    assert (53 <= Zdigits2 q) by (apply Zdigits2_ge; [lia | exact H52]).
    lia.
Qed.

Lemma located_bounds (x : Q) (rec : shr_record) :
  located x rec -> (inject_Z (shr_m rec) <= x < inject_Z (shr_m rec) + 1)%Q.
Proof.
  unfold located. destruct (shr_r rec), (shr_s rec); intro H; split; lra.
Qed.

Lemma pow2_lt_inv (a b : Z) : (pow2 a < pow2 b)%Q -> a < b.
Proof.
  intro H. destruct (Z_lt_le_dec a b) as [|Hle]; [assumption|].
  apply pow2_le in Hle. lra.
Qed.

Lemma div_finite_spec (sx sy : bool) (mx my : positive) (ex ey : Z) :
  exists M e,
    SFdiv Num.prec Num.emax (S754_finite sx mx ex) (S754_finite sy my ey)
    = build (xorb sx sy) M e
    /\ 0 <= M
    /\ (Qabs (inject_Z M * pow2 e - quotient mx my ex ey)
        <= u53 * (inject_Z M * pow2 e) + eta)%Q
    /\ ((quotient mx my ex ey < pow2 1000)%Q -> e <= 971).
Proof.
  destruct (div_core_spec mx my ex ey) as (q & e0 & l & X & Ecore & Hq & Hloc & HX & Hbits).
  destruct (binary_round_aux_spec (xorb sx sy) q e0 l X Hq Hloc) as (M & e & E & HM & Herr & Hexp);
    [left; exact Hbits|].
  exists M, e. unfold SFdiv. rewrite Ecore. split; [exact E|]. split; [exact HM|].
  fold (quotient mx my ex ey) in HX. rewrite HX in Herr. split; [exact Herr|].
  intro Hsmall. specialize (Hexp Hbits).
  assert (Zdigits2 q + e0 <= 1023); [|rewrite fexp64_spec in *; lia].
  destruct (Z.eq_dec q 0) as [E0|Hne].
  - subst q. cbn [Zdigits2] in *. rewrite fexp64_spec in Hbits. lia.
  - destruct (Zdigits2_bounds q) as [Hlo _]; [lia|].
    pose proof (located_bounds _ _ Hloc) as [Hlow _]. rewrite shr_m_of_loc in Hlow.
    assert (Hd : 1 <= Zdigits2 q) by (destruct q; simpl in *; lia).
    assert (Hpq : (pow2 (Zdigits2 q - 1) <= inject_Z q)%Q).
    { rewrite <- pow2_inject by lia. rewrite <- Zle_Qle. exact Hlo. }
    assert (Hlt : (pow2 (Zdigits2 q - 1 + e0) < pow2 1000)%Q).
    { rewrite pow2_add. apply (Qle_lt_trans _ (X * pow2 e0)).
      - apply Qmult_le_compat_r; [lra | apply Qlt_le_weak, pow2_pos].
      - rewrite HX. exact Hsmall. }
    apply pow2_lt_inv in Hlt. lia.
Qed.

Lemma div_error (x y : Num.number) :
  Num.is_finite x = true -> Num.is_finite y = true ->
  Num.is_finite (Num.div x y) = true ->
  (Qabs (Num.to_Q (Num.div x y) - Num.to_Q x / Num.to_Q y)
   <= u53 * Qabs (Num.to_Q (Num.div x y)) + eta)%Q.
Proof.
  intros Hx Hy Hr.
  destruct x as [sx|sx| |sx mx ex]; try discriminate;
    destruct y as [sy|sy| |sy my ey]; try discriminate.
  unfold Num.div in *.
  destruct (div_finite_spec sx sy mx my ex ey) as (M & e & E & HM & Herr & _).
  rewrite E in *.
  rewrite (to_Q_build _ M e HM Hr), !to_Q_finite, <- signed_div.
  fold (quotient mx my ex ey).
  rewrite signed_error, Qabs_signed; [exact Herr|].
  apply Qmult_le_0_compat.
  - change 0%Q with (inject_Z 0). rewrite <- Zle_Qle. exact HM.
  - apply Qlt_le_weak, pow2_pos.
Qed.

Lemma div_is_finite (x : Num.number) (sy : bool) (my : positive) (ey : Z) :
  Num.is_finite x = true ->
  (Qabs (Num.to_Q x / Num.to_Q (S754_finite sy my ey)) < pow2 1000)%Q ->
  Num.is_finite (Num.div x (S754_finite sy my ey)) = true.
Proof.
  intros Hx Hsmall.
  destruct x as [sx|sx| |sx mx ex]; try discriminate; [reflexivity|].
  unfold Num.div.
  destruct (div_finite_spec sx sy mx my ex ey) as (M & e & E & HM & _ & Hexp).
  rewrite E.
  rewrite !to_Q_finite, <- signed_div in Hsmall.
  fold (quotient mx my ex ey) in Hsmall.
  rewrite Qabs_signed in Hsmall.
  - specialize (Hexp Hsmall). unfold build.
    destruct M as [|m|m]; [reflexivity | | lia].
    destruct (Z.leb_spec e 971); [reflexivity | lia].
  - unfold quotient. pose proof (pow2_pos ex). pose proof (pow2_pos ey).
    apply Qle_shift_div_l.
    + apply Qmult_lt_0_compat; [reflexivity | assumption].
    + rewrite Qmult_0_l. apply Qmult_le_0_compat; [discriminate | lra].
Qed.

Lemma pow10_to_pos (f : nat) :
  (inject_Z (Z.pos (Z.to_pos (10 ^ Z.of_nat f))) == inject_Z (10 ^ Z.of_nat f))%Q.
Proof. rewrite Z2Pos.id; [reflexivity | apply NumFacts.pow10_pos]. Qed.

(** ** Decimals *)

Lemma of_decimal_value (neg : bool) (n : Z) (f : nat) :
  exists x y,
    Num.is_finite x = true /\ Num.is_finite y = true
    /\ (Num.to_Q x / Num.to_Q y == inject_Z n / inject_Z (10 ^ Z.of_nat f))%Q
    /\ (n <> 0 -> Num.of_decimal neg n f = Num.div x y
                  /\ exists sy my ey, y = S754_finite sy my ey).
Proof.
  set (D := Z.to_pos (10 ^ Z.of_nat f)).
  assert (HD : (Num.to_Q (S754_finite false D 0) == inject_Z (10 ^ Z.of_nat f))%Q).
  { rewrite to_Q_finite. unfold signed. rewrite pow2_0, Qmult_1_r. apply pow10_to_pos. }
  destruct n as [|p|p].
  - exists (S754_zero false), (S754_finite false D 0).
    split; [reflexivity|]. split; [reflexivity|]. split; [|congruence].
    rewrite HD. unfold Qdiv. change (Num.to_Q (S754_zero false)) with 0%Q.
    change (inject_Z 0) with 0%Q. ring.
  - exists (S754_finite false p 0), (S754_finite false D 0).
    split; [reflexivity|]. split; [reflexivity|]. split.
    + rewrite HD, to_Q_finite. unfold signed. now rewrite pow2_0, Qmult_1_r.
    + intros _. split; [reflexivity | eauto].
  - exists (S754_finite true p 0), (S754_finite false D 0).
    split; [reflexivity|]. split; [reflexivity|]. split.
    + rewrite HD, to_Q_finite. unfold signed. rewrite pow2_0, Qmult_1_r.
      change (inject_Z (Z.neg p)) with (- inject_Z (Z.pos p))%Q. reflexivity.
    + intros _. split; [reflexivity | eauto].
Qed.

Lemma of_decimal_error (neg : bool) (n : Z) (f : nat) :
  Num.is_finite (Num.of_decimal neg n f) = true ->
  (Qabs (Num.to_Q (Num.of_decimal neg n f) - inject_Z n / inject_Z (10 ^ Z.of_nat f))
   <= u53 * Qabs (Num.to_Q (Num.of_decimal neg n f)) + eta)%Q.
Proof.
  intro Hfin.
  destruct (of_decimal_value neg n f) as (x & y & Hx & Hy & Hv & Hd).
  destruct (Z.eq_dec n 0) as [->|Hne].
  - assert (E : (Num.to_Q (Num.of_decimal neg 0 f) == 0)%Q) by (destruct neg; reflexivity).
    rewrite E. unfold Qdiv. change (inject_Z 0) with 0%Q.
    setoid_replace (0 - 0 * / inject_Z (10 ^ Z.of_nat f))%Q with 0%Q by ring.
    discriminate.
  - destruct (Hd Hne) as [E _]. rewrite E in *. rewrite <- Hv.
    now apply div_error.
Qed.

Lemma of_decimal_finite (neg : bool) (n : Z) (f : nat) :
  (Qabs (inject_Z n / inject_Z (10 ^ Z.of_nat f)) < pow2 1000)%Q ->
  Num.is_finite (Num.of_decimal neg n f) = true.
Proof.
  intro Hsmall.
  destruct (of_decimal_value neg n f) as (x & y & Hx & Hy & Hv & Hd).
  destruct (Z.eq_dec n 0) as [->|Hne]; [reflexivity|].
  destruct (Hd Hne) as [E (sy & my & ey & Ey)]. rewrite E. subst y.
  apply div_is_finite; [exact Hx|]. now rewrite Hv.
Qed.

(** A rate that is not [<= 0] is positive when it is finite. *)
Lemma positive_rate (rate : Num.number) :
  Num.is_finite rate = true -> Num.leb rate Num.pos_zero = false ->
  (0 < Num.to_Q rate)%Q /\ exists m e, rate = S754_finite false m e.
Proof.
  intros Hfin Hle.
  destruct rate as [s|s| |s m e]; try discriminate.
  destruct s; [discriminate|]. split; [|eauto].
  rewrite to_Q_finite. unfold signed.
  apply Qmult_lt_0_compat; [reflexivity | apply pow2_pos].
Qed.

(** A finite product or quotient has finite operands, apart from a division
    by an infinity. *)
Lemma mul_finite_l (x y : Num.number) :
  Num.is_finite (Num.mul x y) = true -> Num.is_finite x = true.
Proof. destruct x as [| | |]; destruct y as [| | |]; try discriminate; reflexivity. Qed.

Lemma mul_finite_r (x y : Num.number) :
  Num.is_finite (Num.mul x y) = true -> Num.is_finite y = true.
Proof. destruct x as [| | |]; destruct y as [| | |]; try discriminate; reflexivity. Qed.


End RoundingFacts.

(** ** Digit strings *)

Module DigitsFacts.

Import Digits.
Local Open Scope string_scope.

Lemma append_assoc (a b c : string) : (a ++ b) ++ c = a ++ (b ++ c).
Proof. induction a as [|x a IH]; simpl; [reflexivity | now rewrite IH]. Qed.

Lemma append_empty_r (a : string) : a ++ "" = a.
Proof. induction a as [|x a IH]; simpl; [reflexivity | now rewrite IH]. Qed.

Lemma length_append (a b : string) :
  String.length (a ++ b) = (String.length a + String.length b)%nat.
Proof. induction a as [|x a IH]; simpl; [reflexivity | now rewrite IH]. Qed.

Lemma all_digits_append (a b : string) :
  all_digits (a ++ b) = all_digits a && all_digits b.
Proof.
  induction a as [|x a IH]; simpl; [reflexivity|].
  now rewrite IH, andb_assoc.
Qed.

Lemma value_from_append (a b : string) (acc : Z) :
  value_from acc (a ++ b) = value_from (value_from acc a) b.
Proof.
  revert acc; induction a as [|x a IH]; intro acc; simpl; [reflexivity | apply IH].
Qed.

Lemma digit_char_ok (d : Z) :
  0 <= d <= 9 -> is_digit (digit_char d) = true /\ digit_value (digit_char d) = d.
Proof.
  intro H.
  assert (E : d = 0 \/ d = 1 \/ d = 2 \/ d = 3 \/ d = 4 \/ d = 5 \/ d = 6 \/
              d = 7 \/ d = 8 \/ d = 9) by lia.
  repeat (destruct E as [E|E]; [subst d; split; reflexivity|]).
  subst d; split; reflexivity.
Qed.

Lemma is_digit_code (c : ascii) :
  is_digit c = true -> (48 <= N_of_ascii c <= 57)%N.
Proof.
  unfold is_digit; intro H.
  apply andb_true_iff in H as [H1 H2].
  apply N.leb_le in H1; apply N.leb_le in H2; lia.
Qed.

(** A digit is none of the other characters the scanners look for. *)
Lemma is_digit_not (c d : ascii) :
  is_digit c = true -> is_digit d = false -> Ascii.eqb c d = false.
Proof.
  intros Hc Hd.
  destruct (Ascii.eqb c d) eqn:E; [|reflexivity].
  apply Ascii.eqb_eq in E; subst d; congruence.
Qed.

Lemma span_digits (d rest : string) :
  all_digits d = true -> stops rest -> span (d ++ rest) = (d, rest).
Proof.
  intros Hd Hr; induction d as [|c d IH]; simpl in *.
  - destruct rest as [|c r]; simpl in *; [reflexivity | now rewrite Hr].
  - apply andb_true_iff in Hd as [Hc Hd].
    now rewrite Hc, (IH Hd).
Qed.

(** The digits [digits_onto] writes. *)
Lemma digits_onto_spec (fuel : nat) :
  forall n acc, 0 <= n < 10 ^ Z.of_nat (S fuel) ->
  exists d, digits_onto (S fuel) n acc = d ++ acc
            /\ all_digits d = true /\ d <> "" /\ value_from 0 d = n.
Proof.
  induction fuel as [|fuel IH]; intros n acc Hn.
  - exists (String (digit_char n) "").
    change (10 ^ Z.of_nat 1) with 10 in Hn.
    assert (Hq : n / 10 = 0) by (apply Z.div_small; lia).
    assert (Hm : n mod 10 = n) by (apply Z.mod_small; lia).
    destruct (digit_char_ok n) as [H1 H2]; [lia|].
    simpl. rewrite Hm, Hq. simpl.
    rewrite H1, H2. repeat split; try reflexivity; discriminate.
  - assert (Hmod : 0 <= n mod 10 <= 9) by (pose proof (Z.mod_pos_bound n 10); lia).
    destruct (digit_char_ok (n mod 10) Hmod) as [H1 H2].
    cbn [digits_onto].
    destruct (n / 10 =? 0)%Z eqn:Hq.
    + apply Z.eqb_eq in Hq.
      exists (String (digit_char (n mod 10)) "").
      simpl. rewrite H1, H2.
      repeat split; try reflexivity; try discriminate.
      pose proof (Z.div_mod n 10 ltac:(lia)) as H. clear - H Hq. lia.
    + apply Z.eqb_neq in Hq.
      destruct (IH (n / 10) (String (digit_char (n mod 10)) acc)) as (d & Hd & Ha & Hne & Hv).
      { split; [apply Z.div_pos; lia|].
        apply Z.div_lt_upper_bound; [lia|].
        replace (Z.of_nat (S (S fuel))) with (1 + Z.of_nat (S fuel)) in Hn by lia.
        rewrite Z.pow_add_r in Hn by lia.
        change (10 ^ 1) with 10 in Hn. lia. }
      exists (d ++ String (digit_char (n mod 10)) "").
      repeat split.
      * cbn [digits_onto] in Hd. rewrite Hd. now rewrite append_assoc.
      * rewrite all_digits_append, Ha. simpl. now rewrite H1.
      * destruct d; [congruence | discriminate].
      * rewrite value_from_append, Hv. cbn [value_from]. rewrite H2.
        pose proof (Z.div_mod n 10 ltac:(lia)) as H. clear - H. lia.
Qed.

Lemma of_Z_spec (n : Z) :
  0 <= n ->
  all_digits (of_Z n) = true /\ of_Z n <> "" /\ value (of_Z n) = n.
Proof.
  intro Hn. unfold of_Z, value.
  destruct (digits_onto_spec (Z.to_nat (Z.log2 n)) n "") as (d & Hd & Ha & Hne & Hv).
  - split; [assumption|].
    destruct (Z.eq_dec n 0) as [->|Hz]; [reflexivity|].
    assert (Hlog : n < 2 ^ Z.succ (Z.log2 n)) by (apply Z.log2_spec; lia).
    pose proof (Z.log2_nonneg n) as Hl.
    replace (Z.of_nat (S (Z.to_nat (Z.log2 n)))) with (Z.succ (Z.log2 n)) by lia.
    assert (2 ^ Z.succ (Z.log2 n) <= 10 ^ Z.succ (Z.log2 n))
      by (apply Z.pow_le_mono_l; lia).
    lia.
  - rewrite Hd, append_empty_r. auto.
Qed.

Lemma all_digits_zeros (k : nat) : all_digits (zeros k) = true.
Proof. induction k; simpl; auto. Qed.

Lemma length_zeros (k : nat) : String.length (zeros k) = k.
Proof. induction k; simpl; auto. Qed.

Lemma value_from_zeros (k : nat) (s : string) :
  value_from 0 (zeros k ++ s) = value_from 0 s.
Proof. induction k; simpl; auto. Qed.

Lemma split_at_spec (k : nat) :
  forall s, (k <= String.length s)%nat ->
  exists a b, split_at k s = (a, b) /\ s = a ++ b /\ String.length a = k.
Proof.
  induction k as [|k IH]; intros s Hk.
  - exists "", s. destruct s; simpl; auto.
  - destruct s as [|c s]; simpl in Hk; [lia|].
    destruct (IH s) as (a & b & Hs & Heq & Hl); [lia|].
    exists (String c a), b. simpl. rewrite Hs. subst s. simpl. auto.
Qed.

End DigitsFacts.

(** ** The built-in functions *)

Module JSFacts.

Import Digits DigitsFacts JS.
Local Open Scope string_scope.

Lemma is_digit_not_white (c : ascii) : is_digit c = true -> is_white_space c = false.
Proof.
  intro H. apply is_digit_code in H. unfold is_white_space.
  destruct (N.leb_spec 9 (N_of_ascii c)), (N.leb_spec (N_of_ascii c) 13),
    (N.eqb_spec (N_of_ascii c) 32), (N.eqb_spec (N_of_ascii c) 160);
    simpl; try reflexivity; lia.
Qed.

(** Scanning a sign and digits: the start of both [parseInt] and
    [parseFloat]. *)
Lemma take_sign_digits (neg : bool) (d rest : string) :
  all_digits d = true -> d <> "" ->
  take_sign (trim_start (sign_string neg ++ d ++ rest)) = (neg, d ++ rest).
Proof.
  intros Hd Hne.
  destruct d as [|c d]; [congruence|].
  simpl in Hd. apply andb_true_iff in Hd as [Hc Hd].
  destruct neg; simpl.
  - reflexivity.
  - rewrite (is_digit_not_white c Hc). simpl.
    now rewrite !(is_digit_not c _ Hc).
Qed.

Lemma no_radix_prefix (a b : ascii) (d : string) :
  all_digits d = true -> is_digit a = false -> is_digit b = false ->
  after_radix_prefix a b d = None.
Proof.
  intros Hd Ha Hb.
  destruct d as [|c0 [|c1 d]]; try reflexivity.
  simpl in Hd. apply andb_true_iff in Hd as [_ Hd].
  apply andb_true_iff in Hd as [Hc1 _].
  simpl. rewrite (is_digit_not c1 a Hc1 Ha), (is_digit_not c1 b Hc1 Hb).
  now rewrite andb_false_r.
Qed.

(** [parseInt] reads back an integer written with a sign and digits. *)
Lemma parseInt_digits (neg : bool) (d : string) :
  all_digits d = true -> d <> "" ->
  parseInt (sign_string neg ++ d) = signed_integer neg (value d).
Proof.
  intros Hd Hne. unfold parseInt.
  rewrite <- (append_empty_r d) at 1.
  rewrite (take_sign_digits neg d "" Hd Hne), append_empty_r.
  rewrite (no_radix_prefix "x" "X" d Hd) by reflexivity.
  rewrite <- (append_empty_r d) at 1.
  rewrite (span_digits d "" Hd I). simpl.
  destruct d; [congruence | reflexivity].
Qed.

Lemma not_Infinity (d rest : string) :
  all_digits d = true -> d <> "" -> after_prefix "Infinity" (d ++ rest) = None.
Proof.
  intros Hd Hne. destruct d as [|c d]; [congruence|].
  simpl in Hd. apply andb_true_iff in Hd as [Hc _].
  cbn [append after_prefix]. rewrite Ascii.eqb_sym. now rewrite (is_digit_not c "I" Hc).
Qed.

(** [parseFloat] reads back a decimal written with a sign, digits, a point
    and digits. *)
Lemma parseFloat_fixed (neg : bool) (a b : string) :
  all_digits a = true -> a <> "" -> all_digits b = true ->
  parseFloat (sign_string neg ++ a ++ "." ++ b)
  = decimal_number neg (value (a ++ b)) (- Z.of_nat (String.length b)).
Proof.
  intros Ha Hne Hb. unfold parseFloat, scan_decimal_literal.
  rewrite (take_sign_digits neg a _ Ha Hne).
  rewrite (not_Infinity a _ Ha Hne).
  rewrite (span_digits a ("." ++ b) Ha) by reflexivity.
  simpl fraction_part.
  rewrite <- (append_empty_r b) at 1.
  rewrite (span_digits b "" Hb I).
  destruct a as [|c a]; [congruence|]. simpl. reflexivity.
Qed.

(** The same without a point. *)
Lemma parseFloat_digits (neg : bool) (d : string) :
  all_digits d = true -> d <> "" ->
  parseFloat (sign_string neg ++ d) = decimal_number neg (value d) 0.
Proof.
  intros Hd Hne. unfold parseFloat, scan_decimal_literal.
  rewrite <- (append_empty_r d) at 1.
  rewrite (take_sign_digits neg d "" Hd Hne).
  rewrite (not_Infinity d "" Hd Hne).
  rewrite (span_digits d "" Hd I). simpl.
  rewrite append_empty_r.
  destruct d as [|c d]; [congruence | reflexivity].
Qed.

(** What [fixed_digits] writes when there are fraction digits. *)
Lemma fixed_digits_point (n : Z) (f : nat) :
  0 <= n -> (0 < f)%nat ->
  exists a b, fixed_digits n f = a ++ "." ++ b
              /\ all_digits a = true /\ a <> "" /\ all_digits b = true
              /\ String.length b = f /\ value (a ++ b) = n.
Proof.
  intros Hn Hf.
  destruct (of_Z_spec n Hn) as (Hd & Hne & Hv).
  destruct f as [|f]; [lia|].
  unfold fixed_digits.
  set (m := of_Z n) in *.
  set (m' := if (String.length m <=? S f)%nat
             then zeros (S f + 1 - String.length m) ++ m else m).
  assert (Hm' : all_digits m' = true /\ value m' = n
                /\ (S f + 1 <= String.length m')%nat).
  { unfold m'. destruct (Nat.leb_spec (String.length m) (S f)).
    - rewrite all_digits_append, all_digits_zeros, length_append, length_zeros.
      unfold value. rewrite value_from_zeros. repeat split; auto. lia.
    - repeat split; auto. lia. }
  destruct Hm' as (Hd' & Hv' & Hl'). clearbody m'.
  destruct (split_at_spec (String.length m' - S f) m') as (a & b & Hs & Heq & Hla); [lia|].
  rewrite Hs. exists a, b.
  assert (Hlen : String.length m' = (String.length a + String.length b)%nat)
    by (rewrite Heq; apply length_append).
  subst m'. rewrite all_digits_append in Hd'. apply andb_true_iff in Hd' as [Ha Hb].
  repeat split; auto.
  - intros ->. simpl in Hla, Hl'. lia.
  - lia.
Qed.

Lemma nearest_scaled_nonneg (X : Q) (f : nat) : (0 <= X)%Q -> 0 <= nearest_scaled X f.
Proof.
  intro HX. unfold nearest_scaled.
  change 0 with (Qfloor 0). apply Qfloor_resp_le.
  assert (0 <= inject_Z (10 ^ Z.of_nat f))%Q.
  { change 0%Q with (inject_Z 0). rewrite <- Zle_Qle. apply Z.pow_nonneg; lia. }
  assert (0 <= X * inject_Z (10 ^ Z.of_nat f))%Q by (apply Qmult_le_0_compat; auto).
  apply (Qle_trans _ (X * inject_Z (10 ^ Z.of_nat f) + 0)).
  - now rewrite Qplus_0_r.
  - apply Qplus_le_compat; [apply Qle_refl | discriminate].
Qed.

(** [toFixed] below [10^21]: the sign and the digits of the nearest scaled
    integer. *)
Lemma toFixed_small (x : Num.number) (f : nat) :
  Num.is_finite x = true -> (Num.abs_Q x < ten21)%Q ->
  toFixed x f
  = sign_string (Num.is_negative x) ++ fixed_digits (nearest_scaled (Num.abs_Q x) f) f.
Proof.
  intros Hfin Hlt. unfold toFixed. rewrite Hfin. simpl negb. cbv iota.
  destruct (Qle_bool ten21 (Num.abs_Q x)) eqn:E.
  - apply Qle_bool_iff in E. exfalso. apply (Qlt_not_le _ _ Hlt E).
  - reflexivity.
Qed.

(** [parseInt(x.toFixed())] is the nearest integer, ties away from zero. *)
Lemma parseInt_toFixed (x : Num.number) :
  Num.is_finite x = true -> (Num.abs_Q x < ten21)%Q ->
  parseInt (toFixed x 0)
  = signed_integer (Num.is_negative x) (nearest_scaled (Num.abs_Q x) 0).
Proof.
  intros Hfin Hlt. rewrite (toFixed_small x 0 Hfin Hlt).
  pose proof (nearest_scaled_nonneg _ 0 (NumFacts.abs_Q_nonneg x)) as Hn.
  destruct (of_Z_spec _ Hn) as (Hd & Hne & Hv).
  unfold fixed_digits. rewrite (parseInt_digits _ _ Hd Hne). now rewrite Hv.
Qed.

(** [parseFloat(x.toFixed(f))] is the Number nearest to the decimal with [f]
    fraction digits nearest to [x]. *)
Lemma parseFloat_toFixed (x : Num.number) (f : nat) :
  Num.is_finite x = true -> (Num.abs_Q x < ten21)%Q ->
  parseFloat (toFixed x f)
  = decimal_number (Num.is_negative x) (nearest_scaled (Num.abs_Q x) f) (- Z.of_nat f).
Proof.
  intros Hfin Hlt. rewrite (toFixed_small x f Hfin Hlt).
  pose proof (nearest_scaled_nonneg _ f (NumFacts.abs_Q_nonneg x)) as Hn.
  destruct f as [|f].
  - destruct (of_Z_spec _ Hn) as (Hd & Hne & Hv).
    unfold fixed_digits. rewrite (parseFloat_digits _ _ Hd Hne). now rewrite Hv.
  - destruct (fixed_digits_point _ (S f) Hn) as (a & b & E & Ha & Hne & Hb & Hl & Hv); [lia|].
    rewrite E, (parseFloat_fixed _ a b Ha Hne Hb), Hl, Hv. reflexivity.
Qed.

End JSFacts.

(** ** [lib/unit.js] *)

Module UnitFacts.

Import Num JS JSFacts Unit.
Local Open Scope string_scope.

(** The table of the program is the table of the specification. *)
Lemma recognized_entry (code : string) :
  Spec.recognized code ->
  exists digits,
    UNITS_get (VString code) = Entry (Num.of_Z (Spec.scale code)) digits.
Proof.
  unfold Spec.recognized. simpl.
  intros [<-|[<-|[<-|[<-|[]]]]]; eexists; reflexivity.
Qed.

Lemma to_Q_sign (x : number) :
  to_Q x = if is_negative x then Qopp (abs_Q x) else abs_Q x.
Proof. reflexivity. Qed.

Lemma negative_abs_Q (x : number) : is_negative x = true -> (0 < abs_Q x)%Q.
Proof.
  destruct x as [s|s| |s m e]; try discriminate.
  intros _. unfold abs_Q.
  destruct e as [|e|e]; unfold Qlt; cbn [Qnum Qden inject_Z].
  - lia.
  - assert (0 < 2 ^ Z.pos e) by (apply Z.pow_pos_nonneg; lia). nia.
  - lia.
Qed.

(** [toFixed] rounds as the specification does: the integer it prints after
    the sign is the rounding, half away from zero, of the scaled value. *)
Lemma nearest_scaled_round (x : number) (f : nat) :
  let r := Spec.round_half_away_from_zero (to_Q x * inject_Z (10 ^ Z.of_nat f)) in
  nearest_scaled (abs_Q x) f = Z.abs r
  /\ r = if is_negative x then - nearest_scaled (abs_Q x) f
         else nearest_scaled (abs_Q x) f.
Proof.
  intro r.
  pose proof (nearest_scaled_nonneg _ f (NumFacts.abs_Q_nonneg x)) as Hn.
  pose proof (NumFacts.pow10_pos f) as Hp.
  assert (Hp' : (0 < inject_Z (10 ^ Z.of_nat f))%Q)
    by (change 0%Q with (inject_Z 0); now rewrite <- Zlt_Qlt).
  assert (Hr : r = if is_negative x then - nearest_scaled (abs_Q x) f
                   else nearest_scaled (abs_Q x) f).
  { unfold r, Spec.round_half_away_from_zero. rewrite to_Q_sign.
    destruct (is_negative x) eqn:Hs.
    - pose proof (negative_abs_Q x Hs) as Hx.
      assert (Hlt : (- abs_Q x * inject_Z (10 ^ Z.of_nat f) < 0)%Q).
      { setoid_replace (- abs_Q x * inject_Z (10 ^ Z.of_nat f))%Q
          with (- (abs_Q x * inject_Z (10 ^ Z.of_nat f)))%Q by ring.
        apply Qopp_lt_compat in Hx.
        assert (0 < abs_Q x * inject_Z (10 ^ Z.of_nat f))%Q
          by (apply Qmult_lt_0_compat; [apply negative_abs_Q|]; assumption).
        apply (Qopp_lt_compat 0). assumption. }
      destruct (Qle_bool 0 (- abs_Q x * inject_Z (10 ^ Z.of_nat f))) eqn:Hb.
      + apply Qle_bool_iff in Hb. exfalso. apply (Qlt_not_le _ _ Hlt Hb).
      + unfold nearest_scaled. f_equal. apply Qfloor_comp. ring.
    - assert (Hge : (0 <= abs_Q x * inject_Z (10 ^ Z.of_nat f))%Q).
      { apply Qmult_le_0_compat; [apply NumFacts.abs_Q_nonneg | now apply Qlt_le_weak]. }
      apply Qle_bool_iff in Hge. rewrite Hge. reflexivity. }
  split; [|exact Hr].
  rewrite Hr. destruct (is_negative x); lia.
Qed.

Lemma signed_integer_round (x : number) :
  signed_integer (is_negative x) (nearest_scaled (abs_Q x) 0)
  = of_integer (is_negative x) (Spec.round_half_away_from_zero (to_Q x)).
Proof.
  destruct (nearest_scaled_round x 0) as [_ Hr].
  rewrite (SpecFacts.round_half_away_from_zero_comp (to_Q x) (to_Q x * inject_Z (10 ^ Z.of_nat 0)))
    by (change (inject_Z (10 ^ Z.of_nat 0)) with 1%Q; ring).
  rewrite Hr. unfold signed_integer, of_integer.
  destruct (is_negative x); [|reflexivity].
  destruct (Z.eqb_spec (nearest_scaled (abs_Q x) 0) 0) as [E|E].
  - rewrite E. reflexivity.
  - destruct (Z.eqb_spec (- nearest_scaled (abs_Q x) 0) 0); [lia | reflexivity].
Qed.

Lemma decimal_number_of_decimal (neg : bool) (n : Z) (f : nat) :
  0 <= n ->
  decimal_number neg n (- Z.of_nat f) = of_decimal neg (if neg then - n else n) f.
Proof.
  intro Hn.
  assert (Hden : forall k, (10 ^ Pos.of_succ_nat k)%positive
                           = Z.to_pos (10 ^ Z.of_nat (S k))).
  { intro k. change (Z.of_nat (S k)) with (Z.pos (Pos.of_succ_nat k)).
    change 10 with (Z.pos 10). now rewrite <- Pos2Z.inj_pow. }
  destruct n as [|p|p]; [| |lia].
  - destruct f, neg; reflexivity.
  - destruct f as [|k].
    + change (- Z.of_nat 0) with 0. unfold decimal_number.
      rewrite Z.pow_0_r, Z.mul_1_r. destruct neg; reflexivity.
    + change (- Z.of_nat (S k)) with (Z.neg (Pos.of_succ_nat k)).
      unfold decimal_number, of_decimal. rewrite Hden.
      destruct neg; reflexivity.
Qed.

(** [parseFloat(x.toFixed(f))] is the Number nearest to [x] rounded to [f]
    decimal places, half away from zero. *)
Lemma parseFloat_toFixed_round (x : number) (f : nat) :
  is_finite x = true -> (abs_Q x < ten21)%Q ->
  parseFloat (toFixed x f)
  = of_decimal (is_negative x)
      (Spec.round_half_away_from_zero (to_Q x * inject_Z (10 ^ Z.of_nat f))) f.
Proof.
  intros Hfin Hlt.
  rewrite (parseFloat_toFixed x f Hfin Hlt).
  destruct (nearest_scaled_round x f) as [_ Hr]. rewrite Hr.
  apply decimal_number_of_decimal.
  apply nearest_scaled_nonneg, NumFacts.abs_Q_nonneg.
Qed.

(** [_from] on a recognized code. *)
Lemma _from_round (amount : value) (code : string) :
  Spec.recognized code ->
  let rawUnits := mul (ToNumber amount) (of_Z (Spec.scale code)) in
  is_finite rawUnits = true -> (abs_Q rawUnits < ten21)%Q ->
  _from amount (VString code)
  = Normal (of_integer (is_negative rawUnits)
              (Spec.round_half_away_from_zero (to_Q rawUnits))).
Proof.
  intros Hc rawUnits Hfin Hlt.
  destruct (recognized_entry code Hc) as [digits He].
  unfold _from. rewrite He. cbn [missing scale_of ToNumber].
  fold rawUnits.
  now rewrite (parseInt_toFixed rawUnits Hfin Hlt), signed_integer_round.
Qed.

(** The accessors never throw. *)
Lemma get_recognized (key : string) (this : instance) :
  Spec.recognized key ->
  exists digits,
    UNITS_get (VString key) = Entry (of_Z (Spec.scale key)) digits
    /\ get key this
       = (Normal (parseFloat (toFixed (div (_value this) (of_Z (Spec.scale key))) digits)),
          this).
Proof.
  intro Hk. destruct (recognized_entry key Hk) as [digits He].
  exists digits. split; [exact He|].
  unfold get, to_denomination. rewrite He. reflexivity.
Qed.

Lemma get_BLK (this : instance) :
  get BLK this
  = (Normal (parseFloat (toFixed (div (_value this) (of_Z 100000000)) 8)), this).
Proof. reflexivity. Qed.

(** No method changes the instance. *)
Lemma to_denomination_pure (code : value) (this : instance) :
  snd (to_denomination code this) = this.
Proof.
  unfold to_denomination. destruct (missing (UNITS_get code)); reflexivity.
Qed.

Lemma to_pure (code : value) (this : instance) : snd (to code this) = this.
Proof.
  unfold to. destruct (isNumber code); [|apply to_denomination_pure].
  destruct (leb (ToNumber code) pos_zero); reflexivity.
Qed.

Lemma toObject_pure (this : instance) : snd (toObject this) = this.
Proof. reflexivity. Qed.

Lemma toString_pure (this : instance) : snd (toString this) = this.
Proof. reflexivity. Qed.

Lemma inspect_pure (this : instance) : snd (inspect this) = this.
Proof. reflexivity. Qed.

Lemma invoke_pure (m : member) (this : instance) : snd (invoke m this) = this.
Proof.
  assert (H : forall (c : method number),
             (forall t, snd (c t) = t) -> snd (number_answer c this) = this).
  { intros c Hc. unfold number_answer, then_.
    specialize (Hc this). destruct (c this) as [[x|e] t]; exact Hc. }
  destruct m; cbn [invoke];
    try (apply H; intro t; first [apply to_pure | apply to_denomination_pure | reflexivity]);
    reflexivity.
Qed.

(** Nor does any sequence of calls, and each call of the sequence returns
    what it returns on the instance. *)
Lemma invoke_each_pure (ms : list member) (this : instance) :
  invoke_each ms this = (map (fun m => fst (invoke m this)) ms, this).
Proof.
  induction ms as [|m ms IH]; [reflexivity|].
  cbn [invoke_each map].
  pose proof (invoke_pure m this) as Hm.
  destruct (invoke m this) as [c this']. cbn [snd fst] in *. subst this'.
  rewrite IH. reflexivity.
Qed.

(** [new] on the function [Unit] is [construct]. *)
Lemma new_Unit_construct (amount code : value) :
  new_Unit amount code = construct amount code.
Proof.
  unfold new_Unit, Unit_function, construct. cbn [instanceof_Unit negb].
  destruct (isNumber code).
  - destruct (leb (ToNumber code) pos_zero); [reflexivity|].
    cbn [bind]. destruct (_from _ _); reflexivity.
  - cbn [bind]. destruct (_from amount code); reflexivity.
Qed.

(** [new Unit(amount, code)] on a recognized code. *)
Lemma construct_round (amount : value) (code : string) :
  Spec.recognized code ->
  let rawUnits := mul (ToNumber amount) (of_Z (Spec.scale code)) in
  is_finite rawUnits = true -> (abs_Q rawUnits < ten21)%Q ->
  construct amount (VString code)
  = Normal {| _value := of_integer (is_negative rawUnits)
                          (Spec.round_half_away_from_zero (to_Q rawUnits)) |}.
Proof.
  intros Hc rawUnits Hfin Hlt.
  unfold construct. cbn [isNumber bind].
  now rewrite (_from_round amount code Hc Hfin Hlt).
Qed.



(** The table of the program holds the scales of the specification,
    exactly. *)
Lemma scale_exact (code : string) :
  Spec.recognized code ->
  is_finite (of_Z (Spec.scale code)) = true
  /\ (to_Q (of_Z (Spec.scale code)) == inject_Z (Spec.scale code))%Q.
Proof.
  unfold Spec.recognized. simpl.
  intros [<-|[<-|[<-|[<-|[]]]]]; split; reflexivity.
Qed.

End UnitFacts.

(** ** The arithmetic of the conversions *)

Module ErrorFacts.

Import Rounding RoundingFacts.
Local Open Scope Q_scope.

Lemma Qabs_cases (x : Q) : (0 <= Qabs x) /\ (Qabs x == x \/ Qabs x == - x).
Proof.
  split; [apply Qabs_nonneg|].
  destruct (Qlt_le_dec x 0) as [H|H].
  - right. apply Qabs_neg. lra.
  - left. now apply Qabs_pos.
Qed.


Lemma chain_bound_rate (T3 T4 p c r R : Q) :
  0 <= R ->
  Qabs (T4 - T3) <= (1 # 9007199254740992) * Qabs T4 + R * (1 # 1267650600228229401496703205376) ->
  Qabs (p - T4) <= (1 # 9007199254740992) * Qabs p + (1 # 1267650600228229401496703205376) ->
  Qabs (c - p) <= 1 # 200 ->
  Qabs (r - c) <= (1 # 9007199254740992) * Qabs r + (1 # 1267650600228229401496703205376) ->
  Qabs (r - T3) <= (1 # 200) + (1 # 1125899906842624) * (Qabs T3 + R + 1).
Proof.
  intros HR G4 G5 G6 G7.
  apply Qabs_Qle_condition in G4, G5, G6, G7.
  apply Qabs_Qle_condition.
  destruct (Qabs_cases T4) as [P4 C4], (Qabs_cases p) as [Pp Cp],
    (Qabs_cases r) as [Pr Cr].
  pose proof (Qle_Qabs T3) as HA1.
  assert (HA2 : - T3 <= Qabs T3) by (rewrite <- Qabs_opp; apply Qle_Qabs).
  set (a4 := Qabs T4) in *.
  set (ap := Qabs p) in *. set (ar := Qabs r) in *. set (aA := Qabs T3) in *.
  clearbody a4 ap ar aA.
  destruct C4, Cp, Cr; split; lra.
Qed.

Lemma chain_bound_units (A T1 n : Q) :
  Qabs (T1 - A) <= (1 # 9007199254740992) * Qabs T1 + (1 # 1267650600228229401496703205376) ->
  Qabs (n - T1) <= 1 # 2 ->
  Qabs (n - A) <= (1 # 2) + (1 # 4503599627370496) * (Qabs A + 1).
Proof.
  intros G1 G2.
  apply Qabs_Qle_condition in G1, G2.
  apply Qabs_Qle_condition.
  destruct (Qabs_cases T1) as [P1 C1].
  pose proof (Qle_Qabs A) as HA1.
  assert (HA2 : - A <= Qabs A) by (rewrite <- Qabs_opp; apply Qle_Qabs).
  set (a1 := Qabs T1) in *. set (aA := Qabs A) in *.
  clearbody a1 aA.
  destruct C1; split; lra.
Qed.

Local Close Scope Q_scope.

Lemma Qabs_to_Q (x : Num.number) : (Qabs (Num.to_Q x) == Num.abs_Q x)%Q.
Proof.
  pose proof (NumFacts.abs_Q_nonneg x) as H.
  unfold Num.to_Q. destruct (Num.is_negative x).
  - rewrite Qabs_opp. now apply Qabs_pos.
  - now apply Qabs_pos.
Qed.

Lemma of_integer_finite (neg : bool) (n : Z) :
  Z.abs n < 2 ^ 53 -> Num.is_finite (Num.of_integer neg n) = true.
Proof.
  intro Hn. unfold Num.of_integer.
  destruct (Z.eqb_spec n 0); [reflexivity|].
  destruct n as [|m|m]; [lia| |].
  - destruct (NumFacts.binary_round_small false m) as (m' & e & E & _); [lia|].
    unfold Num.of_Z, binary_normalize. now rewrite E.
  - destruct (NumFacts.binary_round_small true m) as (m' & e & E & _); [lia|].
    unfold Num.of_Z, binary_normalize. now rewrite E.
Qed.

Lemma scale_value : (Num.to_Q (Num.of_Z 100000000) == 100000000 # 1)%Q.
Proof. reflexivity. Qed.

Lemma eta_le : (eta <= 1 # 1267650600228229401496703205376)%Q.
Proof.
  unfold eta, Qle. cbn [Qnum Qden]. rewrite !Z.mul_1_l.
  rewrite Pos2Z.inj_pow.
  change (Z.pos 1267650600228229401496703205376) with (2 ^ 100).
  apply Z.pow_le_mono_r; lia.
Qed.

Lemma pow2_1000_big (q : Q) : (q < inject_Z (2 ^ 100))%Q -> (q < pow2 1000)%Q.
Proof.
  intro H. apply (Qlt_le_trans _ _ _ H).
  rewrite pow2_inject by lia. apply pow2_le. lia.
Qed.

Lemma eta_nonneg : (0 <= eta)%Q.
Proof. discriminate. Qed.

Ltac numerals :=
  change (inject_Z (2 ^ 100)) with (1267650600228229401496703205376 # 1)%Q in *;
  change (inject_Z (2 ^ 51)) with (2251799813685248 # 1)%Q in *;
  change (inject_Z (10 ^ Z.of_nat 8)) with (100000000 # 1)%Q in *;
  change (inject_Z (10 ^ Z.of_nat 2)) with (100 # 1)%Q in *;
  change (inject_Z 100000000) with (100000000 # 1)%Q in *;
  change (inject_Z 100) with (100 # 1)%Q in *;
  change JS.ten21 with (1000000000000000000000 # 1)%Q in *;
  change u53 with (1 # 9007199254740992)%Q in *.

(** The BLK accessor on an instance holding an integer of at most 51 bits:
    the Number nearest to that integer over [10^8]. *)
Lemma primary_of_integer (x : Num.number) (M : Z) :
  Num.is_finite x = true -> (Num.to_Q x == inject_Z M)%Q -> Z.abs M <= 2 ^ 51 ->
  let v := Num.div x (Num.of_Z 100000000) in
  let B := JS.parseFloat (JS.toFixed v 8) in
  B = Num.of_decimal (Num.is_negative v) M 8
  /\ Num.is_finite B = true
  /\ (Qabs (Num.to_Q B - inject_Z M / inject_Z 100000000)
      <= u53 * Qabs (Num.to_Q B) + eta)%Q.
Proof.
  intros Hfin Hval HM v B.
  assert (HMQ : (- inject_Z (2 ^ 51) <= inject_Z M <= inject_Z (2 ^ 51))%Q).
  { rewrite <- inject_Z_opp, <- !Zle_Qle. lia. }
  assert (Hdiv : (inject_Z M / inject_Z 100000000 == inject_Z M * (1 # 100000000))%Q)
    by reflexivity.
  assert (Hquot : (Num.to_Q x / Num.to_Q (Num.of_Z 100000000)
                   == inject_Z M * (1 # 100000000))%Q)
    by (now rewrite Hval, scale_value).
  pose proof eta_le as Heta. pose proof eta_nonneg as Heta0.
  (* the quotient is finite *)
  assert (Hfv : Num.is_finite v = true).
  { unfold v. change (Num.of_Z 100000000) with (S754_finite false 6710886400000000 (-26)).
    apply div_is_finite; [exact Hfin|].
    change (S754_finite false 6710886400000000 (-26)) with (Num.of_Z 100000000).
    rewrite Hquot. apply pow2_1000_big. apply Qabs_Qlt_condition.
    set (m := inject_Z M) in *. clearbody m. numerals. split; lra. }
  assert (Herr : (Qabs (Num.to_Q v - inject_Z M * (1 # 100000000))
                  <= u53 * Qabs (Num.to_Q v) + eta)%Q).
  { rewrite <- Hquot. apply div_error; [exact Hfin | reflexivity | exact Hfv]. }
  assert (Hbounds : (Qabs (Num.to_Q v) <= 22517999 # 1)%Q
                    /\ (Qabs (Num.to_Q v * (100000000 # 1) - inject_Z M) < 1 # 2)%Q).
  { destruct (Qabs_cases (Num.to_Q v)) as [Pv Cv].
    apply Qabs_Qle_condition in Herr.
    set (av := Qabs (Num.to_Q v)) in *. set (y := Num.to_Q v) in *.
    set (η := eta) in *. set (m := inject_Z M) in *. clearbody av y η m. numerals.
    assert (Hav : (av <= 22517999 # 1)%Q) by (destruct Cv; lra).
    split; [exact Hav|]. apply Qabs_Qlt_condition. split; lra. }
  destruct Hbounds as [Hav Hround].
  assert (Hlt : (Num.abs_Q v < JS.ten21)%Q).
  { rewrite <- Qabs_to_Q. numerals. lra. }
  assert (EB : B = Num.of_decimal (Num.is_negative v) M 8).
  { unfold B. rewrite (UnitFacts.parseFloat_toFixed_round v 8 Hfv Hlt). f_equal.
    apply SpecFacts.round_half_away_from_zero_unique. exact Hround. }
  assert (HfB : Num.is_finite B = true).
  { rewrite EB. apply of_decimal_finite. apply pow2_1000_big.
    change (inject_Z (10 ^ Z.of_nat 8)) with (inject_Z 100000000). rewrite Hdiv.
    apply Qabs_Qlt_condition. set (m := inject_Z M) in *. clearbody m.
    numerals. split; lra. }
  split; [exact EB|]. split; [exact HfB|].
  rewrite EB in *. apply (of_decimal_error _ M 8 HfB).
Qed.

Lemma Qmult_le_nonneg_l (k x y : Q) : (0 <= k)%Q -> (x <= y)%Q -> (k * x <= k * y)%Q.
Proof.
  intros Hk H. rewrite (Qmult_comm k x), (Qmult_comm k y).
  now apply Qmult_le_compat_r.
Qed.

(** Scaling an error bound. *)
Lemma scale_error (k x y : Q) :
  (0 <= k)%Q ->
  (Qabs (x - y) <= u53 * Qabs x + eta)%Q ->
  (Qabs (k * x - k * y)
   <= (1 # 9007199254740992) * Qabs (k * x)
      + k * (1 # 1267650600228229401496703205376))%Q.
Proof.
  intros Hk H.
  setoid_replace (k * x - k * y)%Q with (k * (x - y))%Q by ring.
  rewrite !Qabs_Qmult, (Qabs_pos k Hk).
  apply (Qle_trans _ (k * (u53 * Qabs x + eta))).
  - apply Qmult_le_nonneg_l; assumption.
  - setoid_replace (k * (u53 * Qabs x + eta))%Q
      with ((1 # 9007199254740992) * (k * Qabs x) + k * eta)%Q
      by (change u53 with (1 # 9007199254740992)%Q; ring).
    apply Qplus_le_compat; [apply Qle_refl|].
    apply Qmult_le_nonneg_l; [exact Hk | apply eta_le].
Qed.


Lemma weaken_eta (x y : Q) :
  (Qabs (x - y) <= u53 * Qabs x + eta)%Q ->
  (Qabs (x - y)
   <= (1 # 9007199254740992) * Qabs x + (1 # 1267650600228229401496703205376))%Q.
Proof.
  intro H. apply (Qle_trans _ _ _ H).
  apply Qplus_le_compat; [change u53 with (1 # 9007199254740992)%Q; apply Qle_refl | apply eta_le].
Qed.

(** The conversion at a rate, once the BLK value is known. *)
Lemma rate_conversion (B R : Num.number) :
  let p := Num.mul B R in
  Num.is_finite p = true -> (Num.abs_Q p < JS.ten21)%Q ->
  let n := Spec.round_half_away_from_zero (Num.to_Q p * inject_Z (10 ^ Z.of_nat 2)) in
  let r := Num.of_decimal (Num.is_negative p) n 2 in
  JS.parseFloat (JS.toFixed p 2) = r
  /\ Num.is_finite r = true
  /\ (Qabs (Num.to_Q p - Num.to_Q B * Num.to_Q R) <= u53 * Qabs (Num.to_Q p) + eta)%Q
  /\ (Qabs (inject_Z n / inject_Z 100 - Num.to_Q p) <= 1 # 200)%Q
  /\ (Qabs (Num.to_Q r - inject_Z n / inject_Z 100) <= u53 * Qabs (Num.to_Q r) + eta)%Q.
Proof.
  intros p Hfin Hlt n r.
  assert (Hc : (Qabs (inject_Z n / inject_Z 100 - Num.to_Q p) <= 1 # 200)%Q)
    by apply (SpecFacts.round_places_2_error (Num.to_Q p)).
  assert (Hfr : Num.is_finite r = true).
  { apply of_decimal_finite. apply pow2_1000_big.
    change (inject_Z (10 ^ Z.of_nat 2)) with (inject_Z 100).
    rewrite <- Qabs_to_Q in Hlt.
    apply Qabs_Qle_condition in Hc. apply Qabs_Qlt_condition in Hlt.
    apply Qabs_Qlt_condition.
    set (c := (inject_Z n / inject_Z 100)%Q) in *. set (y := Num.to_Q p) in *.
    clearbody c y. numerals. split; lra. }
  split; [apply (UnitFacts.parseFloat_toFixed_round p 2 Hfin Hlt)|].
  split; [exact Hfr|]. split; [|split; [exact Hc|]].
  - apply mul_error; [apply (mul_finite_l _ _ Hfin) | apply (mul_finite_r _ _ Hfin) | exact Hfin].
  - apply (of_decimal_error _ n 2 Hfr).
Qed.

(** The atomic units stored for an amount: within one half of the real
    product, up to the rounding of the multiplication. *)
Lemma units_error (amount : Num.number) (scale : Num.number) (s : Z) :
  (Num.to_Q scale == inject_Z s)%Q -> Num.is_finite scale = true ->
  let rawUnits := Num.mul amount scale in
  Num.is_finite rawUnits = true ->
  (Qabs (inject_Z (Spec.round_half_away_from_zero (Num.to_Q rawUnits))
         - Num.to_Q amount * inject_Z s)
   <= (1 # 2) + (1 # 2 ^ 52) * (Qabs (Num.to_Q amount * inject_Z s) + 1))%Q.
Proof.
  intros Hs Hfs rawUnits Hfin.
  pose proof (mul_error amount scale (mul_finite_l _ _ Hfin) Hfs Hfin) as F.
  fold rawUnits in F. rewrite Hs in F. apply weaken_eta in F.
  pose proof (SpecFacts.round_half_away_from_zero_error (Num.to_Q rawUnits)) as G.
  change (1 # 2 ^ 52)%Q with (1 # 4503599627370496)%Q.
  apply (chain_bound_units _ _ _ F G).
Qed.


End ErrorFacts.

(** ** Exact results

    A value that is an integer of at most 53 bits is its own rounding. *)

Module ExactFacts.

Import Rounding RoundingFacts.

(** An integer is on the mantissa of the record that locates it. *)
Lemma located_integer (z : Z) (rec : shr_record) :
  located (inject_Z z) rec -> loc_of_shr_record rec = loc_Exact /\ shr_m rec = z.
Proof.
  destruct rec as [m r s]. unfold located. cbn [shr_m shr_r shr_s loc_of_shr_record].
  destruct r, s; intro H; unfold Qlt, Qeq, Qplus, inject_Z in H; cbn [Qnum Qden] in H.
  - lia.
  - lia.
  - lia.
  - split; [reflexivity | lia].
Qed.

(** Rounding a value that is an integer of at most 53 bits returns it. *)
Lemma round_exact (s : bool) (mx ex : Z) (lx : location) (X : Q) (P : Z) :
  0 <= mx -> located X (shr_record_of_loc mx lx) ->
  ex <= fexp64 (Zdigits2 mx + ex) ->
  (X * pow2 ex == inject_Z P)%Q -> 0 < P < 2 ^ 53 ->
  exists m e,
    binary_round_aux Num.prec Num.emax s mx ex lx = S754_finite s m e
    /\ (inject_Z (Z.pos m) * pow2 e == inject_Z P)%Q.
Proof.
  intros Hm HX Hbits HP [HP0 HP53].
  destruct (shr_fexp_spec mx ex lx X Hm HX) as (rec' & e' & E1 & He' & Hm' & Hdiv & Hloc & _).
  set (d := Zdigits2 mx) in *.
  pose proof (Zdigits2_nonneg mx) as Hd0. fold d in Hd0.
  rewrite Z.max_r in He' by exact Hbits.
  (* the value has at most 53 bits above the exponent *)
  assert (Hd : d + ex <= 53).
  { destruct (Z.eq_dec mx 0) as [E0|Hne].
    - unfold d in *. rewrite E0 in *. cbn [Zdigits2] in *. rewrite fexp64_spec in Hbits. lia.
    - destruct (Zdigits2_bounds mx) as [Hlo _]; [lia|]. fold d in Hlo.
      pose proof (located_bounds _ _ HX) as [Hlow _]. rewrite shr_m_of_loc in Hlow.
      assert (Hd1 : 1 <= d) by (unfold d; destruct mx; simpl in *; lia).
      assert (Hpq : (pow2 (d - 1) <= inject_Z mx)%Q).
      { rewrite <- pow2_inject by lia. rewrite <- Zle_Qle. exact Hlo. }
      assert (Hlt : (pow2 (d - 1 + ex) < pow2 53)%Q).
      { rewrite pow2_add. apply (Qle_lt_trans _ (X * pow2 ex)).
        - apply Qmult_le_compat_r; [lra | apply Qlt_le_weak, pow2_pos].
        - rewrite HP, <- (pow2_inject 53) by lia. rewrite <- Zlt_Qlt. exact HP53. }
      apply pow2_lt_inv in Hlt. lia. }
  assert (Hemin : -1074 <= e') by (rewrite He', fexp64_spec; lia).
  assert (He0 : e' <= 0) by (rewrite He', fexp64_spec; lia).
  (* the shifted value is an integer *)
  assert (HX' : (X * pow2 (ex - e') == inject_Z (P * 2 ^ (- e')))%Q).
  { replace (ex - e') with (ex + - e') by lia.
    rewrite pow2_add, Qmult_assoc, HP, inject_Z_mult, (pow2_inject (- e')) by lia.
    reflexivity. }
  destruct (located_integer _ _ (located_comp _ _ _ HX' Hloc)) as [Hexact Hrec].
  destruct (round_located _ rec' Hloc) as (_ & _ & Hround).
  destruct (Hround Hexact) as [HM2 _]. rewrite Hrec in HM2.
  assert (Hlt : shr_m rec' < 2 ^ Z.max (d + ex - e') 0).
  { rewrite Hdiv.
    assert (Hpe : 0 <= e' - ex) by lia.
    assert (Hp2 : 0 < 2 ^ (e' - ex)) by (apply Z.pow_pos_nonneg; lia).
    assert (0 < 2 ^ Z.max (d + ex - e') 0) by (apply Z.pow_pos_nonneg; lia).
    destruct (Z.eq_dec mx 0) as [->|Hne]; [rewrite Z.div_0_l; lia|].
    destruct (Zdigits2_bounds mx) as [_ Hhi]; [lia|]. fold d in Hhi.
    destruct (Z_le_gt_dec 0 (d + ex - e')) as [Hk|Hk].
    - rewrite Z.max_l by lia.
      apply Z.div_lt_upper_bound; [lia|].
      rewrite <- Z.pow_add_r by lia.
      replace (e' - ex + (d + ex - e')) with d by lia. exact Hhi.
    - rewrite Z.div_small; [lia|]. split; [lia|].
      assert (2 ^ d <= 2 ^ (e' - ex)) by (apply Z.pow_le_mono_r; lia). lia. }
  assert (Hpow : 0 < 2 ^ (- e')) by (apply Z.pow_pos_nonneg; lia).
  destruct (renormalize (P * 2 ^ (- e')) e' (d + ex - e')) as (rec'' & e'' & E2 & Hm'' & Hval);
    [exact Hemin | replace (d + ex - e' + e') with (d + ex) by lia; lia
    | rewrite <- Hrec; lia |].
  assert (Hv : (inject_Z (shr_m rec'') * pow2 e'' == inject_Z P)%Q).
  { assert (Hback : (inject_Z (P * 2 ^ (- e')) * pow2 e' == inject_Z P)%Q).
    { rewrite inject_Z_mult, (pow2_inject (- e')) by lia.
      rewrite <- Qmult_assoc, pow2_opp. ring. }
    rewrite <- Hback.
    destruct Hval as [[-> ->]|[-> ->]]; [reflexivity|].
    rewrite inject_Z_mult, pow2_add. change (pow2 1) with 2%Q.
    change (inject_Z 2) with 2%Q. ring. }
  assert (Hpos : 0 < shr_m rec'').
  { destruct (Z.eq_dec (shr_m rec'') 0) as [E0|]; [|lia].
    rewrite E0 in Hv. change (inject_Z 0) with 0%Q in Hv. rewrite Qmult_0_l in Hv.
    assert (inject_Z 0 < inject_Z P)%Q by (rewrite <- Zlt_Qlt; lia).
    change (inject_Z 0) with 0%Q in *. lra. }
  destruct (shr_m rec'') as [|m|m] eqn:Em; try lia.
  exists m, e''. split; [|exact Hv].
  unfold binary_round_aux. rewrite E1.
  fold (rounded rec'). rewrite HM2, E2, Em.
  replace (e'' <=? Num.emax - Num.prec) with true; [reflexivity|].
  symmetry. apply Z.leb_le. unfold Num.emax, Num.prec. destruct Hval as [[-> _]|[-> _]]; lia.
Qed.

(** A quotient of integers that is an integer of at most 53 bits is
    computed exactly. *)
Lemma of_ratio_exact (neg : bool) (P D : positive) :
  Z.pos P < 2 ^ 53 ->
  exists m e,
    Num.of_ratio neg (Z.pos (P * D)) D = S754_finite neg m e
    /\ (Num.abs_Q (S754_finite neg m e) == inject_Z (Z.pos P))%Q.
Proof.
  intro HP. unfold Num.of_ratio, SFdiv.
  destruct (div_core_spec (P * D) D 0 0) as (q & e0 & l & X & Ecore & Hq & Hloc & HX & Hbits).
  rewrite Ecore.
  assert (HXP : (X * pow2 e0 == inject_Z (Z.pos P))%Q).
  { rewrite HX, pow2_0, !Qmult_1_r, Pos2Z.inj_mul, inject_Z_mult.
    field. intro H. unfold Qeq in H. simpl in H. lia. }
  destruct (round_exact (xorb neg false) q e0 l X (Z.pos P) Hq Hloc Hbits HXP)
    as (m & e & E & Hv); [lia|].
  exists m, e. rewrite E, xorb_false_r. split; [reflexivity|].
  rewrite abs_Q_finite. exact Hv.
Qed.

End ExactFacts.

(** ** Conversions of integer magnitudes *)

Module ConversionFacts.

Import Rounding RoundingFacts ErrorFacts ExactFacts.

Lemma table_digits_cases (d : nat) :
  Unit.table_digits d -> (d = 0 \/ d = 2 \/ d = 5 \/ d = 8)%nat.
Proof.
  unfold Unit.table_digits. simpl. intros [<-|[<-|[<-|[<-|[]]]]]; auto.
Qed.

(** The scales of the table are Numbers of full precision. *)
Lemma scale_canonical (d : nat) :
  Unit.table_digits d ->
  exists m e,
    Num.of_Z (10 ^ Z.of_nat d) = S754_finite false m e
    /\ Z.pos (digits2_pos m) = 53
    /\ (Num.to_Q (Num.of_Z (10 ^ Z.of_nat d)) == inject_Z (10 ^ Z.of_nat d))%Q.
Proof.
  intro Hd. destruct (table_digits_cases d Hd) as [->|[->|[->| ->]]]; do 2 eexists; (split; [vm_compute; reflexivity|]);
    split; reflexivity.
Qed.

(** A product with a Number of full precision that stays below [2^1000] is
    finite. *)
Lemma mul_is_finite (x : Num.number) (sy : bool) (my : positive) (ey : Z) :
  Num.is_finite x = true -> Z.pos (digits2_pos my) = 53 ->
  (Qabs (Num.to_Q x * Num.to_Q (S754_finite sy my ey)) < pow2 1000)%Q ->
  Num.is_finite (Num.mul x (S754_finite sy my ey)) = true.
Proof.
  intros Hx Hd Hsmall.
  destruct x as [sx|sx| |sx mx ex]; try discriminate; [reflexivity|].
  unfold Num.mul, SFmul.
  pose proof (NumFacts.digits2_pos_bounds my) as [Hmy _]. rewrite Hd in Hmy.
  assert (H53 : 53 <= Zdigits2 (Z.pos (mx * my))).
  { apply Zdigits2_ge; [lia|]. rewrite Pos2Z.inj_mul.
    change (53 - 1) with 52. nia. }
  assert (Hbits : ex + ey <= fexp64 (Zdigits2 (Z.pos (mx * my)) + (ex + ey))).
  { rewrite fexp64_spec. lia. }
  destruct (binary_round_aux_spec (xorb sx sy) (Z.pos (mx * my)) (ex + ey) loc_Exact
              (inject_Z (Z.pos (mx * my)))) as (M & e & E & HM & _ & Hexp);
    [lia | reflexivity | now left |].
  rewrite E. specialize (Hexp Hbits).
  rewrite !to_Q_finite, <- signed_mult in Hsmall.
  assert (Hprod : (inject_Z (Z.pos mx) * pow2 ex * (inject_Z (Z.pos my) * pow2 ey)
                   == inject_Z (Z.pos (mx * my)) * pow2 (ex + ey))%Q).
  { rewrite Pos2Z.inj_mul, inject_Z_mult, pow2_add. ring. }
  rewrite Hprod, Qabs_signed in Hsmall.
  - destruct (Zdigits2_bounds (Z.pos (mx * my))) as [Hlo _]; [lia|].
    assert (Hpq : (pow2 (Zdigits2 (Z.pos (mx * my)) - 1) <= inject_Z (Z.pos (mx * my)))%Q).
    { rewrite <- pow2_inject by lia. rewrite <- Zle_Qle. exact Hlo. }
    assert (Hlt : (pow2 (Zdigits2 (Z.pos (mx * my)) - 1 + (ex + ey)) < pow2 1000)%Q).
    { rewrite pow2_add. apply (Qle_lt_trans _ (inject_Z (Z.pos (mx * my)) * pow2 (ex + ey))).
      - apply Qmult_le_compat_r; [exact Hpq | apply Qlt_le_weak, pow2_pos].
      - exact Hsmall. }
    apply pow2_lt_inv in Hlt.
    rewrite fexp64_spec in Hexp.
    unfold build. destruct M as [|m|m]; [reflexivity | | lia].
    destruct (Z.leb_spec e 971); [reflexivity | lia].
  - apply Qmult_le_0_compat; [discriminate | apply Qlt_le_weak, pow2_pos].
Qed.

Ltac scales :=
  change (inject_Z (2 ^ 100)) with (1267650600228229401496703205376 # 1)%Q in *;
  change (inject_Z (2 ^ 51)) with (2251799813685248 # 1)%Q in *;
  change (inject_Z (10 ^ Z.of_nat 8)) with (100000000 # 1)%Q in *;
  change (inject_Z (10 ^ Z.of_nat 5)) with (100000 # 1)%Q in *;
  change (inject_Z (10 ^ Z.of_nat 2)) with (100 # 1)%Q in *;
  change (inject_Z (10 ^ Z.of_nat 0)) with (1 # 1)%Q in *;
  change JS.ten21 with (1000000000000000000000 # 1)%Q in *;
  change u53 with (1 # 9007199254740992)%Q in *.

(** What an accessor returns on an instance holding an integer of at most
    51 bits: the Number that the decimal [M / 10^d] denotes. *)
Lemma accessor_of_integer (x : Num.number) (M : Z) (d : nat) :
  Unit.table_digits d ->
  Num.is_finite x = true -> (Num.to_Q x == inject_Z M)%Q -> Z.abs M <= 2 ^ 51 ->
  let v := Num.div x (Num.of_Z (10 ^ Z.of_nat d)) in
  let B := JS.parseFloat (JS.toFixed v d) in
  B = Num.of_decimal (Num.is_negative v) M d
  /\ Num.is_finite B = true
  /\ (Qabs (Num.to_Q B - inject_Z M / inject_Z (10 ^ Z.of_nat d))
      <= u53 * Qabs (Num.to_Q B) + eta)%Q.
Proof.
  intros Hd Hfin Hval HM v B.
  assert (HMQ : (- inject_Z (2 ^ 51) <= inject_Z M <= inject_Z (2 ^ 51))%Q).
  { rewrite <- inject_Z_opp, <- !Zle_Qle. lia. }
  destruct (scale_canonical d Hd) as (ms & es & Es & Hds & Hs).
  pose proof eta_le as Heta. pose proof eta_nonneg as Heta0.
  assert (Hgoal :
    Num.is_finite v = true
    /\ (Num.abs_Q v < JS.ten21)%Q
    /\ (Qabs (Num.to_Q v * inject_Z (10 ^ Z.of_nat d) - inject_Z M) < 1 # 2)%Q
    /\ (Qabs (inject_Z M / inject_Z (10 ^ Z.of_nat d)) < pow2 1000)%Q).
  { assert (Hfv : Num.is_finite v = true).
    { unfold v. rewrite Es. apply div_is_finite; [exact Hfin|].
      rewrite <- Es, Hval, Hs. apply pow2_1000_big. apply Qabs_Qlt_condition.
      set (m := inject_Z M) in *. clearbody m.
      destruct (table_digits_cases _ Hd) as [->|[->|[->| ->]]]; unfold Qdiv; scales;
        [change (/ (1 # 1))%Q with (1 # 1)%Q
        |change (/ (100 # 1))%Q with (1 # 100)%Q
        |change (/ (100000 # 1))%Q with (1 # 100000)%Q
        |change (/ (100000000 # 1))%Q with (1 # 100000000)%Q]; split; lra. }
    assert (Herr : (Qabs (Num.to_Q v - inject_Z M / inject_Z (10 ^ Z.of_nat d))
                    <= u53 * Qabs (Num.to_Q v) + eta)%Q).
    { rewrite <- Hs, <- Hval. apply div_error; [exact Hfin | now rewrite Es | exact Hfv]. }
    split; [exact Hfv|].
    rewrite <- Qabs_to_Q.
    destruct (Qabs_cases (Num.to_Q v)) as [Pv Cv].
    apply Qabs_Qle_condition in Herr.
    set (av := Qabs (Num.to_Q v)) in *. set (y := Num.to_Q v) in *.
    set (η := eta) in *. set (m := inject_Z M) in *. clearbody av y η m.
    destruct (table_digits_cases _ Hd) as [->|[->|[->| ->]]]; unfold Qdiv in *; scales;
      [change (/ (1 # 1))%Q with (1 # 1)%Q in *
      |change (/ (100 # 1))%Q with (1 # 100)%Q in *
      |change (/ (100000 # 1))%Q with (1 # 100000)%Q in *
      |change (/ (100000000 # 1))%Q with (1 # 100000000)%Q in *].
    all: split; [destruct Cv; lra|]; split;
      [apply Qabs_Qlt_condition; split; destruct Cv; lra|];
      apply pow2_1000_big; apply Qabs_Qlt_condition; scales; split; lra. }
  destruct Hgoal as (Hfv & Hlt & Hround & Hsmall).
  assert (EB : B = Num.of_decimal (Num.is_negative v) M d).
  { unfold B. rewrite (UnitFacts.parseFloat_toFixed_round v d Hfv Hlt). f_equal.
    apply SpecFacts.round_half_away_from_zero_unique. exact Hround. }
  assert (HfB : Num.is_finite B = true).
  { rewrite EB. apply of_decimal_finite. exact Hsmall. }
  split; [exact EB|]. split; [exact HfB|].
  rewrite EB in *. apply (of_decimal_error _ M d HfB).
Qed.

(** Scaling a Number that is within a rounding error of the decimal
    [M / 10^d] gives back [M] once rounded. *)
Lemma units_of_decimal (a : Num.number) (M : Z) (d : nat) :
  Unit.table_digits d -> Num.is_finite a = true -> Z.abs M <= 2 ^ 50 ->
  (Qabs (Num.to_Q a - inject_Z M / inject_Z (10 ^ Z.of_nat d))
   <= u53 * Qabs (Num.to_Q a) + eta)%Q ->
  let rawUnits := Num.mul a (Num.of_Z (10 ^ Z.of_nat d)) in
  Num.is_finite rawUnits = true
  /\ (Num.abs_Q rawUnits < JS.ten21)%Q
  /\ Spec.round_half_away_from_zero (Num.to_Q rawUnits) = M.
Proof.
  intros Hd Hfin HM Ha rawUnits.
  assert (HMQ : (- inject_Z (2 ^ 50) <= inject_Z M <= inject_Z (2 ^ 50))%Q).
  { rewrite <- inject_Z_opp, <- !Zle_Qle. lia. }
  change (inject_Z (2 ^ 50)) with (1125899906842624 # 1)%Q in HMQ.
  destruct (scale_canonical d Hd) as (ms & es & Es & Hds & Hs).
  pose proof eta_le as Heta. pose proof eta_nonneg as Heta0.
  destruct (Qabs_cases (Num.to_Q a)) as [Pa Ca].
  apply Qabs_Qle_condition in Ha.
  assert (Hfr : Num.is_finite rawUnits = true).
  { unfold rawUnits. rewrite Es. apply mul_is_finite; [exact Hfin | exact Hds |].
    rewrite <- Es, Hs. apply pow2_1000_big. apply Qabs_Qlt_condition.
    set (aa := Qabs (Num.to_Q a)) in *. set (y := Num.to_Q a) in *.
    set (η := eta) in *. set (m := inject_Z M) in *. clearbody aa y η m.
    destruct (table_digits_cases _ Hd) as [->|[->|[->| ->]]]; unfold Qdiv in *; scales;
      [change (/ (1 # 1))%Q with (1 # 1)%Q in *
      |change (/ (100 # 1))%Q with (1 # 100)%Q in *
      |change (/ (100000 # 1))%Q with (1 # 100000)%Q in *
      |change (/ (100000000 # 1))%Q with (1 # 100000000)%Q in *];
      split; destruct Ca; lra. }
  split; [exact Hfr|].
  assert (Hs' : Num.is_finite (Num.of_Z (10 ^ Z.of_nat d)) = true) by now rewrite Es.
  pose proof (mul_error a _ Hfin Hs' Hfr) as Hmul. fold rawUnits in Hmul.
  rewrite Hs in Hmul.
  destruct (Qabs_cases (Num.to_Q rawUnits)) as [Pr Cr].
  apply Qabs_Qle_condition in Hmul.
  rewrite <- Qabs_to_Q.
  assert (Hboth : (Qabs (Num.to_Q rawUnits) < JS.ten21)%Q
                  /\ (Qabs (Num.to_Q rawUnits - inject_Z M) < 1 # 2)%Q).
  { set (ar := Qabs (Num.to_Q rawUnits)) in *. set (r := Num.to_Q rawUnits) in *.
    set (aa := Qabs (Num.to_Q a)) in *. set (y := Num.to_Q a) in *.
    set (η := eta) in *. set (m := inject_Z M) in *. clearbody ar r aa y η m.
    destruct (table_digits_cases _ Hd) as [->|[->|[->| ->]]]; unfold Qdiv in *; scales;
      [change (/ (1 # 1))%Q with (1 # 1)%Q in *
      |change (/ (100 # 1))%Q with (1 # 100)%Q in *
      |change (/ (100000 # 1))%Q with (1 # 100000)%Q in *
      |change (/ (100000000 # 1))%Q with (1 # 100000000)%Q in *];
      (split; [|apply Qabs_Qlt_condition; split]); destruct Ca, Cr; lra. }
  destruct Hboth as [H1 H2]. split; [exact H1|].
  apply SpecFacts.round_half_away_from_zero_unique. exact H2.
Qed.

(** The entries of [UNITS]. *)
Lemma entry_cases (code : string) (scale : Num.number) (digits : nat) :
  In (code, (scale, digits)) Unit.UNITS ->
  Unit.table_digits digits
  /\ scale = Num.of_Z (10 ^ Z.of_nat digits)
  /\ Unit.UNITS_get (VString code) = Unit.Entry scale digits
  /\ Spec.recognized code
  /\ Spec.scale code = 10 ^ Z.of_nat digits.
Proof.
  unfold Unit.UNITS, Unit.table_digits, Spec.recognized. simpl.
  intros [E|[E|[E|[E|[]]]]]; injection E as <- <- <-; repeat split; auto 6.
Qed.

Lemma of_Z_finite (M : Z) : Z.abs M <= 2 ^ 51 -> Num.is_finite (Num.of_Z M) = true.
Proof.
  intro HM. destruct (Z.eq_dec M 0) as [->|Hne]; [reflexivity|].
  pose proof (of_integer_finite false M) as H. unfold Num.of_integer in H.
  destruct (Z.eqb_spec M 0); [contradiction|]. apply H. lia.
Qed.

Lemma of_decimal_nonzero (neg : bool) (M : Z) (d : nat) :
  M <> 0 -> Num.of_decimal neg M d = Num.of_decimal false M d.
Proof. destruct M; [contradiction | reflexivity | reflexivity]. Qed.

(** [to(code)] on an instance holding the integer [M]. *)
Lemma to_integer (code : string) (scale : Num.number) (digits : nat) (M : Z) :
  In (code, (scale, digits)) Unit.UNITS -> Z.abs M <= 2 ^ 51 ->
  let this := {| Unit._value := Num.of_Z M |} in
  let result := Num.of_decimal false M digits in
  Unit.to (VString code) this = (Normal result, this)
  /\ Num.is_finite result = true
  /\ (Qabs (Num.to_Q result - inject_Z M / inject_Z (10 ^ Z.of_nat digits))
      <= u53 * Qabs (Num.to_Q result) + eta)%Q.
Proof.
  intros Hin HM this result.
  destruct (entry_cases code scale digits Hin) as (Hd & -> & Hget & _ & _).
  assert (HQ : (Num.to_Q (Num.of_Z M) == inject_Z M)%Q)
    by (apply NumFacts.of_Z_exact; lia).
  destruct (accessor_of_integer (Num.of_Z M) M digits Hd (of_Z_finite M HM) HQ HM)
    as (EB & HfB & Herr).
  assert (Es : Num.of_decimal
                 (Num.is_negative (Num.div (Num.of_Z M) (Num.of_Z (10 ^ Z.of_nat digits))))
                 M digits = result).
  { destruct (Z.eq_dec M 0) as [->|Hne]; [|now apply of_decimal_nonzero].
    destruct (table_digits_cases _ Hd) as [->|[->|[->| ->]]]; reflexivity. }
  rewrite Es in EB. rewrite EB in HfB, Herr.
  split; [|split; [exact HfB | exact Herr]].
  unfold Unit.to, Unit.to_denomination. cbn [isNumber]. rewrite Hget.
  cbn [Unit.missing Unit.scale_of Unit.digits_of ToNumber].
  unfold Unit.then_, Unit.read_value, Unit.ret. cbn [Unit._value this].
  unfold this at 1. cbn [Unit._value]. rewrite EB. reflexivity.
Qed.

(** Construction from the Number that the decimal [M / 10^digits]
    denotes. *)
Lemma construct_decimal (code : string) (scale : Num.number) (digits : nat) (M : Z) :
  In (code, (scale, digits)) Unit.UNITS -> Z.abs M <= 2 ^ 50 ->
  Unit.construct (VNumber (Num.of_decimal false M digits)) (VString code)
  = Normal {| Unit._value := Num.of_Z M |}.
Proof.
  intros Hin HM.
  destruct (entry_cases code scale digits Hin) as (Hd & -> & Hget & Hrec & Hscale).
  assert (Hsmall : (Qabs (inject_Z M / inject_Z (10 ^ Z.of_nat digits)) < pow2 1000)%Q).
  { apply pow2_1000_big. apply Qabs_Qlt_condition.
    assert (HMQ : (- inject_Z (2 ^ 50) <= inject_Z M <= inject_Z (2 ^ 50))%Q).
    { rewrite <- inject_Z_opp, <- !Zle_Qle. lia. }
    change (inject_Z (2 ^ 50)) with (1125899906842624 # 1)%Q in HMQ.
    set (m := inject_Z M) in *. clearbody m.
    destruct (table_digits_cases _ Hd) as [->|[->|[->| ->]]]; unfold Qdiv; scales;
      [change (/ (1 # 1))%Q with (1 # 1)%Q
      |change (/ (100 # 1))%Q with (1 # 100)%Q
      |change (/ (100000 # 1))%Q with (1 # 100000)%Q
      |change (/ (100000000 # 1))%Q with (1 # 100000000)%Q]; split; lra. }
  pose proof (of_decimal_finite false M digits Hsmall) as Hfa.
  pose proof (of_decimal_error false M digits Hfa) as Herr.
  destruct (units_of_decimal _ M digits Hd Hfa HM Herr) as (Hfr & Hlt & Hround).
  pose proof (UnitFacts.construct_round (VNumber (Num.of_decimal false M digits)) code Hrec)
    as Hc.
  cbn [ToNumber] in Hc. rewrite Hscale in Hc.
  rewrite (Hc Hfr Hlt), Hround. do 2 f_equal.
  unfold Num.of_integer. destruct (Z.eqb_spec M 0) as [->|Hne]; [|reflexivity].
  destruct (table_digits_cases _ Hd) as [->|[->|[->| ->]]]; reflexivity.
Qed.

(** The decimal [k * 10^d / 10^d] denotes the integer [k]. *)
Lemma of_decimal_exact (k : Z) (d : nat) :
  Z.abs k < 2 ^ 53 ->
  (Num.to_Q (Num.of_decimal false (k * 10 ^ Z.of_nat d) d) == inject_Z k)%Q.
Proof.
  intro Hk.
  pose proof (NumFacts.pow10_pos d) as Hp.
  assert (ED : 10 ^ Z.of_nat d = Z.pos (Z.to_pos (10 ^ Z.of_nat d)))
    by (rewrite Z2Pos.id; lia).
  set (D := Z.to_pos (10 ^ Z.of_nat d)) in *.
  destruct k as [|p|p].
  - reflexivity.
  - destruct (of_ratio_exact false p D) as (m & e & E & Hv); [lia|].
    replace (Z.pos p * 10 ^ Z.of_nat d) with (Z.pos (p * D)) by lia.
    unfold Num.of_decimal. fold D. rewrite E.
    unfold Num.to_Q. cbn [Num.is_negative]. exact Hv.
  - destruct (of_ratio_exact true p D) as (m & e & E & Hv); [lia|].
    replace (Z.neg p * 10 ^ Z.of_nat d) with (Z.neg (p * D)) by lia.
    unfold Num.of_decimal. fold D. rewrite E.
    unfold Num.to_Q. cbn [Num.is_negative]. rewrite Hv.
    change (Z.neg p) with (- Z.pos p). now rewrite inject_Z_opp.
Qed.

(** Construction from a whole number of units of a denomination. *)
Lemma construct_whole (code : string) (scale : Num.number) (digits : nat) (k : Z) :
  In (code, (scale, digits)) Unit.UNITS -> Z.abs (k * 10 ^ Z.of_nat digits) <= 2 ^ 51 ->
  Unit.construct (VNumber (Num.of_Z k)) (VString code)
  = Normal {| Unit._value := Num.of_Z (k * 10 ^ Z.of_nat digits) |}.
Proof.
  intros Hin HM.
  destruct (entry_cases code scale digits Hin) as (Hd & -> & Hget & Hrec & Hscale).
  destruct (scale_canonical digits Hd) as (ms & es & Es & Hds & Hs).
  pose proof (NumFacts.pow10_pos digits) as Hp.
  assert (Hk : Z.abs k <= 2 ^ 51) by nia.
  assert (HkQ : (Num.to_Q (Num.of_Z k) == inject_Z k)%Q)
    by (apply NumFacts.of_Z_exact; lia).
  pose proof (of_Z_finite k Hk) as Hfk.
  assert (HMQ : (- inject_Z (2 ^ 51) <= inject_Z k * inject_Z (10 ^ Z.of_nat digits)
                 <= inject_Z (2 ^ 51))%Q).
  { rewrite <- inject_Z_mult, <- inject_Z_opp, <- !Zle_Qle. lia. }
  pose proof eta_le as Heta. pose proof eta_nonneg as Heta0.
  set (rawUnits := Num.mul (Num.of_Z k) (Num.of_Z (10 ^ Z.of_nat digits))).
  assert (Hfr : Num.is_finite rawUnits = true).
  { unfold rawUnits. rewrite Es. apply mul_is_finite; [exact Hfk | exact Hds |].
    rewrite <- Es, Hs, HkQ. apply pow2_1000_big. apply Qabs_Qlt_condition.
    set (m := (inject_Z k * inject_Z (10 ^ Z.of_nat digits))%Q) in *. clearbody m.
    scales. split; lra. }
  assert (Hs' : Num.is_finite (Num.of_Z (10 ^ Z.of_nat digits)) = true) by now rewrite Es.
  pose proof (mul_error _ _ Hfk Hs' Hfr) as Hmul. fold rawUnits in Hmul.
  rewrite Hs, HkQ in Hmul.
  destruct (Qabs_cases (Num.to_Q rawUnits)) as [Pr Cr].
  apply Qabs_Qle_condition in Hmul.
  assert (Hboth : (Qabs (Num.to_Q rawUnits) < JS.ten21)%Q
                  /\ (Qabs (Num.to_Q rawUnits - inject_Z (k * 10 ^ Z.of_nat digits)) < 1 # 2)%Q).
  { rewrite inject_Z_mult.
    set (m := (inject_Z k * inject_Z (10 ^ Z.of_nat digits))%Q) in *.
    set (ar := Qabs (Num.to_Q rawUnits)) in *. set (r := Num.to_Q rawUnits) in *.
    set (η := eta) in *. clearbody ar r η m. scales.
    split; [|apply Qabs_Qlt_condition; split]; destruct Cr; lra. }
  destruct Hboth as [H1 H2]. rewrite Qabs_to_Q in H1.
  apply SpecFacts.round_half_away_from_zero_unique in H2.
  pose proof (UnitFacts.construct_round (VNumber (Num.of_Z k)) code Hrec) as Hc.
  cbn [ToNumber] in Hc. rewrite Hscale in Hc. fold rawUnits in Hc.
  rewrite (Hc Hfr H1), H2. do 2 f_equal.
  unfold Num.of_integer.
  destruct (Z.eqb_spec (k * 10 ^ Z.of_nat digits) 0) as [E0|Hne]; [|reflexivity].
  assert (k = 0) by nia. subst k. rewrite E0.
  destruct (table_digits_cases _ Hd) as [->|[->|[->| ->]]]; reflexivity.
Qed.

End ConversionFacts.

(** ** Decimal digits: their number, and trailing zeros *)

Module DecimalFacts.

Import Digits DigitsFacts.
Local Open Scope string_scope.

Lemma digits_onto_S (fuel : nat) (n : Z) (acc : string) :
  digits_onto (S fuel) n acc
  = if (n / 10 =? 0)%Z then String (digit_char (n mod 10)) acc
    else digits_onto fuel (n / 10) (String (digit_char (n mod 10)) acc).
Proof. reflexivity. Qed.

(** The digits are put in front of the accumulator. *)
Lemma digits_onto_acc (fuel : nat) :
  forall n acc, digits_onto fuel n acc = digits_onto fuel n "" ++ acc.
Proof.
  induction fuel as [|fuel IH]; intros n acc; [reflexivity|].
  rewrite !digits_onto_S. destruct (n / 10 =? 0)%Z; [reflexivity|].
  rewrite (IH _ (String _ acc)), (IH _ (String _ "")), append_assoc. reflexivity.
Qed.

Lemma pow10_S (f : nat) : 10 ^ Z.of_nat (S f) = 10 * 10 ^ Z.of_nat f.
Proof. rewrite Nat2Z.inj_succ, Z.pow_succ_r by lia. reflexivity. Qed.

Lemma tenth_bounds (n : Z) (f : nat) :
  0 <= n < 10 ^ Z.of_nat (S f) -> n / 10 <> 0 -> 0 < n / 10 < 10 ^ Z.of_nat f.
Proof.
  intros [H0 H1] Hq. rewrite pow10_S in H1.
  assert (0 <= n / 10) by (apply Z.div_pos; lia).
  split; [lia|]. apply Z.div_lt_upper_bound; lia.
Qed.

Lemma fuel_positive (n : Z) (f : nat) : 0 < n < 10 ^ Z.of_nat f -> exists f', f = S f'.
Proof.
  destruct f as [|f']; [|eauto]. change (10 ^ Z.of_nat 0) with 1. lia.
Qed.

(** Any fuel that covers the digits gives the same digits. *)
Lemma digits_onto_fuel (f1 : nat) :
  forall f2 n, 0 <= n < 10 ^ Z.of_nat (S f1) -> n < 10 ^ Z.of_nat (S f2) ->
  digits_onto (S f1) n "" = digits_onto (S f2) n "".
Proof.
  induction f1 as [|f1 IH]; intros f2 n Hn1 Hn2.
  - change (10 ^ Z.of_nat 1) with 10 in Hn1.
    assert (Hq : n / 10 = 0) by (apply Z.div_small; lia).
    rewrite !digits_onto_S, Hq. reflexivity.
  - rewrite (digits_onto_S (S f1)), (digits_onto_S f2).
    destruct (Z.eqb_spec (n / 10) 0) as [Hq|Hq]; [reflexivity|].
    destruct (tenth_bounds n (S f1) Hn1 Hq) as [H0 H1].
    destruct (tenth_bounds n f2 ltac:(lia) Hq) as [_ H2].
    destruct (fuel_positive (n / 10) f2 ltac:(lia)) as [f2' ->].
    rewrite (digits_onto_acc (S f1)), (digits_onto_acc (S f2')).
    f_equal. apply IH; lia.
Qed.

Lemma of_Z_fuel (n : Z) (f : nat) :
  0 <= n < 10 ^ Z.of_nat (S f) -> of_Z n = digits_onto (S f) n "".
Proof.
  intros Hn. unfold of_Z. apply digits_onto_fuel; [|lia].
  split; [lia|].
  destruct (Z.eq_dec n 0) as [->|Hz]; [reflexivity|].
  assert (Hlog : n < 2 ^ Z.succ (Z.log2 n)) by (apply Z.log2_spec; lia).
  pose proof (Z.log2_nonneg n) as Hl.
  replace (Z.of_nat (S (Z.to_nat (Z.log2 n)))) with (Z.succ (Z.log2 n)) by lia.
  assert (2 ^ Z.succ (Z.log2 n) <= 10 ^ Z.succ (Z.log2 n))
    by (apply Z.pow_le_mono_l; lia).
  lia.
Qed.

Lemma covered (n : Z) : 0 <= n -> exists f, n < 10 ^ Z.of_nat (S f).
Proof.
  intro Hn. exists (Z.to_nat n).
  replace (Z.of_nat (S (Z.to_nat n))) with (Z.succ n) by lia.
  pose proof (Z.pow_gt_lin_r 10 (Z.succ n) ltac:(lia) ltac:(lia)). lia.
Qed.

(** The digits of ten times a number: those of the number, and a zero. *)
Lemma of_Z_times_10 (t : Z) : 0 < t -> of_Z (10 * t) = of_Z t ++ "0".
Proof.
  intro Ht. destruct (covered t ltac:(lia)) as [f Hf].
  rewrite (of_Z_fuel (10 * t) (S f)) by (rewrite pow10_S; lia).
  rewrite (of_Z_fuel t f) by lia.
  rewrite (digits_onto_S (S f)).
  replace (10 * t / 10) with t by (symmetry; rewrite Z.mul_comm; apply Z.div_mul; lia).
  replace ((10 * t) mod 10) with 0
    by (symmetry; rewrite Z.mul_comm; apply Z.mod_mul; lia).
  destruct (Z.eqb_spec t 0) as [E|_]; [lia|].
  rewrite (digits_onto_acc (S f)). reflexivity.
Qed.

Lemma zeros_snoc (j : nat) : zeros j ++ "0" = zeros (S j).
Proof. induction j as [|j IH]; [reflexivity|]. cbn [zeros append]. now rewrite IH. Qed.

Lemma of_Z_times_pow10 (t : Z) (j : nat) :
  0 < t -> of_Z (t * 10 ^ Z.of_nat j) = of_Z t ++ zeros j.
Proof.
  intro Ht. induction j as [|j IH].
  - change (10 ^ Z.of_nat 0) with 1. now rewrite Z.mul_1_r, append_empty_r.
  - rewrite pow10_S.
    replace (t * (10 * 10 ^ Z.of_nat j)) with (10 * (t * 10 ^ Z.of_nat j)) by lia.
    assert (0 < 10 ^ Z.of_nat j) by (apply Z.pow_pos_nonneg; lia).
    rewrite of_Z_times_10 by nia.
    rewrite IH, append_assoc, zeros_snoc. reflexivity.
Qed.

(** The number of digits. *)
Lemma digits_onto_length (f : nat) :
  forall n, 0 < n < 10 ^ Z.of_nat (S f) ->
  let L := Z.of_nat (String.length (digits_onto (S f) n "")) in
  10 ^ (L - 1) <= n < 10 ^ L.
Proof.
  induction f as [|f IH]; intros n Hn.
  - change (10 ^ Z.of_nat 1) with 10 in Hn.
    assert (Hq : n / 10 = 0) by (apply Z.div_small; lia).
    rewrite digits_onto_S, Hq. simpl. lia.
  - rewrite (digits_onto_S (S f)). destruct (Z.eqb_spec (n / 10) 0) as [Hq|Hq].
    + simpl. assert (n < 10); [|lia].
      destruct (Z_lt_ge_dec n 10) as [|Hge]; [assumption|].
      assert (1 <= n / 10) by (apply Z.div_le_lower_bound; lia). lia.
    + destruct (tenth_bounds n (S f) ltac:(lia) Hq) as [H0 H1].
      rewrite (digits_onto_acc (S f)), length_append.
      specialize (IH (n / 10) ltac:(lia)). cbn zeta in IH.
      set (L' := Z.of_nat (String.length (digits_onto (S f) (n / 10) ""))) in *.
      assert (HL' : 1 <= L').
      { destruct (Z_le_gt_dec 1 L') as [|Hlt]; [assumption|].
        assert (L' = 0) by lia. rewrite H in IH. change (10 ^ 0) with 1 in IH. lia. }
      cbn [String.length]. cbn zeta.
      replace (Z.of_nat (String.length (digits_onto (S f) (n / 10) "") + 1)) with (L' + 1)
        by (unfold L'; lia).
      replace (L' + 1 - 1) with (Z.succ (L' - 1)) by lia.
      replace (L' + 1) with (Z.succ L') by lia.
      rewrite !Z.pow_succ_r by lia.
      pose proof (Z.div_mod n 10 ltac:(lia)) as Hdm.
      pose proof (Z.mod_pos_bound n 10 ltac:(lia)) as Hmod.
      lia.
Qed.

Lemma of_Z_length (n : Z) :
  0 < n ->
  let L := Z.of_nat (String.length (of_Z n)) in 10 ^ (L - 1) <= n < 10 ^ L.
Proof.
  intro Hn. destruct (covered n ltac:(lia)) as [f Hf].
  rewrite (of_Z_fuel n f) by lia. apply digits_onto_length. lia.
Qed.

End DecimalFacts.

(** ** [Number::toString] on integers *)

Module ToStringFacts.

Import Rounding RoundingFacts ErrorFacts ExactFacts DecimalFacts.

(** The sign of a rounded result is the sign given. *)
Lemma binary_round_aux_opp (s : bool) (mx ex : Z) (lx : location) :
  binary_round_aux Num.prec Num.emax (negb s) mx ex lx
  = SFopp (binary_round_aux Num.prec Num.emax s mx ex lx).
Proof.
  unfold binary_round_aux.
  destruct (shr_fexp Num.prec Num.emax mx ex lx) as [rec' e'].
  destruct (shr_fexp Num.prec Num.emax _ e' loc_Exact) as [rec'' e''].
  destruct (shr_m rec''); [reflexivity | | reflexivity].
  destruct (e'' <=? Num.emax - Num.prec); reflexivity.
Qed.

Lemma of_ratio_opp (neg : bool) (n : Z) (D : positive) :
  Num.of_ratio (negb neg) n D = SFopp (Num.of_ratio neg n D).
Proof.
  unfold Num.of_ratio. destruct n as [|p|p]; try reflexivity.
  unfold SFdiv.
  destruct (SFdiv_core_binary Num.prec Num.emax (Z.pos p) 0 (Z.pos D) 0) as [[q e] l].
  rewrite !xorb_false_r. apply binary_round_aux_opp.
Qed.

Lemma binary_round_aux_abs (s : bool) (mx ex : Z) (lx : location) :
  SFabs (binary_round_aux Num.prec Num.emax s mx ex lx)
  = binary_round_aux Num.prec Num.emax false mx ex lx.
Proof.
  unfold binary_round_aux.
  destruct (shr_fexp Num.prec Num.emax mx ex lx) as [rec' e'].
  destruct (shr_fexp Num.prec Num.emax _ e' loc_Exact) as [rec'' e''].
  destruct (shr_m rec''); [reflexivity | | reflexivity].
  destruct (e'' <=? Num.emax - Num.prec); reflexivity.
Qed.

Lemma of_ratio_abs (neg : bool) (n : Z) (D : positive) :
  SFabs (Num.of_ratio neg n D) = Num.of_ratio false n D.
Proof.
  unfold Num.of_ratio. destruct n as [|p|p]; try reflexivity.
  unfold SFdiv.
  destruct (SFdiv_core_binary Num.prec Num.emax (Z.pos p) 0 (Z.pos D) 0) as [[q e] l].
  rewrite !xorb_false_r. apply binary_round_aux_abs.
Qed.

(** Equality with a positive finite Number. *)
Lemma SFeqb_finite (y : Num.number) (m : positive) (e : Z) :
  SFeqb y (S754_finite false m e) = true -> y = S754_finite false m e.
Proof.
  unfold SFeqb, SFcompare.
  destruct y as [sy|sy| |sy my ey]; try discriminate.
  - destruct sy; discriminate.
  - destruct sy; [discriminate|].
    destruct (Z.compare_spec ey e) as [->| |]; try discriminate.
    destruct (Pos.compare_cont Eq my m) eqn:Ec; try discriminate.
    intros _. apply Pos.compare_eq in Ec. now subst.
Qed.

Lemma SFeqb_refl (m : positive) (e : Z) :
  SFeqb (S754_finite false m e) (S754_finite false m e) = true.
Proof.
  unfold SFeqb, SFcompare. rewrite Z.compare_refl.
  change (Pos.compare_cont Eq m m) with (Pos.compare m m).
  now rewrite Pos.compare_refl.
Qed.

(** Only its own decimal denotes an integer of at most 53 bits. *)
Lemma denotes_integer (P : positive) (c e : Z) :
  Z.pos P < 2 ^ 53 -> 0 <= e ->
  JS.denotes (Num.of_ratio false (Z.pos P) 1) c e = true -> c * 10 ^ e = Z.pos P.
Proof.
  intros HP He.
  destruct (of_ratio_exact false P 1 HP) as (m & ex & Ex & Hv).
  rewrite Pos.mul_1_r in Ex. rewrite Ex.
  unfold JS.denotes.
  assert (Ed : JS.decimal_number false c e = Num.of_ratio false (c * 10 ^ e) 1)
    by (destruct e; [reflexivity | reflexivity | lia]).
  rewrite Ed. intro H. apply SFeqb_finite in H.
  destruct (c * 10 ^ e) as [|p|p] eqn:Ez; try discriminate.
  unfold Num.of_ratio in H.
  destruct (div_finite_spec false false p 1 0 0) as (My & ey & E & HM & Herr & _).
  rewrite E in H. cbn [xorb] in H.
  assert (HMe : My = Z.pos m /\ ey = ex).
  { unfold build in H. destruct My as [|k|k]; try discriminate.
    destruct (ey <=? 971); [|discriminate]. injection H as -> ->. auto. }
  destruct HMe as [-> ->].
  rewrite abs_Q_finite in Hv. rewrite Hv in Herr.
  assert (Hq : (quotient p 1 0 0 == inject_Z (Z.pos p))%Q).
  { unfold quotient. rewrite pow2_0. change (inject_Z 1) with 1%Q. field. }
  rewrite Hq in Herr.
  assert (HPQ : (inject_Z (Z.pos P) <= inject_Z (2 ^ 53 - 1))%Q)
    by (rewrite <- Zle_Qle; lia).
  assert (HP0 : (0 <= inject_Z (Z.pos P))%Q)
    by (change 0%Q with (inject_Z 0); rewrite <- Zle_Qle; lia).
  pose proof eta_le as Heta.
  apply Qabs_Qle_condition in Herr.
  assert (Hlt : (inject_Z (Z.pos P) - inject_Z (Z.pos p) < 1)%Q
                /\ (-1 < inject_Z (Z.pos P) - inject_Z (Z.pos p))%Q).
  { change (inject_Z (2 ^ 53 - 1)) with (9007199254740991 # 1)%Q in HPQ.
    change u53 with (1 # 9007199254740992)%Q in Herr.
    set (a := inject_Z (Z.pos P)) in *. set (b := inject_Z (Z.pos p)) in *.
    set (η := eta) in *. clearbody a b η. split; lra. }
  destruct Hlt as [H1 H2].
  assert (Ediff : (inject_Z (Z.pos P) - inject_Z (Z.pos p)
                   == inject_Z (Z.pos P - Z.pos p))%Q).
  { unfold Z.sub. rewrite inject_Z_plus, inject_Z_opp. reflexivity. }
  rewrite Ediff in H1, H2.
  change 1%Q with (inject_Z 1) in H1. change (-1)%Q with (inject_Z (-1)) in H2.
  rewrite <- Zlt_Qlt in H1, H2. lia.
Qed.

Lemma denotes_self (P : positive) :
  Z.pos P < 2 ^ 53 ->
  JS.denotes (Num.of_ratio false (Z.pos P) 1) (Z.pos P) 0 = true.
Proof.
  intro HP.
  destruct (of_ratio_exact false P 1 HP) as (m & ex & Ex & _).
  rewrite Pos.mul_1_r in Ex.
  unfold JS.denotes, JS.decimal_number.
  change (10 ^ 0) with 1. rewrite Z.mul_1_r, Ex. apply SFeqb_refl.
Qed.

(** The search for the shortest decimal of an integer ends on digits
    whose value, with the zeros that follow, is the integer. *)
Lemma shortest_decimal_integer (x : Num.number) (X : Q) (P n : Z) :
  (X == inject_Z P)%Q -> 0 < P ->
  (forall c e, 0 <= e -> JS.denotes x c e = true -> c * 10 ^ e = P) ->
  JS.denotes x P 0 = true ->
  forall fuel k, 1 <= k <= n -> (Z.to_nat (n - k) < fuel)%nat ->
  exists s k',
    JS.shortest_decimal fuel x X n k = (s, k')
    /\ k <= k' <= n /\ s * 10 ^ (n - k') = P.
Proof.
  intros HX HP Honly Hself.
  induction fuel as [|fuel IH]; intros k Hk Hfuel; [lia|].
  cbn [JS.shortest_decimal].
  set (lo := Qfloor (X / inject_Z 10 ^ (n - k))).
  assert (Hpow : 0 < 10 ^ (n - k)) by (apply Z.pow_pos_nonneg; lia).
  destruct (JS.denotes x lo (n - k)) eqn:Elo, (JS.denotes x (lo + 1) (n - k)) eqn:Ehi.
  - apply Honly in Elo; [|lia]. apply Honly in Ehi; [|lia]. nia.
  - apply Honly in Elo; [|lia]. exists lo, k. repeat split; try lia. 
  - apply Honly in Ehi; [|lia]. exists (lo + 1), k. repeat split; try lia.
  - destruct (Z.eq_dec k n) as [->|Hne].
    + exfalso. 
      assert (Elo' : lo = P).
      { unfold lo. replace (n - n) with 0 by lia.
        assert (E : (X / inject_Z 10 ^ 0 == inject_Z P)%Q).
        { rewrite HX. change (inject_Z 10 ^ 0)%Q with 1%Q. field. }
        rewrite E. apply Qfloor_Z. }
      rewrite Elo' in Elo. replace (n - n) with 0 in Elo by lia. congruence.
    + destruct (IH (k + 1)) as (s & k' & E & Hk' & Hs); [lia | lia |].
      exists s, k'. split; [exact E|]. split; [lia | exact Hs].
Qed.

Lemma decimal_exponent_integer (X : Q) (P : Z) :
  (X == inject_Z P)%Q -> 0 < P ->
  JS.decimal_exponent X = Z.of_nat (String.length (Digits.of_Z P)).
Proof.
  intros HX HP. unfold JS.decimal_exponent.
  assert (H1 : Qle_bool 1 X = true).
  { apply Qle_bool_iff. rewrite HX. change 1%Q with (inject_Z 1).
    rewrite <- Zle_Qle. lia. }
  rewrite H1, HX, Qfloor_Z. reflexivity.
Qed.

(** The string of an integer of at most 53 bits: its sign and its decimal
    digits. *)
Lemma Number_toString_integer (neg : bool) (P : positive) :
  Z.pos P < 2 ^ 53 ->
  JS.Number_toString (Num.of_ratio neg (Z.pos P) 1)
  = (JS.sign_string neg ++ Digits.of_Z (Z.pos P))%string.
Proof.
  intro HP.
  destruct (of_ratio_exact neg P 1 HP) as (m & e & Ex & Hv).
  rewrite Pos.mul_1_r in Ex.
  pose proof (of_ratio_abs neg (Z.pos P) 1) as Habs. rewrite Ex in Habs.
  cbn [SFabs] in Habs.
  rewrite Ex. unfold JS.Number_toString. cbn [SFabs].
  set (X := Num.abs_Q (S754_finite neg m e)) in *.
  rewrite (decimal_exponent_integer X (Z.pos P) Hv) by lia.
  pose proof (of_Z_length (Z.pos P) ltac:(lia)) as HL. cbn zeta in HL.
  set (n := Z.of_nat (String.length (Digits.of_Z (Z.pos P)))) in *.
  assert (Hn1 : 1 <= n).
  { destruct (Z_le_gt_dec 1 n) as [|Hlt]; [assumption|].
    assert (n <= 0) by lia.
    assert (10 ^ n <= 10 ^ 0) by (apply Z.pow_le_mono_r; lia).
    change (10 ^ 0) with 1 in *. lia. }
  assert (Hn16 : n <= 16).
  { destruct (Z_le_gt_dec n 16) as [|Hgt]; [assumption|].
    assert (10 ^ 16 <= 10 ^ (n - 1)) by (apply Z.pow_le_mono_r; lia).
    assert (2 ^ 53 < 10 ^ 16) by reflexivity. lia. }
  assert (Honly : forall c ex, 0 <= ex ->
            JS.denotes (S754_finite false m e) c ex = true -> c * 10 ^ ex = Z.pos P).
  { intros c ex Hex H. rewrite Habs in H. now apply denotes_integer in H. }
  assert (Hself : JS.denotes (S754_finite false m e) (Z.pos P) 0 = true)
    by (rewrite Habs; now apply denotes_self).
  destruct (shortest_decimal_integer (S754_finite false m e) X (Z.pos P) n Hv
              ltac:(lia) Honly Hself 17%nat 1 ltac:(lia) ltac:(lia))
    as (s & k & E & Hk & Hs).
  rewrite E.
  assert (Hp : 0 < 10 ^ (n - k)) by (apply Z.pow_pos_nonneg; lia).
  assert (Hs0 : 0 < s) by nia.
  assert (Hsk : s < 10 ^ k).
  { assert (Hsplit : 10 ^ n = 10 ^ k * 10 ^ (n - k)).
    { rewrite <- Z.pow_add_r by lia. f_equal. lia. }
    destruct (Z_lt_ge_dec s (10 ^ k)) as [|Hge]; [assumption|]. nia. }
  destruct (Z.eqb_spec s (10 ^ k)) as [Eq|_]; [lia|].
  f_equal. unfold JS.layout.
  replace ((k <=? n) && (n <=? 21))%bool with true
    by (symmetry; apply andb_true_intro; split; apply Z.leb_le; lia).
  rewrite <- of_Z_times_pow10 by exact Hs0.
  rewrite Z2Nat.id by lia. now rewrite Hs.
Qed.

(** The string of the Number that the decimal [M / 10^0] denotes. *)
Lemma Number_toString_of_decimal (M : Z) :
  Z.abs M < 2 ^ 53 ->
  JS.Number_toString (Num.of_decimal false M 0)
  = (JS.sign_string (M <? 0)%Z ++ Digits.of_Z (Z.abs M))%string.
Proof.
  intro HM. destruct M as [|p|p].
  - reflexivity.
  - apply (Number_toString_integer false p). lia.
  - apply (Number_toString_integer true p). lia.
Qed.

End ToStringFacts.

(** ** Integers among the Numbers *)

Module IntegerFacts.

Import Rounding RoundingFacts ErrorFacts.

(** The exponent of a rounded result. *)
Lemma binary_round_aux_exponent (s : bool) (mx ex : Z) :
  0 <= mx ->
  exists M e,
    binary_round_aux Num.prec Num.emax s mx ex loc_Exact = build s M e
    /\ 0 <= M
    /\ Z.max ex (fexp64 (Zdigits2 mx + ex)) <= e
       <= Z.max ex (fexp64 (Zdigits2 mx + ex)) + 1.
Proof.
  intro Hm.
  destruct (shr_fexp_spec mx ex loc_Exact (inject_Z mx) Hm) as
    (rec' & e' & E1 & He' & Hm' & Hdiv & Hloc & _); [reflexivity|].
  destruct (round_located _ rec' Hloc) as (HM2 & _ & _).
  set (M2 := rounded rec') in *.
  set (d := Zdigits2 mx) in *.
  pose proof (Zdigits2_nonneg mx) as Hd0. fold d in Hd0.
  assert (Hemin : -1074 <= e') by (rewrite He', fexp64_spec; lia).
  assert (Hlt : shr_m rec' < 2 ^ Z.max (d + ex - e') 0).
  { rewrite Hdiv.
    assert (Hpe : 0 <= e' - ex) by lia.
    assert (Hp2 : 0 < 2 ^ (e' - ex)) by (apply Z.pow_pos_nonneg; lia).
    assert (0 < 2 ^ Z.max (d + ex - e') 0) by (apply Z.pow_pos_nonneg; lia).
    destruct (Z.eq_dec mx 0) as [->|Hne]; [rewrite Z.div_0_l; lia|].
    destruct (Zdigits2_bounds mx) as [_ Hhi]; [lia|]. fold d in Hhi.
    destruct (Z_le_gt_dec 0 (d + ex - e')) as [Hk|Hk].
    - rewrite Z.max_l by lia.
      apply Z.div_lt_upper_bound; [lia|].
      rewrite <- Z.pow_add_r by lia.
      replace (e' - ex + (d + ex - e')) with d by lia. exact Hhi.
    - rewrite Z.div_small; [lia|]. split; [lia|].
      assert (2 ^ d <= 2 ^ (e' - ex)) by (apply Z.pow_le_mono_r; lia). lia. }
  destruct (renormalize M2 e' (d + ex - e')) as (rec'' & e'' & E2 & Hm'' & Hval);
    [exact Hemin | replace (d + ex - e' + e') with (d + ex) by lia; rewrite fexp64_spec in *; lia
    | lia |].
  exists (shr_m rec''), e''. split; [|split; [exact Hm''|]].
  - unfold binary_round_aux. rewrite E1. fold (rounded rec'). fold M2. rewrite E2.
    reflexivity.
  - rewrite <- He'. destruct Hval as [[-> _]|[-> _]]; lia.
Qed.

(** The Number nearest to an integer up to [10^21] is finite, and an
    integer. *)
Lemma of_Z_integral (n : Z) :
  Z.abs n <= 10 ^ 21 ->
  Num.is_finite (Num.of_Z n) = true
  /\ exists k, (Num.to_Q (Num.of_Z n) == inject_Z k)%Q.
Proof.
  intro Hn.
  assert (Hbig : forall (s : bool) (p : positive),
             2 ^ 53 < Z.pos p <= 10 ^ 21 ->
             Num.is_finite (binary_round Num.prec Num.emax s p 0) = true
             /\ exists k, (Num.to_Q (binary_round Num.prec Num.emax s p 0) == inject_Z k)%Q).
  { intros s p [Hlo Hhi].
    pose proof (NumFacts.digits2_pos_bounds p) as [_ Hd].
    assert (Hd54 : 54 <= Z.pos (digits2_pos p)).
    { destruct (Z_le_gt_dec 54 (Z.pos (digits2_pos p))) as [|Hlt]; [assumption|].
      assert (2 ^ Z.pos (digits2_pos p) <= 2 ^ 53) by (apply Z.pow_le_mono_r; lia). lia. }
    assert (Hd70 : Zdigits2 (Z.pos p) <= 70).
    { apply Zdigits2_le; [lia|]. assert (10 ^ 21 < 2 ^ 70) by reflexivity. lia. }
    unfold binary_round, shl_align.
    assert (Ef : fexp Num.prec Num.emax (Z.pos (digits2_pos p) + 0)
                 = Z.pos (digits2_pos p) - 53).
    { unfold fexp, emin, Num.prec, Num.emax. lia. }
    rewrite Ef.
    destruct (Z.pos (digits2_pos p) - 53 - 0) as [|q|q] eqn:Eq; try lia.
    destruct (binary_round_aux_exponent s (Z.pos p) 0) as (M & e & E & HM & He); [lia|].
    rewrite E. rewrite fexp64_spec in He.
    assert (Hfin : Num.is_finite (build s M e) = true).
    { unfold build. destruct M as [|m|m]; [reflexivity | | lia].
      destruct (Z.leb_spec e 971); [reflexivity | lia]. }
    split; [exact Hfin|].
    exists (if s then - (M * 2 ^ e) else M * 2 ^ e).
    rewrite (to_Q_build s M e HM Hfin). unfold signed.
    destruct s; [rewrite inject_Z_opp|]; rewrite inject_Z_mult, (pow2_inject e) by lia;
      reflexivity. }
  destruct (Z_le_gt_dec (Z.abs n) (2 ^ 53)) as [Hsmall|Hlarge].
  - split; [|exists n; now apply NumFacts.of_Z_exact].
    destruct (Z.eq_dec (Z.abs n) (2 ^ 53)) as [E|E].
    + destruct (Z.abs_eq_or_opp n) as [H|H]; rewrite H in E.
      * subst n. reflexivity.
      * assert (n = - 2 ^ 53) by lia. subst n. reflexivity.
    + destruct (Z.eq_dec n 0) as [->|Hne]; [reflexivity|].
      pose proof (of_integer_finite false n) as H. unfold Num.of_integer in H.
      destruct (Z.eqb_spec n 0); [contradiction|]. apply H. lia.
  - unfold Num.of_Z, binary_normalize.
    destruct n as [|p|p]; [simpl in Hlarge; lia | |]; apply Hbig; lia.
Qed.

End IntegerFacts.

(** ** What the constructor stores *)

Module MagnitudeFacts.

Import Digits DigitsFacts JS JSFacts IntegerFacts.
Local Open Scope string_scope.

Lemma shortest_significand_nonneg (fuel : nat) (x : Num.number) (X n : Z) :
  0 <= X -> forall k, 0 <= fst (shortest_significand fuel x X n k).
Proof.
  intro HX. induction fuel as [|fuel IH]; intro k; cbn [shortest_significand].
  - apply Z_div_nonneg_nonneg; [exact HX | apply Z.pow_nonneg; lia].
  - assert (Hlo : 0 <= X / 10 ^ (n - k))
      by (apply Z_div_nonneg_nonneg; [exact HX | apply Z.pow_nonneg; lia]).
    destruct (reads_back x (X / 10 ^ (n - k)) (10 ^ (n - k))),
             (reads_back x (X / 10 ^ (n - k) + 1) (10 ^ (n - k))); cbn [fst]; try lia.
    + destruct (_ ?= _)%Z; cbn [fst]; try lia.
      destruct (Z.even _); lia.
    + apply IH.
Qed.

(** The exponent notation starts with a digit, followed by a point or by
    the exponent. *)
Lemma toString_exponential_head (x : Num.number) :
  exists d c r,
    toString_exponential x = String d (String c r)
    /\ is_digit d = true /\ (c = "."%char \/ c = "e"%char).
Proof.
  unfold toString_exponential.
  set (X := Qfloor (Num.abs_Q x)).
  assert (HX : 0 <= X).
  { unfold X. change 0 with (Qfloor 0). apply Qfloor_resp_le, NumFacts.abs_Q_nonneg. }
  set (n := Z.of_nat (String.length (Digits.of_Z X))).
  pose proof (shortest_significand_nonneg 17 x X n HX 1) as Hs.
  destruct (shortest_significand 17 x X n 1) as [s k]. cbn [fst] in Hs.
  assert (Hhead : forall s' n', 0 <= s' ->
    exists d c r,
      (match Digits.of_Z s' with
       | String d EmptyString => Digits.of_Z s'
       | String d rest => String d ("." ++ rest)
       | EmptyString => Digits.of_Z s'
       end ++ "e+" ++ Digits.of_Z (n' - 1)) = String d (String c r)
      /\ is_digit d = true /\ (c = "."%char \/ c = "e"%char)).
  { intros s' n' Hs'. destruct (of_Z_spec s' Hs') as (Ha & Hne & _).
    destruct (Digits.of_Z s') as [|d [|d' rest]]; [congruence | |];
      simpl in Ha; apply andb_true_iff in Ha as [Hd _].
    - exists d, "e"%char. eexists. split; [reflexivity|]. auto.
    - exists d, "."%char. eexists. split; [reflexivity|]. auto. }
  destruct (s =? 10 ^ k)%Z; apply Hhead; lia.
Qed.

Lemma parseInt_leading_digit (neg : bool) (d c : ascii) (r : string) :
  is_digit d = true -> (c = "."%char \/ c = "e"%char) ->
  parseInt (sign_string neg ++ String d (String c r))
  = signed_integer neg (digit_value d).
Proof.
  intros Hd Hc. unfold parseInt.
  pose proof (take_sign_digits neg (String d "") (String c r)) as Ht.
  cbn [append] in Ht. rewrite Ht; [|simpl; now rewrite Hd|discriminate].
  assert (Hx : after_radix_prefix "x" "X" (String d (String c r)) = None).
  { unfold after_radix_prefix. destruct Hc as [->| ->]; cbn; now rewrite andb_false_r. }
  rewrite Hx.
  pose proof (span_digits (String d "") (String c r)) as Hsp.
  cbn [append] in Hsp. rewrite Hsp.
  - cbn [fst]. unfold value. cbn [value_from]. f_equal; lia.
  - simpl. now rewrite Hd.
  - destruct Hc as [->| ->]; reflexivity.
Qed.

Lemma digit_value_bounds (d : ascii) : is_digit d = true -> 0 <= digit_value d <= 9.
Proof.
  intro H. apply is_digit_code in H. unfold digit_value. lia.
Qed.

(** A scanned integer of at most [10^21] is a finite Number, and an
    integer. *)
Lemma signed_integer_integral (neg : bool) (n : Z) :
  0 <= n <= 10 ^ 21 ->
  Num.is_finite (signed_integer neg n) = true
  /\ exists k, (Num.to_Q (signed_integer neg n) == inject_Z k)%Q.
Proof.
  intro Hn. unfold signed_integer.
  destruct (Z.eqb_spec n 0) as [->|Hne].
  - split; [reflexivity|]. exists 0%Z. destruct neg; reflexivity.
  - apply of_Z_integral. destruct neg; lia.
Qed.

(** What [parseInt] reads in the digits [toFixed()] writes: no Number, or
    an integer. *)
Lemma parseInt_toFixed_integral (y : Num.number) :
  let v := parseInt (toFixed y 0) in
  v = Num.NaN
  \/ (Num.is_finite v = true /\ exists k, (Num.to_Q v == inject_Z k)%Q).
Proof.
  intro v. unfold v.
  destruct (Num.is_finite y) eqn:Hfin.
  - right. destruct (Qle_bool ten21 (Num.abs_Q y)) eqn:Ebig.
    + unfold toFixed. rewrite Hfin, Ebig. cbn [negb].
      destruct (toString_exponential_head (SFabs y)) as (d & c & r & E & Hd & Hc).
      rewrite E, (parseInt_leading_digit _ d c r Hd Hc).
      apply signed_integer_integral.
      pose proof (digit_value_bounds d Hd). 
      assert (9 <= 10 ^ 21) by (vm_compute; discriminate). lia.
    + assert (Hlt : (Num.abs_Q y < ten21)%Q).
      { apply Qnot_le_lt. intro H. apply Qle_bool_iff in H. congruence. }
      rewrite (parseInt_toFixed y Hfin Hlt).
      apply signed_integer_integral.
      split; [apply nearest_scaled_nonneg, NumFacts.abs_Q_nonneg|].
      unfold nearest_scaled.
      pose proof (Qfloor_le (Num.abs_Q y * inject_Z (10 ^ Z.of_nat 0) + (1 # 2))) as Hf.
      unfold ten21 in Hlt.
      set (N := Qfloor (Num.abs_Q y * inject_Z (10 ^ Z.of_nat 0) + (1 # 2))) in *.
      change (inject_Z (10 ^ Z.of_nat 0)) with 1%Q in Hf.
      assert (HN : (inject_Z N < inject_Z (10 ^ 21 + 1))%Q).
      { rewrite (inject_Z_plus (10 ^ 21) 1). change (inject_Z 1) with 1%Q.
        set (a := Num.abs_Q y) in *. set (b := inject_Z (10 ^ 21)) in *.
        set (c := inject_Z N) in *. clearbody a b c. lra. }
      rewrite <- Zlt_Qlt in HN. lia.
  - left. destruct y as [s|s| |s m e]; try discriminate; [destruct s|]; reflexivity.
Qed.

End MagnitudeFacts.

(** ** Keys outside the table, and values that are not Numbers *)

Module TableFacts.

Local Open Scope string_scope.

(** A key that is neither in the table nor on Object.prototype. *)
Lemma lookup_undefined (key : string) :
  ~ Spec.recognized key -> ~ In key Unit.Object_prototype_keys ->
  Unit.lookup key = Unit.Undefined.
Proof.
  intros Hr Hp. unfold Unit.lookup.
  assert (Hown : Unit.own_property Unit.UNITS key = Unit.Undefined).
  { unfold Spec.recognized in Hr. cbn [Unit.UNITS Unit.own_property].
    destruct (String.eqb_spec "BLK" key) as [<-|_]; [exfalso; apply Hr; simpl; auto|].
    destruct (String.eqb_spec "mBLK" key) as [<-|_]; [exfalso; apply Hr; simpl; auto|].
    destruct (String.eqb_spec "uBLK" key) as [<-|_]; [exfalso; apply Hr; simpl; auto|].
    destruct (String.eqb_spec "ratoshis" key) as [<-|_]; [exfalso; apply Hr; simpl; auto 6|].
    reflexivity. }
  rewrite Hown.
  destruct (existsb (String.eqb key) Unit.Object_prototype_keys) eqn:E; [|reflexivity].
  apply existsb_exists in E as (k & Hin & Hk).
  apply String.eqb_eq in Hk. subst k. contradiction.
Qed.

(** The strings [toFixed] writes for the values that are not finite are
    not read as integers. *)
Lemma parseInt_not_finite (y : Num.number) :
  Num.is_finite y = false -> JS.parseInt (JS.toFixed y 0) = Num.NaN.
Proof.
  destruct y as [s|s| |s m e]; try discriminate; intros _; [destruct s|]; reflexivity.
Qed.

Lemma mul_NaN_r (x : Num.number) : Num.mul x Num.NaN = Num.NaN.
Proof. destruct x; reflexivity. Qed.

Lemma div_NaN_r (x : Num.number) : Num.div x Num.NaN = Num.NaN.
Proof. destruct x; reflexivity. Qed.

End TableFacts.

(** ** Opposite Numbers *)

Module SignFacts.

Import Digits DigitsFacts JS JSFacts ToStringFacts MagnitudeFacts.
Local Open Scope string_scope.

Lemma to_Q_opp (x : Num.number) : (Num.to_Q (SFopp x) == - Num.to_Q x)%Q.
Proof.
  destruct x as [s|s| |s m e]; try reflexivity.
  unfold Num.to_Q. cbn [SFopp Num.is_negative].
  change (Num.abs_Q (S754_finite (negb s) m e)) with (Num.abs_Q (S754_finite s m e)).
  destruct s; cbn [negb]; ring.
Qed.

Lemma is_finite_opp (x : Num.number) : Num.is_finite (SFopp x) = Num.is_finite x.
Proof. destruct x; reflexivity. Qed.

Lemma mul_opp (x y : Num.number) : Num.mul (SFopp x) y = SFopp (Num.mul x y).
Proof.
  destruct x as [sx|sx| |sx mx ex], y as [sy|sy| |sy my ey];
    try reflexivity; cbn [SFopp Num.mul SFmul];
    try (destruct sx, sy; reflexivity).
  rewrite <- negb_xorb_l. apply binary_round_aux_opp.
Qed.

Lemma div_opp (x y : Num.number) : Num.div (SFopp x) y = SFopp (Num.div x y).
Proof.
  destruct x as [sx|sx| |sx mx ex], y as [sy|sy| |sy my ey];
    try reflexivity; cbn [SFopp Num.div SFdiv];
    try (destruct sx, sy; reflexivity).
  destruct (SFdiv_core_binary _ _ _ _ _ _) as [[q e] l].
  rewrite <- negb_xorb_l. apply binary_round_aux_opp.
Qed.

Lemma of_Z_opp (z : Z) : z <> 0 -> Num.of_Z (- z) = SFopp (Num.of_Z z).
Proof.
  intro Hz. unfold Num.of_Z, binary_normalize.
  destruct z as [|p|p]; [contradiction| |]; cbn [Z.opp]; unfold binary_round;
    destruct (shl_align _ _ _) as [mz ez].
  - apply (binary_round_aux_opp false).
  - pose proof (binary_round_aux_opp false (Z.pos mz) ez loc_Exact) as H.
    cbn [negb] in H. rewrite H.
    destruct (binary_round_aux _ _ false _ _ _) as [[|]|[|]| |[|] m e]; reflexivity.
Qed.

Lemma signed_integer_opp (neg : bool) (v : Z) :
  signed_integer (negb neg) v = SFopp (signed_integer neg v).
Proof.
  unfold signed_integer. destruct (Z.eqb_spec v 0) as [_|Hne]; [reflexivity|].
  destruct neg; cbn [negb].
  - rewrite of_Z_opp by exact Hne.
    destruct (Num.of_Z v) as [[|]|[|]| |[|] m e]; reflexivity.
  - now apply of_Z_opp.
Qed.

Lemma decimal_number_opp (neg : bool) (digits exponent : Z) :
  decimal_number (negb neg) digits exponent = SFopp (decimal_number neg digits exponent).
Proof. unfold decimal_number. destruct exponent; apply of_ratio_opp. Qed.

(** What [toFixed] writes after the sign starts with a digit. *)
Lemma toFixed_digits_head (s : bool) (m : positive) (e : Z) (f : nat) :
  exists d rest,
    is_digit d = true
    /\ forall neg, toFixed (S754_finite neg m e) f = sign_string neg ++ String d rest.
Proof.
  unfold toFixed. cbn [Num.is_finite negb Num.is_negative SFabs].
  set (X := Num.abs_Q (S754_finite s m e)).
  assert (HX : forall neg, Num.abs_Q (S754_finite neg m e) = X) by reflexivity.
  destruct (Qle_bool ten21 X) eqn:Ebig.
  - destruct (toString_exponential_head (S754_finite false m e)) as (d & c & r & E & Hd & _).
    exists d, (String c r). split; [exact Hd|]. intro neg. now rewrite HX, Ebig, E.
  - pose proof (nearest_scaled_nonneg X f (NumFacts.abs_Q_nonneg _)) as Hn.
    assert (Hhead : exists d rest, is_digit d = true
                                   /\ fixed_digits (nearest_scaled X f) f = String d rest).
    { destruct f as [|f].
      - destruct (of_Z_spec _ Hn) as (Ha & Hne & _). unfold fixed_digits.
        destruct (Digits.of_Z _) as [|d rest]; [congruence|].
        simpl in Ha. apply andb_true_iff in Ha as [Hd _]. eauto.
      - destruct (fixed_digits_point _ (S f) Hn) as (a & b & E & Ha & Hne & _); [lia|].
        rewrite E. destruct a as [|d a]; [congruence|].
        simpl in Ha. apply andb_true_iff in Ha as [Hd _]. cbn [append]. eauto. }
    destruct Hhead as (d & rest & Hd & E).
    exists d, rest. split; [exact Hd|]. intro neg. now rewrite HX, Ebig, E.
Qed.

Lemma parseInt_sign (neg : bool) (d : ascii) (rest : string) :
  is_digit d = true ->
  parseInt (sign_string (negb neg) ++ String d rest)
  = SFopp (parseInt (sign_string neg ++ String d rest)).
Proof.
  intro Hd. unfold parseInt.
  assert (Ht : forall b, take_sign (trim_start (sign_string b ++ String d rest))
                         = (b, String d rest)).
  { intro b. apply (take_sign_digits b (String d "") rest); [simpl; now rewrite Hd|discriminate]. }
  rewrite !Ht.
  destruct (after_radix_prefix "x" "X" (String d rest)).
  - destruct (hex_prefix_value None s); [apply signed_integer_opp | reflexivity].
  - destruct (fst (span (String d rest))); [reflexivity | apply signed_integer_opp].
Qed.

Lemma parseFloat_sign (neg : bool) (d : ascii) (rest : string) :
  is_digit d = true ->
  parseFloat (sign_string (negb neg) ++ String d rest)
  = SFopp (parseFloat (sign_string neg ++ String d rest)).
Proof.
  intro Hd. unfold parseFloat, scan_decimal_literal.
  assert (Ht : forall b, take_sign (trim_start (sign_string b ++ String d rest))
                         = (b, String d rest)).
  { intro b. apply (take_sign_digits b (String d "") rest); [simpl; now rewrite Hd|discriminate]. }
  rewrite !Ht.
  pose proof (not_Infinity (String d "") rest) as Hi. cbn [append] in Hi.
  rewrite Hi; [|simpl; now rewrite Hd|discriminate].
  destruct (span (String d rest)) as [int r].
  destruct (fraction_part r) as [frac r'].
  destruct (exponent_part r') as [exponent rest'].
  destruct int, frac; try reflexivity; apply decimal_number_opp.
Qed.

(** The magnitude of the opposite product. *)
Lemma parseInt_toFixed_opp (y : Num.number) :
  let v := parseInt (toFixed y 0) in
  let v' := parseInt (toFixed (SFopp y) 0) in
  (Num.to_Q v' == - Num.to_Q v)%Q /\ Num.is_finite v' = Num.is_finite v
  /\ ((forall s, y <> S754_zero s) -> v' = SFopp v).
Proof.
  destruct y as [s|s| |s m e]; cbn zeta.
  - split; [destruct s; reflexivity|]. split; [destruct s; reflexivity|].
    intro H. now destruct (H s).
  - destruct s; repeat split; reflexivity.
  - repeat split; reflexivity.
  - cbn [SFopp].
    destruct (toFixed_digits_head s m e 0) as (d & rest & Hd & E).
    rewrite !E, (parseInt_sign s d rest Hd).
    split; [apply to_Q_opp|]. split; [apply is_finite_opp | reflexivity].
Qed.

Lemma parseFloat_toFixed_opp (y : Num.number) (f : nat) :
  let r := parseFloat (toFixed y f) in
  let r' := parseFloat (toFixed (SFopp y) f) in
  (Num.to_Q r' == - Num.to_Q r)%Q /\ Num.is_finite r' = Num.is_finite r
  /\ ((forall s, y <> S754_zero s) -> r' = SFopp r).
Proof.
  destruct y as [s|s| |s m e]; cbn zeta.
  - assert (E : forall b, parseFloat (toFixed (S754_zero b) f)
                          = parseFloat (toFixed (S754_zero false) f)) by reflexivity.
    cbn [SFopp]. rewrite (E (negb s)), (E s).
    assert (Hz : exists b, parseFloat (toFixed (S754_zero false) f) = S754_zero b).
    { unfold toFixed. cbn [Num.is_finite negb Num.is_negative sign_string append].
      assert (Hlt : Qle_bool ten21 (Num.abs_Q (S754_zero false)) = false) by reflexivity.
      rewrite Hlt. change (nearest_scaled (Num.abs_Q (S754_zero false)) f) with 0%Z.
      pose proof (parseFloat_toFixed (S754_zero false) f eq_refl eq_refl) as H.
      unfold toFixed in H. cbn [Num.is_finite negb Num.is_negative sign_string append] in H.
      rewrite Hlt in H. change (nearest_scaled (Num.abs_Q (S754_zero false)) f) with 0%Z in H.
      rewrite H. exists false. unfold decimal_number.
      destruct (- Z.of_nat f)%Z; reflexivity. }
    destruct Hz as [b ->]. split; [reflexivity|]. split; [reflexivity|].
    intro H. now destruct (H s).
  - destruct s; repeat split; reflexivity.
  - repeat split; reflexivity.
  - cbn [SFopp].
    destruct (toFixed_digits_head s m e f) as (d & rest & Hd & E).
    rewrite !E, (parseFloat_sign s d rest Hd).
    split; [apply to_Q_opp|]. split; [apply is_finite_opp | reflexivity].
Qed.

End SignFacts.

(** ** Rounding to the nearest Number *)

Module NearestFacts.

Import Rounding RoundingFacts ErrorFacts.

(** A valid finite Number: its mantissa has 53 bits, or fewer at the
    least exponent. *)
Lemma valid_finite (s : bool) (m : positive) (e : Z) :
  Num.valid (S754_finite s m e) = true <->
  fexp64 (Z.pos (digits2_pos m) + e) = e /\ e <= 971.
Proof.
  unfold Num.valid, valid_binary, bounded, canonical_mantissa.
  fold (fexp64 (Z.pos (digits2_pos m) + e)).
  rewrite andb_true_iff, Z.eqb_eq, Z.leb_le. unfold Num.emax, Num.prec. reflexivity.
Qed.

(** The nearest integer is the only integer at less than one half. *)
Lemma rounded_unique (x : Q) (rec : shr_record) (n : Z) :
  located x rec -> (inject_Z n - (1 # 2) < x < inject_Z n + (1 # 2))%Q ->
  rounded rec = n.
Proof.
  intros Hloc [H1 H2].
  destruct (round_located x rec Hloc) as (_ & Herr & _).
  apply Qabs_Qle_condition in Herr. destruct Herr as [H3 H4].
  set (r := rounded rec) in *.
  assert (Hlt : (inject_Z r - inject_Z n < 1)%Q) by lra.
  assert (Hgt : (-1 < inject_Z r - inject_Z n)%Q) by lra.
  assert (E : (inject_Z r - inject_Z n == inject_Z (r - n))%Q).
  { unfold Z.sub. rewrite inject_Z_plus, inject_Z_opp. reflexivity. }
  rewrite E in Hlt, Hgt.
  change 1%Q with (inject_Z 1) in Hlt. change (-1)%Q with (inject_Z (-1)) in Hgt.
  rewrite <- Zlt_Qlt in Hlt, Hgt. lia.
Qed.

(** A mantissa of 53 bits is left as it is. *)
Lemma shr_fexp_53 (m : positive) (e : Z) :
  Z.pos (digits2_pos m) = 53 -> -1074 <= e ->
  shr_fexp Num.prec Num.emax (Z.pos m) e loc_Exact
  = (shr_record_of_loc (Z.pos m) loc_Exact, e).
Proof.
  intros Hd He. unfold shr_fexp, shr. fold (fexp64 (Zdigits2 (Z.pos m) + e)).
  cbn [Zdigits2]. rewrite Hd, fexp64_spec.
  replace (Z.max (53 + e - 53) (-1074) - e) with 0 by lia. reflexivity.
Qed.

(** A mantissa of [2^53] is halved. *)
Lemma shr_fexp_carry (e : Z) :
  -1074 <= e + 1 ->
  shr_fexp Num.prec Num.emax (2 ^ 53) e loc_Exact
  = (shr_record_of_loc (2 ^ 52) loc_Exact, e + 1).
Proof.
  intros He. unfold shr_fexp, shr. fold (fexp64 (Zdigits2 (2 ^ 53) + e)).
  change (Zdigits2 (2 ^ 53)) with 54. rewrite fexp64_spec.
  replace (Z.max (54 + e - 53) (-1074) - e) with 1 by lia. reflexivity.
Qed.

Lemma pow2_scale_le (a : Z) (x : Q) (b : Z) :
  (pow2 a <= x)%Q -> (pow2 (a + b) <= x * pow2 b)%Q.
Proof.
  intro H. rewrite pow2_add. apply Qmult_le_compat_r; [exact H|].
  apply Qlt_le_weak, pow2_pos.
Qed.

Lemma pow2_scale_lt (a : Z) (x : Q) (b : Z) :
  (x < pow2 a)%Q -> (x * pow2 b < pow2 (a + b))%Q.
Proof.
  intro H. rewrite pow2_add. apply Qmult_lt_compat_r; [apply pow2_pos | exact H].
Qed.

(** Rounding a value that is at less than half a unit in the last place of
    a Number of 53 bits (a quarter below a power of two) returns that
    Number. *)
Lemma round_to_nearest
    (s : bool) (mx ex : Z) (lx : location) (X0 : Q) (m : positive) (e : Z) :
  0 <= mx -> located X0 (shr_record_of_loc mx lx) ->
  ex <= fexp64 (Zdigits2 mx + ex) ->
  Z.pos (digits2_pos m) = 53 -> -1074 <= e <= 971 ->
  let t := (X0 * pow2 (ex - e))%Q in
  (inject_Z (Z.pos m) - (1 # 2) < t < inject_Z (Z.pos m) + (1 # 2))%Q ->
  (Z.pos m = 2 ^ 52 -> (inject_Z (Z.pos m) - (1 # 4) < t)%Q) ->
  binary_round_aux Num.prec Num.emax s mx ex lx = S754_finite s m e.
Proof.
  intros Hm HX Hbits Hd He t [Ht1 Ht2] Hquarter.
  destruct (shr_fexp_spec mx ex lx X0 Hm HX) as (rec' & e' & E1 & He' & Hm' & Hdiv & Hloc & _).
  rewrite Z.max_r in He' by exact Hbits.
  pose proof (NumFacts.digits2_pos_bounds m) as [Hmlo Hmhi]. rewrite Hd in Hmlo, Hmhi.
  change (53 - 1) with 52 in Hmlo.
  assert (HmloQ : (inject_Z (2 ^ 52) <= inject_Z (Z.pos m))%Q) by (rewrite <- Zle_Qle; lia).
  assert (HmhiQ : (inject_Z (Z.pos m) <= inject_Z (2 ^ 53 - 1))%Q) by (rewrite <- Zle_Qle; lia).
  change (inject_Z (2 ^ 52)) with (4503599627370496 # 1)%Q in HmloQ.
  change (inject_Z (2 ^ 53 - 1)) with (9007199254740991 # 1)%Q in HmhiQ.
  set (d := Zdigits2 mx) in *.
  pose proof (located_bounds _ _ HX) as [HXlo HXhi]. rewrite shr_m_of_loc in HXlo, HXhi.
  pose proof (pow2_pos (ex - e)) as HP.
  (* the mantissa is not zero *)
  assert (Hmx : 0 < mx).
  { destruct (Z.eq_dec mx 0) as [E0|]; [|lia]. exfalso.
    unfold d in *. rewrite E0 in *. cbn [Zdigits2] in *.
    change (inject_Z 0) with 0%Q in *.
    assert (Hlt : (pow2 0 < pow2 (ex - e))%Q).
    { rewrite pow2_0. apply (Qlt_trans _ t); [lra|].
      unfold t. setoid_replace (pow2 (ex - e)) with (1 * pow2 (ex - e))%Q at 2 by ring.
      apply Qmult_lt_compat_r; [exact HP | lra]. }
    apply pow2_lt_inv in Hlt. rewrite fexp64_spec in Hbits. lia. }
  destruct (Zdigits2_bounds mx Hmx) as [Hdlo Hdhi]. fold d in Hdlo, Hdhi.
  assert (Hd1 : 1 <= d) by (unfold d; destruct mx; simpl in *; lia).
  assert (Hup : d + ex - e <= 53).
  { assert (Hlt : (pow2 (d - 1 + (ex - e)) < pow2 53)%Q).
    { apply (Qle_lt_trans _ t).
      - apply pow2_scale_le. apply (Qle_trans _ (inject_Z mx)); [|exact HXlo].
        rewrite <- pow2_inject by lia. rewrite <- Zle_Qle. exact Hdlo.
      - change (pow2 53) with (9007199254740992 # 1)%Q. lra. }
    apply pow2_lt_inv in Hlt. lia. }
  assert (Hlow : 52 <= d + ex - e).
  { assert (Hlt : (pow2 51 < pow2 (d + (ex - e)))%Q).
    { apply (Qlt_le_trans _ t).
      - change (pow2 51) with (2251799813685248 # 1)%Q. lra.
      - apply Qlt_le_weak. apply pow2_scale_lt.
        apply (Qlt_le_trans _ (inject_Z mx + 1)); [exact HXhi|].
        rewrite <- pow2_inject by lia.
        change 1%Q with (inject_Z 1). rewrite <- inject_Z_plus, <- Zle_Qle. lia. }
    apply pow2_lt_inv in Hlt. lia. }
  (* the result when the first shift leaves the exponent [e] *)
  assert (Hsame : e' = e -> binary_round_aux Num.prec Num.emax s mx ex lx = S754_finite s m e).
  { intro Ee. rewrite Ee in Hloc.
    assert (Hr : rounded rec' = Z.pos m) by (apply (rounded_unique _ _ _ Hloc); split; assumption).
    unfold binary_round_aux. rewrite E1. fold (rounded rec'). rewrite Hr.
    rewrite Ee.
    rewrite (shr_fexp_53 m e Hd ltac:(lia)). cbn [shr_record_of_loc shr_m].
    replace (e <=? Num.emax - Num.prec) with true; [reflexivity|].
    symmetry. apply Z.leb_le. unfold Num.emax, Num.prec. lia. }
  rewrite fexp64_spec in He'.
  destruct (Z.eq_dec (d + ex - e) 53) as [E53|N53]; [apply Hsame; lia|].
  assert (E52 : d + ex - e = 52) by lia.
  (* below a power of two *)
  assert (Htlt : (t < pow2 52)%Q).
  { replace 52 with (d + (ex - e)) by lia. apply pow2_scale_lt.
    apply (Qlt_le_trans _ (inject_Z mx + 1)); [exact HXhi|].
    rewrite <- pow2_inject by lia.
    change 1%Q with (inject_Z 1). rewrite <- inject_Z_plus, <- Zle_Qle. lia. }
  change (pow2 52) with (4503599627370496 # 1)%Q in Htlt.
  assert (Hm52 : Z.pos m = 2 ^ 52).
  { assert (Hlt : (inject_Z (Z.pos m) < inject_Z (2 ^ 52 + 1))%Q).
    { change (inject_Z (2 ^ 52 + 1)) with (4503599627370497 # 1)%Q. lra. }
    rewrite <- Zlt_Qlt in Hlt. lia. }
  specialize (Hquarter Hm52).
  destruct (Z.eq_dec e (-1074)) as [Emin|Hnmin]; [apply Hsame; lia|].
  assert (Ee' : e' = e - 1) by lia.
  assert (Hloc2 : located (2 * t) rec').
  { apply (located_comp (X0 * pow2 (ex - e'))); [|exact Hloc].
    unfold t. rewrite Ee'. replace (ex - (e - 1)) with (1 + (ex - e)) by lia.
    rewrite pow2_add. change (pow2 1) with 2%Q. ring. }
  assert (Hr : rounded rec' = 2 ^ 53).
  { apply (rounded_unique _ _ _ Hloc2).
    rewrite Hm52 in *. change (inject_Z (2 ^ 52)) with (4503599627370496 # 1)%Q in *.
    change (inject_Z (2 ^ 53)) with (9007199254740992 # 1)%Q. split; lra. }
  unfold binary_round_aux. rewrite E1. fold (rounded rec'). rewrite Hr.
  rewrite Ee'.
  rewrite (shr_fexp_carry (e - 1)) by lia. cbn [shr_record_of_loc shr_m].
  replace (e - 1 + 1) with e by lia.
  rewrite <- Hm52.
  replace (e <=? Num.emax - Num.prec) with true; [reflexivity|].
  symmetry. apply Z.leb_le. unfold Num.emax, Num.prec. lia.
Qed.

End NearestFacts.

(** ** The values that are Numbers *)

Module ValidFacts.

Import Rounding RoundingFacts ErrorFacts NearestFacts.

Lemma located_exists (m : Z) (l : location) :
  exists X, located X (shr_record_of_loc m l).
Proof.
  destruct l as [|[| |]]; unfold located; cbn [shr_record_of_loc shr_m shr_r shr_s].
  - exists (inject_Z m). reflexivity.
  - exists (inject_Z m + (1 # 2))%Q. reflexivity.
  - exists (inject_Z m + (1 # 4))%Q. split; lra.
  - exists (inject_Z m + (3 # 4))%Q. split; lra.
Qed.

(** No shift when the mantissa has no bit in excess. *)
Lemma shr_fexp_same (M e : Z) (l : location) :
  fexp64 (Zdigits2 M + e) <= e ->
  shr_fexp Num.prec Num.emax M e l = (shr_record_of_loc M l, e).
Proof.
  intro H. unfold shr_fexp, shr. fold (fexp64 (Zdigits2 M + e)).
  destruct (fexp64 (Zdigits2 M + e) - e) as [|p|p] eqn:En; try reflexivity. lia.
Qed.

(** Rounding returns binary64 values. *)
Lemma binary_round_aux_valid (s : bool) (mx ex : Z) (lx : location) :
  0 <= mx -> ex <= fexp64 (Zdigits2 mx + ex) ->
  Num.valid (binary_round_aux Num.prec Num.emax s mx ex lx) = true.
Proof.
  intros Hm Hbits.
  destruct (located_exists mx lx) as [X HX].
  destruct (shr_fexp_spec mx ex lx X Hm HX) as (rec' & e' & E1 & He' & Hm' & Hdiv & Hloc & _).
  rewrite Z.max_r in He' by exact Hbits.
  destruct (round_located _ rec' Hloc) as (HM2 & _ & _).
  set (M2 := rounded rec') in *.
  set (d := Zdigits2 mx) in *.
  pose proof (Zdigits2_nonneg mx) as Hd0. fold d in Hd0.
  rewrite fexp64_spec in He'.
  assert (Hpe : 0 <= e' - ex) by (rewrite fexp64_spec in Hbits; lia).
  assert (Hp2 : 0 < 2 ^ (e' - ex)) by (apply Z.pow_pos_nonneg; lia).
  assert (Hlt : shr_m rec' < 2 ^ 53).
  { rewrite Hdiv.
    destruct (Z.eq_dec mx 0) as [->|Hne]; [rewrite Z.div_0_l; lia|].
    destruct (Zdigits2_bounds mx) as [_ Hhi]; [lia|]. fold d in Hhi.
    apply Z.div_lt_upper_bound; [lia|].
    rewrite <- Z.pow_add_r by lia.
    assert (2 ^ d <= 2 ^ (e' - ex + 53)) by (apply Z.pow_le_mono_r; lia). lia. }
  assert (Hlow : e' = -1074 \/ 2 ^ 52 <= shr_m rec').
  { destruct (Z.eq_dec e' (-1074)) as [|Hn]; [left; assumption | right].
    assert (Ee' : e' = d + ex - 53) by lia.
    assert (Hmx : 0 < mx).
    { destruct (Z.eq_dec mx 0) as [E0|]; [|lia].
      unfold d in Ee'. rewrite E0 in Ee'. simpl in Ee'. rewrite fexp64_spec in Hbits.
      unfold d in Hbits. rewrite E0 in Hbits. simpl in Hbits. lia. }
    destruct (Zdigits2_bounds mx Hmx) as [Hlo _]. fold d in Hlo.
    rewrite Hdiv. apply Z.div_le_lower_bound; [lia|].
    rewrite <- Z.pow_add_r by lia.
    replace (e' - ex + 52) with (d - 1) by lia. exact Hlo. }
  unfold binary_round_aux. rewrite E1. fold (rounded rec'). fold M2.
  destruct (Z.eq_dec M2 (2 ^ 53)) as [E53|N53].
  - rewrite E53, (shr_fexp_carry e') by lia. cbn [shr_record_of_loc shr_m].
    change (2 ^ 52) with (Z.pos 4503599627370496).
    cbv iota.
    destruct (Z.leb_spec (e' + 1) (Num.emax - Num.prec)) as [Hle|Hgt]; [|reflexivity].
    apply valid_finite. rewrite fexp64_spec.
    change (Z.pos (digits2_pos 4503599627370496)) with 53.
    unfold Num.emax, Num.prec in Hle. lia.
  - assert (HM53 : M2 < 2 ^ 53) by lia.
    assert (Hdig : Zdigits2 M2 <= 53) by (apply Zdigits2_le; lia).
    rewrite (shr_fexp_same M2 e') by (rewrite fexp64_spec; lia).
    cbn [shr_record_of_loc shr_m].
    destruct M2 as [|p|p] eqn:EM; [reflexivity | | reflexivity].
    destruct (Z.leb_spec e' (Num.emax - Num.prec)) as [Hle|Hgt]; [|reflexivity].
    apply valid_finite. rewrite fexp64_spec.
    change (Z.pos (digits2_pos p)) with (Zdigits2 (Z.pos p)).
    unfold Num.emax, Num.prec in Hle. split; [|lia].
    destruct Hlow as [Emin|H52]; [lia|].
    assert (53 <= Zdigits2 (Z.pos p)) by (apply Zdigits2_ge; lia).
    lia.
Qed.

Lemma div_valid (x y : Num.number) :
  Num.valid x = true -> Num.valid y = true -> Num.valid (Num.div x y) = true.
Proof.
  intros Hx Hy.
  destruct x as [sx|sx| |sx mx ex], y as [sy|sy| |sy my ey]; try reflexivity.
  unfold Num.div, SFdiv.
  destruct (div_core_spec mx my ex ey) as (q & e0 & l & X & Ecore & Hq & Hloc & HX & Hbits).
  rewrite Ecore. apply binary_round_aux_valid; assumption.
Qed.

Lemma of_ratio_valid (neg : bool) (n : Z) (D : positive) :
  Num.valid (Num.of_ratio neg n D) = true.
Proof.
  unfold Num.of_ratio. destruct n as [|p|p]; try reflexivity.
  unfold SFdiv.
  destruct (div_core_spec p D 0 0) as (q & e0 & l & X & Ecore & Hq & Hloc & HX & Hbits).
  rewrite Ecore. apply binary_round_aux_valid; assumption.
Qed.

Lemma decimal_number_valid (neg : bool) (digits exponent : Z) :
  Num.valid (JS.decimal_number neg digits exponent) = true.
Proof. unfold JS.decimal_number. destruct exponent; apply of_ratio_valid. Qed.

(** [parseFloat] returns binary64 values. *)
Lemma parseFloat_valid (input : string) : Num.valid (JS.parseFloat input) = true.
Proof.
  unfold JS.parseFloat, JS.scan_decimal_literal.
  destruct (JS.take_sign (JS.trim_start input)) as [neg S].
  destruct (JS.after_prefix "Infinity" S); [reflexivity|].
  destruct (Digits.span S) as [int r].
  destruct (JS.fraction_part r) as [frac r'].
  destruct (JS.exponent_part r') as [exponent rest].
  destruct int, frac; try reflexivity; apply decimal_number_valid.
Qed.

Lemma Zdigits2_mul (a b : positive) :
  Zdigits2 (Z.pos a) + Zdigits2 (Z.pos b) - 1 <= Zdigits2 (Z.pos a * Z.pos b).
Proof.
  destruct (Zdigits2_bounds (Z.pos a)) as [Ha _]; [lia|].
  destruct (Zdigits2_bounds (Z.pos b)) as [Hb _]; [lia|].
  assert (H1 : 1 <= Zdigits2 (Z.pos a)) by (simpl; lia).
  assert (H2 : 1 <= Zdigits2 (Z.pos b)) by (simpl; lia).
  apply Zdigits2_ge; [lia|].
  replace (Zdigits2 (Z.pos a) + Zdigits2 (Z.pos b) - 1 - 1)
    with ((Zdigits2 (Z.pos a) - 1) + (Zdigits2 (Z.pos b) - 1)) by lia.
  rewrite Z.pow_add_r by lia.
  assert (0 < 2 ^ (Zdigits2 (Z.pos a) - 1)) by (apply Z.pow_pos_nonneg; lia).
  assert (0 < 2 ^ (Zdigits2 (Z.pos b) - 1)) by (apply Z.pow_pos_nonneg; lia).
  nia.
Qed.

(** A product of binary64 values is one. *)
Lemma mul_valid (x y : Num.number) :
  Num.valid x = true -> Num.valid y = true -> Num.valid (Num.mul x y) = true.
Proof.
  intros Hx Hy.
  destruct x as [sx|sx| |sx mx ex], y as [sy|sy| |sy my ey]; try reflexivity.
  apply valid_finite in Hx, Hy. destruct Hx as [Hx _], Hy as [Hy _].
  unfold Num.mul, SFmul.
  apply binary_round_aux_valid; [lia|].
  pose proof (Zdigits2_mul mx my) as Hd.
  change (Z.pos (digits2_pos mx)) with (Zdigits2 (Z.pos mx)) in Hx.
  change (Z.pos (digits2_pos my)) with (Zdigits2 (Z.pos my)) in Hy.
  assert (H1 : 1 <= Zdigits2 (Z.pos mx)) by (simpl; lia).
  assert (H2 : 1 <= Zdigits2 (Z.pos my)) by (simpl; lia).
  rewrite fexp64_spec in *.
  change (Z.pos (mx * my)) with (Z.pos mx * Z.pos my).
  set (d := Zdigits2 (Z.pos mx * Z.pos my)) in *.
  set (dx := Zdigits2 (Z.pos mx)) in *. set (dy := Zdigits2 (Z.pos my)) in *.
  lia.
Qed.

End ValidFacts.

(** ** Numbers from [10^21] on *)

Module LargeFacts.

Import Rounding RoundingFacts ErrorFacts NearestFacts ValidFacts.

(** An integer of more than 53 bits goes to the Number of 53 bits that is at
    less than half a unit in the last place. *)
Lemma integer_nearest (s : bool) (c m : positive) (e : Z) :
  Z.pos (digits2_pos m) = 53 -> 0 <= e <= 971 -> 2 ^ 53 <= Z.pos c ->
  2 * Z.abs (Z.pos c - Z.pos m * 2 ^ e) < 2 ^ e ->
  (Z.pos m = 2 ^ 52 -> 4 * (Z.pos m * 2 ^ e - Z.pos c) < 2 ^ e) ->
  binary_round_aux Num.prec Num.emax s (Z.pos c) 0 loc_Exact = S754_finite s m e.
Proof.
  intros Hd He Hc Hhalf Hquarter.
  assert (Hdig : 54 <= Zdigits2 (Z.pos c)) by (apply Zdigits2_ge; [lia | exact Hc]).
  pose proof (pow2_pos e) as HP.
  assert (HPe : (inject_Z (2 ^ e) == pow2 e)%Q) by (apply pow2_inject; lia).
  assert (Ht : (inject_Z (Z.pos c) * pow2 (0 - e) * pow2 e == inject_Z (Z.pos c))%Q).
  { rewrite <- Qmult_assoc, <- pow2_add. replace (0 - e + e) with 0 by lia.
    rewrite pow2_0. ring. }
  assert (HmP : (inject_Z (Z.pos m * 2 ^ e) == inject_Z (Z.pos m) * pow2 e)%Q)
    by (rewrite inject_Z_mult, HPe; reflexivity).
  assert (H1 : (2 * inject_Z (Z.pos c) - 2 * inject_Z (Z.pos m * 2 ^ e) < inject_Z (2 ^ e))%Q).
  { change 2%Q with (inject_Z 2). rewrite <- !inject_Z_mult.
    unfold Qminus. rewrite <- inject_Z_opp, <- inject_Z_plus, <- Zlt_Qlt. lia. }
  assert (H2 : (2 * inject_Z (Z.pos m * 2 ^ e) - 2 * inject_Z (Z.pos c) < inject_Z (2 ^ e))%Q).
  { change 2%Q with (inject_Z 2). rewrite <- !inject_Z_mult.
    unfold Qminus. rewrite <- inject_Z_opp, <- inject_Z_plus, <- Zlt_Qlt. lia. }
  rewrite HmP, HPe in H1, H2.
  apply (round_to_nearest s (Z.pos c) 0 loc_Exact (inject_Z (Z.pos c)) m e);
    [lia | reflexivity | rewrite fexp64_spec; lia | exact Hd | lia | |].
  - set (t := (inject_Z (Z.pos c) * pow2 (0 - e))%Q) in *.
    set (M := inject_Z (Z.pos m)) in *. set (C := inject_Z (Z.pos c)) in *.
    set (P := pow2 e) in *. clearbody t M C P.
    split.
    + apply (Qmult_lt_r _ _ P HP). rewrite Ht. lra.
    + apply (Qmult_lt_r _ _ P HP). rewrite Ht. lra.
  - intro E52. specialize (Hquarter E52).
    assert (H4 : (4 * inject_Z (Z.pos m * 2 ^ e) - 4 * inject_Z (Z.pos c) < inject_Z (2 ^ e))%Q).
    { change 4%Q with (inject_Z 4). rewrite <- !inject_Z_mult.
      unfold Qminus. rewrite <- inject_Z_opp, <- inject_Z_plus, <- Zlt_Qlt. lia. }
    rewrite HmP, HPe in H4.
    set (t := (inject_Z (Z.pos c) * pow2 (0 - e))%Q) in *.
    set (M := inject_Z (Z.pos m)) in *. set (C := inject_Z (Z.pos c)) in *.
    set (P := pow2 e) in *. clearbody t M C P.
    apply (Qmult_lt_r _ _ P HP). rewrite Ht. lra.
Qed.

(** The conversion of an integer of more than 53 bits is one rounding. *)
Lemma of_Z_big (c : positive) :
  2 ^ 53 <= Z.pos c ->
  Num.of_Z (Z.pos c) = binary_round_aux Num.prec Num.emax false (Z.pos c) 0 loc_Exact.
Proof.
  intro Hc.
  assert (Hdig : 54 <= Zdigits2 (Z.pos c)) by (apply Zdigits2_ge; [lia | exact Hc]).
  unfold Num.of_Z, binary_normalize, binary_round, shl_align.
  fold (fexp64 (Z.pos (digits2_pos c) + 0)). rewrite fexp64_spec.
  change (Z.pos (digits2_pos c)) with (Zdigits2 (Z.pos c)).
  destruct (Z.max (Zdigits2 (Z.pos c) + 0 - 53) (-1074) - 0) as [|q|q] eqn:Eq;
    [reflexivity | reflexivity | lia].
Qed.

Lemma of_ratio_big (neg : bool) (c : positive) :
  2 ^ 53 <= Z.pos c ->
  Num.of_ratio neg (Z.pos c) 1
  = binary_round_aux Num.prec Num.emax neg (Z.pos c) 0 loc_Exact.
Proof.
  intro Hc.
  assert (Hdig : 54 <= Zdigits2 (Z.pos c)) by (apply Zdigits2_ge; [lia | exact Hc]).
  unfold Num.of_ratio, SFdiv, SFdiv_core_binary.
  fold (fexp64 (Zdigits2 (Z.pos c) + 0 - (Zdigits2 1 + 0))). rewrite fexp64_spec.
  change (Zdigits2 1) with 1.
  replace (Z.min (Z.max (Zdigits2 (Z.pos c) + 0 - (1 + 0) - 53) (-1074)) (0 - 0)) with 0 by lia.
  change (0 - 0 - 0) with 0. cbv iota.
  assert (Ediv : Z.div_eucl (Z.pos c) 1 = (Z.pos c, 0)).
  { pose proof (Z.div_1_r (Z.pos c)) as Hq. pose proof (Z.mod_1_r (Z.pos c)) as Hr.
    unfold Z.div, Z.modulo in Hq, Hr.
    destruct (Z.div_eucl (Z.pos c) 1) as [q r]. now subst. }
  rewrite Ediv. rewrite xorb_false_r. reflexivity.
Qed.

(** A binary64 value from [10^21] on is an integer, with a mantissa of 53
    bits. *)
Lemma large_normal (s : bool) (m : positive) (e : Z) :
  Num.valid (S754_finite s m e) = true ->
  (JS.ten21 <= Num.abs_Q (S754_finite s m e))%Q ->
  Z.pos (digits2_pos m) = 53 /\ 17 <= e <= 971
  /\ Num.abs_Q (S754_finite s m e) = inject_Z (Z.pos m * 2 ^ e)
  /\ 10 ^ 21 <= Z.pos m * 2 ^ e.
Proof.
  intros Hv Hbig. apply valid_finite in Hv. destruct Hv as [Hcan Hmax].
  rewrite fexp64_spec in Hcan.
  pose proof (NumFacts.digits2_pos_bounds m) as [Hlo Hhi].
  set (d := Z.pos (digits2_pos m)) in *.
  assert (Hd53 : d <= 53) by lia.
  assert (Hm53 : Z.pos m < 2 ^ 53).
  { assert (2 ^ d <= 2 ^ 53) by (apply Z.pow_le_mono_r; lia). lia. }
  rewrite abs_Q_finite in Hbig.
  assert (He : 17 <= e).
  { destruct (Z_le_gt_dec 17 e) as [|Hlt]; [assumption | exfalso].
    assert (Hle : (pow2 e <= pow2 16)%Q) by (apply pow2_le; lia).
    assert (HmQ : (inject_Z (Z.pos m) <= inject_Z (2 ^ 53))%Q) by (rewrite <- Zle_Qle; lia).
    assert (Hm0 : (0 <= inject_Z (Z.pos m))%Q)
      by (change 0%Q with (inject_Z 0); rewrite <- Zle_Qle; lia).
    pose proof (pow2_pos e) as HP.
    assert (Hprod : (inject_Z (Z.pos m) * pow2 e <= inject_Z (2 ^ 53) * pow2 16)%Q).
    { apply (Qle_trans _ (inject_Z (2 ^ 53) * pow2 e)).
      - apply Qmult_le_compat_r; [exact HmQ | lra].
      - apply Qmult_le_l; [reflexivity | exact Hle]. }
    change (inject_Z (2 ^ 53) * pow2 16)%Q with ((9007199254740992 # 1) * (65536 # 1))%Q in Hprod.
    change JS.ten21 with (1000000000000000000000 # 1)%Q in Hbig.
    set (v := (inject_Z (Z.pos m) * pow2 e)%Q) in *. clearbody v.
    assert (((9007199254740992 # 1) * (65536 # 1) < 1000000000000000000000 # 1)%Q) by reflexivity.
    lra. }
  split; [lia|]. split; [lia|].
  assert (Eabs : Num.abs_Q (S754_finite s m e) = inject_Z (Z.pos m * 2 ^ e))
    by (unfold Num.abs_Q; destruct e; [reflexivity | reflexivity | lia]).
  split; [exact Eabs|].
  rewrite <- (pow2_inject e), <- inject_Z_mult in Hbig by lia.
  unfold JS.ten21 in Hbig. rewrite <- Zle_Qle in Hbig. exact Hbig.
Qed.

End LargeFacts.

(** ** The shortest decimal of a Number from [10^21] on *)

Module ShortestFacts.

Import Rounding RoundingFacts ErrorFacts NearestFacts ValidFacts LargeFacts.
Import ToStringFacts.

(** Sixteen decimal digits separate the Numbers of 53 bits. *)
Lemma scale_below_ulp (scale P m E : Z) :
  0 < E -> 0 < scale -> scale * 10 ^ 16 <= P -> P = m * E -> 0 < m < 2 ^ 53 ->
  scale < E /\ (m = 2 ^ 52 -> 2 * scale < E).
Proof.
  intros HE Hs Hle -> Hm.
  change (10 ^ 16) with 10000000000000000 in Hle.
  change (2 ^ 53) with 9007199254740992 in Hm.
  change (2 ^ 52) with 4503599627370496.
  split.
  - destruct (Z_lt_ge_dec scale E) as [|Hge]; [assumption | exfalso]. nia.
  - intros ->. destruct (Z_lt_ge_dec (2 * scale) E) as [|Hge]; [assumption | exfalso]. nia.
Qed.

(** A decimal at less than half a unit in the last place of a Number
    reads back as that Number. *)
Lemma of_Z_nearest (c : Z) (m : positive) (e : Z) :
  Z.pos (digits2_pos m) = 53 -> 0 <= e <= 971 -> 2 ^ 53 <= c ->
  2 * Z.abs (c - Z.pos m * 2 ^ e) < 2 ^ e ->
  (Z.pos m = 2 ^ 52 -> 4 * (Z.pos m * 2 ^ e - c) < 2 ^ e) ->
  Num.of_Z c = S754_finite false m e.
Proof.
  intros Hd He Hc Hhalf Hquarter.
  destruct c as [|c|c]; try lia.
  rewrite (of_Z_big c Hc). now apply integer_nearest.
Qed.

(** The search for the shortest significand ends within seventeen digits,
    on a decimal that reads back. *)
Lemma shortest_significand_reads_back (m : positive) (e n : Z) :
  Z.pos (digits2_pos m) = 53 -> 0 <= e <= 971 -> 22 <= n ->
  10 ^ (n - 1) <= Z.pos m * 2 ^ e < 10 ^ n ->
  forall fuel k, 1 <= k -> Z.of_nat fuel + k = 18 -> (0 < fuel)%nat ->
  exists s k',
    JS.shortest_significand fuel (S754_finite false m e) (Z.pos m * 2 ^ e) n k = (s, k')
    /\ k <= k' <= 17 /\ 10 ^ (k' - 1) <= s <= 10 ^ k'
    /\ Num.of_Z (s * 10 ^ (n - k')) = S754_finite false m e.
Proof.
  intros Hd He Hn HP.
  set (P := Z.pos m * 2 ^ e) in *. set (x := S754_finite false m e).
  pose proof (NumFacts.digits2_pos_bounds m) as [_ Hm53]. rewrite Hd in Hm53.
  assert (HE : 0 < 2 ^ e) by (apply Z.pow_pos_nonneg; lia).
  induction fuel as [|fuel IH]; intros k Hk Hsum Hpos; [lia|].
  cbn [JS.shortest_significand].
  set (scale := 10 ^ (n - k)). set (lo := P / scale).
  assert (Hscale : 0 < scale) by (apply Z.pow_pos_nonneg; lia).
  assert (Hsplit1 : 10 ^ (n - 1) = 10 ^ (k - 1) * scale).
  { unfold scale. rewrite <- Z.pow_add_r by lia. f_equal. lia. }
  assert (Hsplit : 10 ^ n = 10 ^ k * scale).
  { unfold scale. rewrite <- Z.pow_add_r by lia. f_equal. lia. }
  assert (Hk1 : 0 < 10 ^ (k - 1)) by (apply Z.pow_pos_nonneg; lia).
  assert (Hk10 : 10 ^ k = 10 * 10 ^ (k - 1)).
  { replace k with (1 + (k - 1)) at 1 by lia. rewrite Z.pow_add_r by lia. reflexivity. }
  pose proof (Z.mul_div_le P scale Hscale) as Hlo1.
  pose proof (Z.mul_succ_div_gt P scale Hscale) as Hlo2.
  fold lo in Hlo1, Hlo2.
  assert (Hlo : 10 ^ (k - 1) <= lo < 10 ^ k).
  { split.
    - apply Z.div_le_lower_bound; [exact Hscale | lia].
    - apply Z.div_lt_upper_bound; [exact Hscale | lia]. }
  assert (Hback : forall s, JS.reads_back x s scale = true ->
                            Num.of_Z (s * scale) = x).
  { intros s H. unfold JS.reads_back in H. now apply SFeqb_finite in H. }
  destruct (JS.reads_back x lo scale) eqn:Elo, (JS.reads_back x (lo + 1) scale) eqn:Ehi.
  - destruct (P - lo * scale ?= (lo + 1) * scale - P); [destruct (Z.even lo)| |].
    + exists lo, k. repeat split; try lia. now apply Hback.
    + exists (lo + 1), k. repeat split; try lia. now apply Hback.
    + exists lo, k. repeat split; try lia. now apply Hback.
    + exists (lo + 1), k. repeat split; try lia. now apply Hback.
  - exists lo, k. repeat split; try lia. now apply Hback.
  - exists (lo + 1), k. repeat split; try lia. now apply Hback.
  - destruct fuel as [|fuel].
    + exfalso.
      assert (Ek : k = 17) by lia.
      assert (H16 : scale * 10 ^ 16 <= P).
      { rewrite Ek in Hsplit1. change (17 - 1) with 16 in Hsplit1. lia. }
      destruct (scale_below_ulp scale P (Z.pos m) (2 ^ e) HE Hscale H16 eq_refl ltac:(lia))
        as [Hs1 Hs2].
      assert (Hbig : 2 ^ 53 <= lo * scale).
      { assert (10 ^ 21 <= 10 ^ (n - 1)) by (apply Z.pow_le_mono_r; lia).
        assert (2 ^ 53 <= 10 ^ 21) by (vm_compute; discriminate).
        nia. }
      destruct (Z_le_gt_dec (2 * (P - lo * scale)) scale) as [Hnear|Hfar].
      * assert (E : Num.of_Z (lo * scale) = x).
        { apply of_Z_nearest; [exact Hd | lia | exact Hbig | fold P; lia |].
          intro E52. fold P. specialize (Hs2 E52). lia. }
        unfold JS.reads_back in Elo. rewrite E in Elo. unfold x in Elo.
        rewrite SFeqb_refl in Elo. discriminate.
      * assert (E : Num.of_Z ((lo + 1) * scale) = x).
        { apply of_Z_nearest; [exact Hd | lia | lia | fold P; lia |].
          intro E52. fold P. lia. }
        unfold JS.reads_back in Ehi. rewrite E in Ehi. unfold x in Ehi.
        rewrite SFeqb_refl in Ehi. discriminate.
    + destruct (IH (k + 1)) as (s & k' & E & Hk' & Hs & Hr); [lia | lia | lia |].
      exists s, k'. split; [exact E|]. split; [lia|]. split; assumption.
Qed.

End ShortestFacts.

(** ** [toFixed] and [parseFloat] from [10^21] on *)

Module ExponentFacts.

Import Digits DigitsFacts JS JSFacts DecimalFacts.
Import Rounding RoundingFacts NearestFacts ValidFacts LargeFacts ShortestFacts.
Import ToStringFacts.
Local Open Scope string_scope.

(** [parseFloat] reads back a decimal written with a sign, a digit, a point
    and digits when there are more digits, and an exponent. *)
Lemma parseFloat_exponential (neg : bool) (d : ascii) (rest E : string) :
  is_digit d = true -> all_digits rest = true -> all_digits E = true -> E <> "" ->
  parseFloat (sign_string neg
              ++ match rest with
                 | EmptyString => String d rest
                 | _ => String d ("." ++ rest)
                 end ++ "e+" ++ E)
  = decimal_number neg (value (String d rest))
      (value E - Z.of_nat (String.length rest)).
Proof.
  intros Hd Hrest HE HEne.
  assert (Hone : all_digits (String d "") = true) by (simpl; now rewrite Hd).
  assert (Hexp : exponent_part ("e+" ++ E) = (value E, "")).
  { pose proof (span_digits E "" HE I) as Hsp. rewrite append_empty_r in Hsp.
    cbn [append]. unfold exponent_part.
    change (Ascii.eqb "e" "e") with true. cbn [orb]. unfold take_sign.
    change (Ascii.eqb "+" "-") with false. change (Ascii.eqb "+" "+") with true. cbv iota.
    rewrite Hsp. destruct E; [congruence | reflexivity]. }
  unfold parseFloat, scan_decimal_literal.
  destruct rest as [|c r].
  - pose proof (take_sign_digits neg (String d "") ("e+" ++ E) Hone ltac:(discriminate)) as Ht.
    cbn [append] in Ht |- *. rewrite Ht.
    pose proof (not_Infinity (String d "") ("e+" ++ E) Hone ltac:(discriminate)) as Hi.
    cbn [append] in Hi. rewrite Hi.
    pose proof (span_digits (String d "") ("e+" ++ E) Hone eq_refl) as Hs.
    cbn [append] in Hs. rewrite Hs.
    unfold fraction_part. change (Ascii.eqb "e" ".") with false. cbv iota.
    change (String "e" (String "+" E)) with ("e+" ++ E). rewrite Hexp.
    cbn [String.length append]. f_equal.
  - pose proof (take_sign_digits neg (String d "") ("." ++ String c r ++ "e+" ++ E) Hone
                  ltac:(discriminate)) as Ht.
    cbn [append] in Ht |- *. rewrite Ht.
    pose proof (not_Infinity (String d "") ("." ++ String c r ++ "e+" ++ E) Hone
                  ltac:(discriminate)) as Hi.
    cbn [append] in Hi. rewrite Hi.
    pose proof (span_digits (String d "") ("." ++ String c r ++ "e+" ++ E) Hone eq_refl) as Hs.
    cbn [append] in Hs. rewrite Hs.
    unfold fraction_part. change (Ascii.eqb "." ".") with true. cbv iota.
    pose proof (span_digits (String c r) ("e+" ++ E) Hrest eq_refl) as Hf.
    cbn [append] in Hf. rewrite Hf.
    change (String "e" (String "+" E)) with ("e+" ++ E). rewrite Hexp.
    reflexivity.
Qed.

Lemma pow10_digits (s a b : Z) :
  10 ^ (a - 1) <= s < 10 ^ a -> 10 ^ (b - 1) <= s < 10 ^ b -> a = b.
Proof.
  intros Ha Hb.
  destruct (Z_lt_le_dec a b) as [Hlt|Hle].
  - assert (10 ^ a <= 10 ^ (b - 1)) by (apply Z.pow_le_mono_r; lia). lia.
  - destruct (Z.eq_dec a b) as [|Hne]; [assumption|].
    assert (10 ^ b <= 10 ^ (a - 1)) by (apply Z.pow_le_mono_r; lia). lia.
Qed.

(** A Number from [10^21] on is read back from its string. *)
Lemma parseFloat_toString_exponential (neg : bool) (m : positive) (e : Z) :
  Z.pos (digits2_pos m) = 53 -> 0 <= e <= 971 -> 10 ^ 21 <= Z.pos m * 2 ^ e ->
  parseFloat (sign_string neg ++ toString_exponential (S754_finite false m e))
  = S754_finite neg m e.
Proof.
  intros Hd He Hbig.
  unfold toString_exponential.
  assert (Eabs : Num.abs_Q (S754_finite false m e) = inject_Z (Z.pos m * 2 ^ e))
    by (unfold Num.abs_Q; destruct e; [reflexivity | reflexivity | lia]).
  rewrite Eabs, Qfloor_Z.
  set (P := Z.pos m * 2 ^ e) in *.
  pose proof (of_Z_length P ltac:(lia)) as HL. cbn zeta in HL.
  set (n := Z.of_nat (String.length (of_Z P))) in *.
  assert (Hn : 22 <= n).
  { destruct (Z_le_gt_dec 22 n) as [|Hlt]; [assumption | exfalso].
    assert (10 ^ n <= 10 ^ 21) by (apply Z.pow_le_mono_r; lia). lia. }
  destruct (shortest_significand_reads_back m e n Hd He Hn HL 17%nat 1)
    as (s & k & E & Hk & Hs & Hr); [lia | reflexivity | lia |].
  fold P in E. rewrite E.
  assert (Hk1 : 0 < 10 ^ (k - 1)) by (apply Z.pow_pos_nonneg; lia).
  assert (Hscale : 0 < 10 ^ (n - k)) by (apply Z.pow_pos_nonneg; lia).
  set (c := s * 10 ^ (n - k)) in *.
  assert (Hc : 2 ^ 53 <= c).
  { assert (10 ^ 21 <= 10 ^ (n - 1)) by (apply Z.pow_le_mono_r; lia).
    assert (2 ^ 53 <= 10 ^ 21) by (vm_compute; discriminate).
    assert (10 ^ (n - 1) = 10 ^ (k - 1) * 10 ^ (n - k)).
    { rewrite <- Z.pow_add_r by lia. f_equal. lia. }
    unfold c. nia. }
  assert (Hfinal : Num.of_ratio neg c 1 = S754_finite neg m e).
  { destruct c as [|p|p]; try lia.
    rewrite (of_ratio_big neg p Hc).
    rewrite (of_Z_big p Hc) in Hr.
    destruct neg; [|exact Hr].
    pose proof (binary_round_aux_opp false (Z.pos p) 0 loc_Exact) as Ho.
    cbn [negb] in Ho. rewrite Ho, Hr. reflexivity. }
  (* the decimal that is read *)
  assert (Hread : forall s' n' : Z,
             0 < s' -> 1 <= n' -> 0 < n' - Z.of_nat (String.length (of_Z s')) ->
             s' * 10 ^ (n' - Z.of_nat (String.length (of_Z s'))) = c ->
             parseFloat (sign_string neg
                         ++ match of_Z s' with
                            | String d EmptyString => of_Z s'
                            | String d rest => String d ("." ++ rest)
                            | EmptyString => of_Z s'
                            end ++ "e+" ++ of_Z (n' - 1))
             = S754_finite neg m e).
  { intros s' n' Hs' Hn' Hexp Hval.
    destruct (of_Z_spec s' ltac:(lia)) as (Ha & Hne & Hv).
    destruct (of_Z_spec (n' - 1) ltac:(lia)) as (HaE & HneE & HvE).
    destruct (of_Z s') as [|d rest] eqn:Ed; [congruence|].
    cbn [all_digits] in Ha. apply andb_true_iff in Ha as [Hdd Hrest].
    pose proof (parseFloat_exponential neg d rest (of_Z (n' - 1)) Hdd Hrest HaE HneE) as Hp.
    rewrite Hv, HvE in Hp.
    cbn [String.length] in Hval, Hexp.
    replace (n' - 1 - Z.of_nat (String.length rest))
      with (n' - Z.of_nat (S (String.length rest))) in Hp by lia.
    assert (Edec : decimal_number neg s' (n' - Z.of_nat (S (String.length rest)))
                   = Num.of_ratio neg c 1).
    { rewrite <- Hval. unfold decimal_number.
      destruct (n' - Z.of_nat (S (String.length rest))); [reflexivity | reflexivity | lia]. }
    rewrite Edec, Hfinal in Hp.
    destruct rest as [|c' r]; exact Hp. }
  destruct (Z.eqb_spec s (10 ^ k)) as [Es|Hns].
  - apply (Hread 1 (n + 1)); try lia.
    + change (of_Z 1) with "1". cbn [String.length]. lia.
    + change (of_Z 1) with "1". cbn [String.length].
      unfold c. rewrite Es, <- Z.pow_add_r by lia.
      rewrite Z.mul_1_l. f_equal. lia.
  - assert (Hsk : 10 ^ (k - 1) <= s < 10 ^ k) by lia.
    pose proof (of_Z_length s ltac:(lia)) as HLs. cbn zeta in HLs.
    pose proof (pow10_digits s _ k HLs Hsk) as EL.
    apply (Hread s n); try lia.
    rewrite EL. reflexivity.
Qed.

(** [parseFloat(x.toFixed(f))] is [x] itself from [10^21] on. *)
Lemma parseFloat_toFixed_large (x : Num.number) (f : nat) :
  Num.valid x = true -> Num.is_finite x = true -> (ten21 <= Num.abs_Q x)%Q ->
  parseFloat (toFixed x f) = x.
Proof.
  intros Hv Hfin Hbig.
  destruct x as [s|s| |s m e]; try discriminate.
  - exfalso. apply Qle_not_lt in Hbig. apply Hbig. reflexivity.
  - destruct (large_normal s m e Hv Hbig) as (Hd & He & _ & HP).
    unfold toFixed. cbn [Num.is_finite negb Num.is_negative SFabs].
    apply Qle_bool_iff in Hbig. rewrite Hbig.
    apply parseFloat_toString_exponential; [exact Hd | lia | exact HP].
Qed.

(** The quotient of an integer multiple of a Number is that Number. *)
Lemma of_ratio_integer (neg : bool) (m : positive) (e : Z) (D : positive) :
  Z.pos (digits2_pos m) = 53 -> 0 <= e <= 971 ->
  Num.of_ratio neg (Z.pos m * 2 ^ e * Z.pos D) D = S754_finite neg m e.
Proof.
  intros Hd He.
  assert (HE : 0 < 2 ^ e) by (apply Z.pow_pos_nonneg; lia).
  destruct (Z.pos m * 2 ^ e * Z.pos D) as [|p|p] eqn:Ep; try lia.
  unfold Num.of_ratio, SFdiv.
  destruct (div_core_spec p D 0 0) as (q & e0 & l & X & Ecore & Hq & Hloc & HX & Hbits).
  rewrite Ecore, xorb_false_r.
  assert (Ht : (X * pow2 (e0 - e) == inject_Z (Z.pos m))%Q).
  { assert (Hv : (X * pow2 e0 == inject_Z (Z.pos m) * pow2 e)%Q).
    { rewrite HX, pow2_0, !Qmult_1_r, <- Ep, !inject_Z_mult, (pow2_inject e) by lia.
      field. intro H. unfold Qeq in H. simpl in H. lia. }
    replace (e0 - e) with (e0 + - e) by lia.
    rewrite pow2_add, Qmult_assoc, Hv, <- Qmult_assoc.
    rewrite (Qmult_comm (pow2 e)), pow2_opp. ring. }
  apply (round_to_nearest neg q e0 l X m e Hq Hloc Hbits Hd); [lia | |].
  - rewrite Ht. split; lra.
  - intros _. rewrite Ht. lra.
Qed.

(** From [10^21] on, rounding to decimal places changes nothing. *)
Lemma of_decimal_large (x : Num.number) (f : nat) :
  Num.valid x = true -> Num.is_finite x = true -> (ten21 <= Num.abs_Q x)%Q ->
  Num.of_decimal (Num.is_negative x)
    (Spec.round_half_away_from_zero (Num.to_Q x * inject_Z (10 ^ Z.of_nat f))) f = x.
Proof.
  intros Hv Hfin Hbig.
  destruct x as [s|s| |s m e]; try discriminate.
  - exfalso. apply Qle_not_lt in Hbig. apply Hbig. reflexivity.
  - destruct (large_normal s m e Hv Hbig) as (Hd & He & Eabs & HP).
    pose proof (NumFacts.pow10_pos f) as Hf.
    set (P := Z.pos m * 2 ^ e) in *. set (T := 10 ^ Z.of_nat f) in *.
    assert (Er : Spec.round_half_away_from_zero (Num.to_Q (S754_finite s m e) * inject_Z T)
                 = if s then - (P * T) else P * T).
    { apply SpecFacts.round_half_away_from_zero_unique.
      unfold Num.to_Q. cbn [Num.is_negative]. rewrite Eabs.
      assert (Hz : ((if s then - inject_Z P else inject_Z P) * inject_Z T
                    - inject_Z (if s then - (P * T) else P * T) == 0)%Q).
      { destruct s; [rewrite inject_Z_opp|]; rewrite inject_Z_mult; ring. }
      rewrite Hz. reflexivity. }
    rewrite Er. cbn [Num.is_negative].
    assert (HPT : 0 < P * T) by nia.
    pose proof (of_ratio_integer s m e (Z.to_pos T) Hd ltac:(lia)) as Hq.
    rewrite Z2Pos.id in Hq by exact Hf. fold P in Hq.
    unfold Num.of_decimal.
    destruct s.
    + destruct (P * T) as [|p|p] eqn:Ep; try lia. cbn [Z.opp]. exact Hq.
    + destruct (P * T) as [|p|p] eqn:Ep; try lia. exact Hq.
Qed.

(** [parseFloat(x.toFixed(f))] on every finite binary64 value: the Number
    nearest to [x] rounded to [f] decimal places, half away from zero. *)
Lemma parseFloat_toFixed_valid (x : Num.number) (f : nat) :
  Num.valid x = true -> Num.is_finite x = true ->
  parseFloat (toFixed x f)
  = Num.of_decimal (Num.is_negative x)
      (Spec.round_half_away_from_zero (Num.to_Q x * inject_Z (10 ^ Z.of_nat f))) f.
Proof.
  intros Hv Hfin.
  destruct (Qlt_le_dec (Num.abs_Q x) ten21) as [Hlt|Hge].
  - now apply UnitFacts.parseFloat_toFixed_round.
  - rewrite (of_decimal_large x f Hv Hfin Hge). now apply parseFloat_toFixed_large.
Qed.

End ExponentFacts.

(** ** The conversion at a rate, for every product *)

Module RateFacts.

Import Rounding RoundingFacts ErrorFacts ValidFacts ExponentFacts.

(** [parseFloat(x.toFixed(f))] is [x] when [x] is an infinity or NaN. *)
Lemma parseFloat_toFixed_not_finite (x : Num.number) (f : nat) :
  Num.is_finite x = false -> JS.parseFloat (JS.toFixed x f) = x.
Proof.
  destruct x as [s|[|]| |s m e]; try discriminate; reflexivity.
Qed.

(** What [to(rate)] returns for a product [p] of binary64 values. *)
Lemma rate_result (p : Num.number) :
  Num.valid p = true ->
  JS.parseFloat (JS.toFixed p 2)
  = if Num.is_finite p
    then Num.of_decimal (Num.is_negative p)
           (Spec.round_half_away_from_zero (Num.to_Q p * inject_Z (10 ^ Z.of_nat 2))) 2
    else p.
Proof.
  intro Hv. destruct (Num.is_finite p) eqn:Hfin.
  - now apply parseFloat_toFixed_valid.
  - now apply parseFloat_toFixed_not_finite.
Qed.

(** [to(rate)] on a rate that is not [<= 0], whatever the product. *)
Lemma to_rate_valid (this : Unit.instance) (rate : Num.number) :
  Num.valid rate = true -> Num.leb rate Num.pos_zero = false ->
  let primary :=
    JS.parseFloat (JS.toFixed (Num.div (Unit._value this) (Num.of_Z 100000000)) 8) in
  let product := Num.mul primary rate in
  Num.valid product = true
  /\ Unit.to (VNumber rate) this = (Normal (JS.parseFloat (JS.toFixed product 2)), this).
Proof.
  intros Hv Hrate primary product. split.
  - apply mul_valid; [apply parseFloat_valid | exact Hv].
  - unfold Unit.to. cbn [isNumber ToNumber]. rewrite Hrate.
    unfold Unit.then_. rewrite UnitFacts.get_BLK. reflexivity.
Qed.

(** The conversion at a rate, once the BLK value is known, for every finite
    product. *)
Lemma rate_conversion_valid (B R : Num.number) :
  let p := Num.mul B R in
  Num.valid p = true -> Num.is_finite p = true ->
  let n := Spec.round_half_away_from_zero (Num.to_Q p * inject_Z (10 ^ Z.of_nat 2)) in
  let r := Num.of_decimal (Num.is_negative p) n 2 in
  Num.is_finite r = true
  /\ (Qabs (Num.to_Q p - Num.to_Q B * Num.to_Q R) <= u53 * Qabs (Num.to_Q p) + eta)%Q
  /\ (Qabs (inject_Z n / inject_Z 100 - Num.to_Q p) <= 1 # 200)%Q
  /\ (Qabs (Num.to_Q r - inject_Z n / inject_Z 100) <= u53 * Qabs (Num.to_Q r) + eta)%Q.
Proof.
  intros p Hv Hfin n r.
  destruct (Qlt_le_dec (Num.abs_Q p) JS.ten21) as [Hlt|Hge].
  - destruct (rate_conversion B R Hfin Hlt) as (_ & H). exact H.
  - assert (Hc : (Qabs (inject_Z n / inject_Z 100 - Num.to_Q p) <= 1 # 200)%Q)
      by apply (SpecFacts.round_places_2_error (Num.to_Q p)).
    assert (Hfr : Num.is_finite r = true).
    { unfold r, n. now rewrite (of_decimal_large p 2 Hv Hfin Hge). }
    split; [exact Hfr|]. split; [|split; [exact Hc|]].
    + apply mul_error; [apply (mul_finite_l _ _ Hfin) | apply (mul_finite_r _ _ Hfin) | exact Hfin].
    + apply (of_decimal_error _ n 2 Hfr).
Qed.

(** The conversion at a rate of an instance that holds an integer [M] of
    at most 51 bits: within 0.005 of [M / 10^8 * rate], up to the rounding of
    the arithmetic, for every finite product. *)
Lemma rate_error_valid (x : Num.number) (M : Z) (rate : Num.number) :
  Num.is_finite x = true -> (Num.to_Q x == inject_Z M)%Q -> Z.abs M <= 2 ^ 51 ->
  Num.valid rate = true -> Num.leb rate Num.pos_zero = false ->
  let primary := JS.parseFloat (JS.toFixed (Num.div x (Num.of_Z 100000000)) 8) in
  let product := Num.mul primary rate in
  Num.is_finite product = true ->
  let result :=
    Num.of_decimal (Num.is_negative product)
      (Spec.round_half_away_from_zero
         (Num.to_Q product * inject_Z (10 ^ Z.of_nat 2))) 2 in
  Num.is_finite result = true
  /\ (Qabs (Num.to_Q result - inject_Z M / inject_Z 100000000 * Num.to_Q rate)
      <= (1 # 200)
         + (1 # 2 ^ 50)
           * (Qabs (inject_Z M / inject_Z 100000000 * Num.to_Q rate)
              + Num.to_Q rate + 1))%Q.
Proof.
  intros Hfx Hval HM Hv Hrate primary product Hfin result.
  assert (HfR : Num.is_finite rate = true) by apply (mul_finite_r _ _ Hfin).
  destruct (positive_rate rate HfR Hrate) as [HR _].
  destruct (primary_of_integer x M Hfx Hval HM) as (_ & HfB & F4).
  fold primary in HfB, F4.
  assert (Hvp : Num.valid product = true)
    by (apply mul_valid; [apply parseFloat_valid | exact Hv]).
  destruct (rate_conversion_valid primary rate Hvp Hfin) as (Hfr & F5 & F6 & F7).
  fold product in Hfr, F5, F6, F7. fold result in Hfr, F7.
  split; [exact Hfr|].
  set (R := Num.to_Q rate) in *.
  assert (HR0 : (0 <= R)%Q) by lra.
  assert (G4 : (Qabs (R * Num.to_Q primary - inject_Z M / inject_Z 100000000 * R)
                <= (1 # 9007199254740992) * Qabs (R * Num.to_Q primary)
                   + R * (1 # 1267650600228229401496703205376))%Q).
  { pose proof (scale_error R _ _ HR0 F4) as G.
    now rewrite (Qmult_comm R (inject_Z M / inject_Z 100000000)) in G. }
  assert (G5 : (Qabs (Num.to_Q product - R * Num.to_Q primary)
                <= (1 # 9007199254740992) * Qabs (Num.to_Q product)
                   + (1 # 1267650600228229401496703205376))%Q).
  { apply weaken_eta. now rewrite (Qmult_comm R). }
  apply weaken_eta in F7.
  change (1 # 2 ^ 50)%Q with (1 # 1125899906842624)%Q.
  apply (chain_bound_rate _ _ _ _ _ R HR0 G4 G5 F6 F7).
Qed.

End RateFacts.

(** * The claims of the specification *)

(** C1 (as amended).  For every amount and recognized code, let [rawUnits]
    be the binary64 product [amount * scale(code)] the program computes.  When
    [rawUnits] is finite and below [10^21] in absolute value, construction
    succeeds and the magnitude is the Number for
    [round_half_away_from_zero(rawUnits)]; up to [2^53] that Number is the
    integer itself; and the integer is within [1/2], and the relative error
    [2^-52] of the multiplication, of the real product
    [amount * scale(code)]. *)
Theorem construct_rounds_product (amount : value) (code : string) :
  Spec.recognized code ->
  let rawUnits := Num.mul (ToNumber amount) (Num.of_Z (Spec.scale code)) in
  Num.is_finite rawUnits = true ->
  (Num.abs_Q rawUnits < JS.ten21)%Q ->
  let rounded := Spec.round_half_away_from_zero (Num.to_Q rawUnits) in
  let magnitude := Num.of_integer (Num.is_negative rawUnits) rounded in
  let product := (Num.to_Q (ToNumber amount) * inject_Z (Spec.scale code))%Q in
  Unit.construct amount (VString code) = Normal {| Unit._value := magnitude |}
  /\ (Z.abs rounded <= 2 ^ 53 -> (Num.to_Q magnitude == inject_Z rounded)%Q)
  /\ (Qabs (inject_Z rounded - product)
      <= (1 # 2) + (1 # 2 ^ 52) * (Qabs product + 1))%Q.
Proof.
  intros Hc rawUnits Hfin Hlt rounded magnitude product.
  split; [|split].
  - apply (UnitFacts.construct_round amount code Hc Hfin Hlt).
  - apply NumFacts.of_integer_exact.
  - destruct (UnitFacts.scale_exact code Hc) as [Hfs Hs].
    apply (ErrorFacts.units_error (ToNumber amount) _ _ Hs Hfs Hfin).
Qed.

(** C1, an instance: 1.234567895 BLK is stored as 123456790 atomic units. *)
Lemma construct_rounds_product_witness :
  Unit.construct (VNumber (Num.of_ratio false 1234567895 1000000000)) (VString "BLK")
  = Normal {| Unit._value := Num.of_Z 123456790 |}.
Proof.
  destruct (construct_rounds_product
              (VNumber (Num.of_ratio false 1234567895 1000000000)) "BLK")
    as [H _].
  - unfold Spec.recognized. simpl. auto.
  - reflexivity.
  - reflexivity.
  - exact H.
Defined.

(** C1 as stated fails, in two ways.  The amount 0.015 uBLK is the Number
    nearest to 0.015, which is below 0.015: its product with the scale 100 is
    below 1.5 and rounds to 1, but the binary64 product is 1.5 and the
    magnitude stored is 2.  The amount [10^21] ratoshis is a Number and its
    product with the scale 1 is [10^21], already an integer, but the
    magnitude stored is 1: [toFixed] writes "1e+21", of which [parseInt]
    reads the "1". *)
Lemma construct_not_real_rounding :
  (let amount := Num.of_decimal false 15 3 in
   Spec.recognized "uBLK"
   /\ Spec.round_half_away_from_zero
        (Num.to_Q amount * inject_Z (Spec.scale "uBLK")) = 1
   /\ Unit.construct (VNumber amount) (VString "uBLK")
      = Normal {| Unit._value := Num.of_Z 2 |}
   /\ (Num.to_Q (Num.of_Z 2) == 2)%Q)
  /\ (let amount := Num.of_Z (10 ^ 21) in
      Spec.recognized "ratoshis"
      /\ (Num.to_Q amount == inject_Z (10 ^ 21))%Q
      /\ Spec.round_half_away_from_zero
           (Num.to_Q amount * inject_Z (Spec.scale "ratoshis")) = 10 ^ 21
      /\ JS.toFixed (Num.mul amount (Num.of_Z (Spec.scale "ratoshis"))) 0 = "1e+21"%string
      /\ Unit.construct (VNumber amount) (VString "ratoshis")
         = Normal {| Unit._value := Num.of_Z 1 |}
      /\ (Num.to_Q (Num.of_Z 1) == 1)%Q).
Proof.
  split; intro amount.
  - split; [unfold Spec.recognized; simpl; auto|].
    split; [vm_compute; reflexivity|].
    split; vm_compute; reflexivity.
  - split; [unfold Spec.recognized; simpl; auto|].
    split; [vm_compute; reflexivity|].
    split; [vm_compute; reflexivity|].
    split; [vm_compute; reflexivity|].
    split; vm_compute; reflexivity.
Qed.

(** C2.  A rate that is zero or negative ([rate <= 0]) makes the
    construction from fiat and the conversion to fiat throw [InvalidRate]
    with that rate, whatever the amount; nothing else is computed and the
    instance is left as it was. *)
Theorem nonpositive_rate_rejected
    (amount : value) (rate : Num.number) (this : Unit.instance) :
  Num.leb rate Num.pos_zero = true ->
  Unit.construct amount (VNumber rate) = Throw (InvalidRate (VNumber rate))
  /\ Unit.fromFiat amount (VNumber rate) = Throw (InvalidRate (VNumber rate))
  /\ Unit.to (VNumber rate) this = (Throw (InvalidRate (VNumber rate)), this)
  /\ Unit.atRate (VNumber rate) this = (Throw (InvalidRate (VNumber rate)), this).
Proof.
  intro H.
  unfold Unit.fromFiat, Unit.atRate, Unit.construct, Unit.to.
  cbn [isNumber ToNumber]. rewrite H. repeat split; reflexivity.
Qed.

(** C2, an instance: the rate -1. *)
Lemma nonpositive_rate_rejected_witness :
  Unit.fromFiat (VNumber (Num.of_Z 5)) (VNumber (Num.of_Z (-1)))
  = Throw (InvalidRate (VNumber (Num.of_Z (-1)))).
Proof.
  apply (nonpositive_rate_rejected
           (VNumber (Num.of_Z 5)) (Num.of_Z (-1)) {| Unit._value := Num.of_Z 1 |}).
  reflexivity.
Defined.

(** C3, the failing input.  "toString" is none of the four recognized codes,
    but [UNITS["toString"]] is the function inherited from Object.prototype:
    construction returns an instance whose magnitude is NaN, and the
    conversion returns NaN. *)
Theorem inherited_key_accepted :
  ~ Spec.recognized "toString"
  /\ Unit.UNITS_get (VString "toString") = Unit.Inherited
  /\ Unit.construct (VNumber (Num.of_Z 1)) (VString "toString")
     = Normal {| Unit._value := Num.NaN |}
  /\ Unit.to (VString "toString") {| Unit._value := Num.of_Z 100000000 |}
     = (Normal Num.NaN, {| Unit._value := Num.of_Z 100000000 |}).
Proof.
  split.
  - unfold Spec.recognized. simpl. intros [H|[H|[H|[H|[]]]]]; discriminate H.
  - split; [reflexivity|]. split; reflexivity.
Qed.

(** C4.  One BLK is 100,000,000 ratoshis, 100,000,000 ratoshis are one BLK,
    and 1,000,000 uBLK are one BLK, exactly. *)
Theorem denomination_round_trips :
  (exists this,
      Unit.fromBLK (VNumber (Num.of_Z 1)) = Normal this
      /\ Unit.toRatoshis this = (Normal (Num.of_Z 100000000), this))
  /\ (exists this,
         Unit.fromRatoshis (VNumber (Num.of_Z 100000000)) = Normal this
         /\ Unit.toBLK this = (Normal (Num.of_Z 1), this))
  /\ (exists this,
         Unit.fromMicros (VNumber (Num.of_Z 1000000)) = Normal this
         /\ Unit.toBLK this = (Normal (Num.of_Z 1), this))
  /\ (Num.to_Q (Num.of_Z 100000000) == 100000000)%Q
  /\ (Num.to_Q (Num.of_Z 1000000) == 1000000)%Q
  /\ (Num.to_Q (Num.of_Z 1) == 1)%Q.
Proof.
  split; [exists {| Unit._value := Num.of_Z 100000000 |}; split; reflexivity|].
  split; [exists {| Unit._value := Num.of_Z 100000000 |}; split; reflexivity|].
  split; [exists {| Unit._value := Num.of_Z 100000000 |}; split; reflexivity|].
  split; [reflexivity|]. split; reflexivity.
Qed.

(** C5.  On every instance, [toObject] (and [toJSON]) returns the object
    whose amount is what [to("BLK")] returns and whose code is "BLK". *)
Theorem toObject_primary (this : Unit.instance) :
  exists amount,
    Unit.to (VString Unit.BLK) this = (Normal amount, this)
    /\ Unit.toObject this
       = (Normal {| Unit.amount := amount; Unit.code := "BLK" |}, this)
    /\ Unit.toJSON this = Unit.toObject this.
Proof.
  eexists. repeat split.
Qed.

(** C6 as stated fails: an object without [code] is rejected by the
    constructor with [UnknownCode], and an object without [amount] is
    accepted. *)
Lemma fromObject_missing_fields :
  Unit.fromObject (Object [("amount"%string, VNumber (Num.of_Z 1))])
  = Throw (UnknownCode VUndefined)
  /\ Unit.fromObject (Object [("code"%string, VString "BLK")])
     = Normal {| Unit._value := Num.NaN |}.
Proof. split; reflexivity. Qed.

(** C6 (as amended).  [fromObject] rejects every argument that is not an
    object with the argument error, before the constructor runs; on an object
    it returns what the constructor returns on the values of [amount] and
    [code], [undefined] standing for an absent one. *)
Theorem fromObject_requires_object :
  (forall v : value,
      Unit.fromObject (Primitive v)
      = Throw (InvalidArgument "Argument is expected to be an object"))
  /\ (forall props : list (string * value),
         Unit.fromObject (Object props)
         = Unit.construct (get_property props "amount") (get_property props "code")).
Proof. split; reflexivity. Qed.

(** C7 as stated fails: the instance holding 101,500,000 atomic units is
    1.015 BLK, which at the rate 1 rounds to 1.02; [to(1)] returns 1.01,
    because the Number nearest to 1.015 is below 1.015. *)
Lemma to_rate_below_half :
  let this := {| Unit._value := Num.of_Z 101500000 |} in
  Unit.fromRatoshis (VNumber (Num.of_Z 101500000)) = Normal this
  /\ (Spec.round_places
        (inject_Z 101500000 / inject_Z 100000000 * Num.to_Q (Num.of_Z 1)) 2
      == 102 # 100)%Q
  /\ Unit.to (VNumber (Num.of_Z 1)) this = (Normal (Num.of_decimal false 101 2), this)
  /\ (Num.to_Q (Num.of_decimal false 101 2) < 102 # 100)%Q
  /\ Num.of_decimal false 101 2 <> Num.of_decimal false 102 2.
Proof.
  intro this.
  split; [reflexivity|]. split; [reflexivity|]. split; [reflexivity|].
  split; [reflexivity|]. discriminate.
Qed.

(** C7 (as amended).  For every instance and every rate that is a binary64
    value not [<= 0], let [primary] be what the accessor [BLK] returns (the
    magnitude divided by 100,000,000 and passed through [toFixed(8)] and
    [parseFloat]) and [product] the binary64 product [primary * rate].
    [to(rate)] returns the Number nearest to [product] rounded half away from
    zero to 2 decimal places, which is within 0.005 of [product], when
    [product] is finite, and [product] itself when it is an infinity or NaN;
    [atRate(rate)] is the same call.  From [10^21] on, where [toFixed]
    writes the shortest decimal that denotes [product], the Number returned
    is [product].  When the magnitude is an integer [M] of at most 51 bits
    and [product] is finite, what is returned is within 0.005, and the
    relative error [2^-50] of the arithmetic, of the real value
    [M / 100,000,000 * rate]. *)
Theorem to_rate_rounds_product (this : Unit.instance) (rate : Num.number) :
  Num.valid rate = true ->
  Num.leb rate Num.pos_zero = false ->
  let primary :=
    JS.parseFloat
      (JS.toFixed (Num.div (Unit._value this) (Num.of_Z 100000000)) 8) in
  let product := Num.mul primary rate in
  let hundredths :=
    Spec.round_half_away_from_zero (Num.to_Q product * inject_Z (10 ^ Z.of_nat 2)) in
  let rounded := Num.of_decimal (Num.is_negative product) hundredths 2 in
  let result := if Num.is_finite product then rounded else product in
  Unit.get Unit.BLK this = (Normal primary, this)
  /\ Unit.to (VNumber rate) this = (Normal result, this)
  /\ Unit.atRate (VNumber rate) this = Unit.to (VNumber rate) this
  /\ (Spec.round_places (Num.to_Q product) 2 == inject_Z hundredths / inject_Z 100)%Q
  /\ (Qabs (Spec.round_places (Num.to_Q product) 2 - Num.to_Q product) <= 1 # 200)%Q
  /\ ((JS.ten21 <= Num.abs_Q product)%Q -> result = product)
  /\ (forall M : Z,
        Num.is_finite (Unit._value this) = true ->
        (Num.to_Q (Unit._value this) == inject_Z M)%Q ->
        Z.abs M <= 2 ^ 51 ->
        Num.is_finite product = true ->
        let exact := (inject_Z M / inject_Z 100000000 * Num.to_Q rate)%Q in
        Num.is_finite result = true
        /\ (Qabs (Num.to_Q result - exact)
            <= (1 # 200) + (1 # 2 ^ 50) * (Qabs exact + Num.to_Q rate + 1))%Q).
Proof.
  intros Hvalid Hrate primary product hundredths rounded result.
  destruct (RateFacts.to_rate_valid this rate Hvalid Hrate) as [Hvp Hto].
  fold primary in Hvp, Hto. fold product in Hvp, Hto.
  split; [apply UnitFacts.get_BLK|].
  split; [rewrite Hto, (RateFacts.rate_result product Hvp); reflexivity|].
  split; [reflexivity|].
  split; [unfold Spec.round_places; reflexivity|].
  split; [apply SpecFacts.round_places_2_error|].
  split.
  - intro Hbig. unfold result.
    destruct (Num.is_finite product) eqn:Hfin; [|reflexivity].
    apply (ExponentFacts.of_decimal_large product 2 Hvp Hfin Hbig).
  - intros M HfM HM HM51 Hfin. unfold result. rewrite Hfin.
    apply (RateFacts.rate_error_valid (Unit._value this) M rate HfM HM HM51 Hvalid Hrate Hfin).
Qed.

(** C7, two instances: 1.3 BLK at the rate 350 is 455, and 1.3 BLK at the
    rate [10^21] is [1.3e21], which [toFixed(2)] writes as "1.3e+21". *)
Lemma to_rate_rounds_product_witness :
  Unit.to (VNumber (Num.of_Z 350)) {| Unit._value := Num.of_Z 130000000 |}
  = (Normal (Num.of_decimal false 45500 2), {| Unit._value := Num.of_Z 130000000 |})
  /\ Unit.to (VNumber (Num.of_Z (10 ^ 21))) {| Unit._value := Num.of_Z 130000000 |}
     = (Normal (Num.of_Z (13 * 10 ^ 20)), {| Unit._value := Num.of_Z 130000000 |}).
Proof.
  split.
  - destruct (to_rate_rounds_product {| Unit._value := Num.of_Z 130000000 |} (Num.of_Z 350))
      as (_ & H & _).
    + reflexivity.
    + reflexivity.
    + exact H.
  - destruct (to_rate_rounds_product {| Unit._value := Num.of_Z 130000000 |}
                (Num.of_Z (10 ^ 21)))
      as (_ & H & _).
    + reflexivity.
    + reflexivity.
    + exact H.
Defined.




(** C9.  No member of an instance changes it: not one of its four
    accessors, not one of the twelve functions that [lib/unit.js] puts on
    [Unit.prototype].  So a second call of a member returns what the first
    returned; and after any sequence of calls, whatever they return or
    throw, the magnitude is the one construction stored, each call of the
    sequence has returned what it returns on the instance as constructed, and
    every member answers as it did before the sequence. *)
Theorem instance_immutable (m : Unit.member) (this : Unit.instance) :
  snd (Unit.invoke m this) = this
  /\ Unit._value (snd (Unit.invoke m this)) = Unit._value this
  /\ Unit.invoke m (snd (Unit.invoke m this)) = Unit.invoke m this
  /\ forall ms : list Unit.member,
       snd (Unit.invoke_each ms this) = this
       /\ Unit._value (snd (Unit.invoke_each ms this)) = Unit._value this
       /\ fst (Unit.invoke_each ms this) = map (fun m' => fst (Unit.invoke m' this)) ms
       /\ Unit.invoke m (snd (Unit.invoke_each ms this)) = Unit.invoke m this.
Proof.
  pose proof (UnitFacts.invoke_pure m this) as H.
  rewrite H. repeat split; auto.
  all: intros; rewrite UnitFacts.invoke_each_pure; reflexivity.
Qed.

(** C10.  Called without [new], on a receiver that is no instance of [Unit]
    ([undefined] in the call [Unit(amount, code)]), the function does not
    run its body on the receiver: the test [this instanceof Unit] fails and
    it returns what [new Unit(amount, code)] evaluates to, that is an
    instance with the same magnitude, hence with the same answers from every
    member, or the same error; it never returns [undefined].  The operator
    [new], which calls the function on a created object, gives what
    [construct] describes. *)
Theorem call_without_new (this : Unit.receiver) (amount code : value) :
  Unit.instanceof_Unit this = false ->
  Unit.new_Unit amount code = Unit.construct amount code
  /\ Unit.call_on this amount code
     = (let* object := Unit.new_Unit amount code in Normal (Some object))
  /\ Unit.call amount code = Unit.call_on this amount code
  /\ (forall object : Unit.instance,
        Unit.call_on this amount code = Normal (Some object) ->
        exists created,
          Unit.new_Unit amount code = Normal created
          /\ Unit._value object = Unit._value created
          /\ forall m : Unit.member, Unit.invoke m object = Unit.invoke m created).
Proof.
  intro Hthis.
  pose proof (UnitFacts.new_Unit_construct amount code) as Hnew.
  assert (Hcall : forall this' : Unit.receiver,
             Unit.instanceof_Unit this' = false ->
             Unit.call_on this' amount code
             = (let* object := Unit.new_Unit amount code in Normal (Some object))).
  { intros this' H'. unfold Unit.call_on, Unit.Unit_function. rewrite H', Hnew.
    cbn [negb]. destruct (Unit.construct amount code); reflexivity. }
  split; [exact Hnew|]. split; [exact (Hcall this Hthis)|].
  split; [unfold Unit.call; rewrite !Hcall by (exact Hthis || reflexivity); reflexivity|].
  intros object Hobject. rewrite (Hcall this Hthis) in Hobject.
  destruct (Unit.new_Unit amount code) as [created|e]; [|discriminate].
  cbn [bind] in Hobject. injection Hobject as <-.
  exists created. auto.
Qed.

(** C10, an instance: [Unit(2, 'BLK')] returns an instance that holds
    200,000,000 atomic units, as [new Unit(2, 'BLK')] does. *)
Lemma call_without_new_witness :
  Unit.call (VNumber (Num.of_Z 2)) (VString "BLK")
  = Normal (Some {| Unit._value := Num.of_Z 200000000 |})
  /\ Unit.new_Unit (VNumber (Num.of_Z 2)) (VString "BLK")
     = Normal {| Unit._value := Num.of_Z 200000000 |}.
Proof.
  destruct (call_without_new (Unit.Other (Primitive VUndefined))
              (VNumber (Num.of_Z 2)) (VString "BLK")) as (H1 & H2 & H3 & _).
  - reflexivity.
  - split; [rewrite H3, H2, H1 | rewrite H1]; reflexivity.
Defined.

(** * Further properties of [lib/unit.js] *)

(** X1.  Among the codes that are [undefined] (a missing code), [null], a
    boolean or a string, and with an amount of these kinds or a Number: a
    code that is not one of the four keys of [UNITS] and not the name of a
    property of Object.prototype makes the constructor and [to] throw
    [UnknownCode] with that code; [undefined], [null] and the booleans are
    such codes.  The instance is left as it was. *)
Theorem unknown_code_rejected (amount code : value) (this : Unit.instance) :
  match code with
  | VNumber _ => False
  | VString key => ~ Spec.recognized key /\ ~ In key Unit.Object_prototype_keys
  | _ => True
  end ->
  Unit.construct amount code = Throw (UnknownCode code)
  /\ Unit.to code this = (Throw (UnknownCode code), this).
Proof.
  intro H.
  assert (Hget : Unit.UNITS_get code = Unit.Undefined).
  { destruct code as [| |[|]|x|key]; try reflexivity.
    destruct H as [Hr Hp]. now apply TableFacts.lookup_undefined. }
  assert (Hn : isNumber code = false) by (destruct code; [| | | contradiction |]; reflexivity).
  unfold Unit.construct, Unit.to, Unit._from, Unit.to_denomination.
  rewrite Hn. cbn [bind]. rewrite Hget. split; reflexivity.
Qed.

(** X1, an instance: the code "btc", and a missing code. *)
Lemma unknown_code_rejected_witness :
  Unit.construct (VNumber (Num.of_Z 1)) (VString "btc") = Throw (UnknownCode (VString "btc"))
  /\ Unit.construct (VNumber (Num.of_Z 1)) VUndefined = Throw (UnknownCode VUndefined).
Proof.
  split.
  - apply (unknown_code_rejected (VNumber (Num.of_Z 1)) (VString "btc")
             {| Unit._value := Num.of_Z 1 |}).
    split.
    + unfold Spec.recognized. simpl. intros [H|[H|[H|[H|[]]]]]; discriminate H.
    + simpl. intuition discriminate.
  - apply (unknown_code_rejected (VNumber (Num.of_Z 1)) VUndefined
             {| Unit._value := Num.of_Z 1 |}). exact I.
Defined.

(** X2.  The constructor does not validate an amount that is [undefined],
    [null], a boolean, a Number or a string: with a key of [UNITS] it
    returns an instance for every such amount, and when the product
    [amount * scale] is not a finite Number (a missing amount, a string that
    is no numeric literal, NaN, an infinite amount) the magnitude stored is
    NaN. *)
Theorem amount_not_validated (amount : value) (code : string) (scale : Num.number) (digits : nat) :
  In (code, (scale, digits)) Unit.UNITS ->
  exists magnitude,
    Unit.construct amount (VString code) = Normal {| Unit._value := magnitude |}
    /\ (Num.is_finite (Num.mul (ToNumber amount) scale) = false -> magnitude = Num.NaN).
Proof.
  intro Hin.
  destruct (ConversionFacts.entry_cases code scale digits Hin) as (_ & _ & Hget & _ & _).
  unfold Unit.construct, Unit._from. cbn [isNumber bind]. rewrite Hget.
  cbn [Unit.missing Unit.scale_of ToNumber bind].
  eexists. split; [reflexivity|]. apply TableFacts.parseInt_not_finite.
Qed.

(** X2, an instance: [Unit.fromBLK()] holds NaN. *)
Lemma amount_not_validated_witness :
  exists magnitude,
    Unit.fromBLK VUndefined = Normal {| Unit._value := magnitude |}
    /\ (Num.is_finite (Num.mul Num.NaN (Num.of_Z 100000000)) = false -> magnitude = Num.NaN).
Proof.
  apply (amount_not_validated VUndefined "BLK" (Num.of_Z 100000000) 8%nat).
  simpl. auto.
Defined.

(** X3.  The magnitude of every instance the constructor returns, whatever
    the amount and the code or rate, is NaN or a finite Number whose value is
    an integer. *)
Theorem magnitude_is_integer (amount code : value) (this : Unit.instance) :
  Unit.construct amount code = Normal this ->
  Unit._value this = Num.NaN
  \/ (Num.is_finite (Unit._value this) = true
      /\ exists k : Z, (Num.to_Q (Unit._value this) == inject_Z k)%Q).
Proof.
  unfold Unit.construct, Unit._from.
  destruct (isNumber code).
  - destruct (Num.leb (ToNumber code) Num.pos_zero); [discriminate|].
    cbn [bind Unit.missing]. change (Unit.UNITS_get (VString Unit.BLK))
      with (Unit.Entry (Num.of_Z 100000000) 8).
    cbn [Unit.missing bind]. intro H. injection H as <-. cbn [Unit._value].
    apply MagnitudeFacts.parseInt_toFixed_integral.
  - cbn [bind]. destruct (Unit.missing (Unit.UNITS_get code)); [discriminate|].
    cbn [bind]. intro H. injection H as <-. cbn [Unit._value].
    apply MagnitudeFacts.parseInt_toFixed_integral.
Qed.

(** X3, an instance: 0.4 ratoshis are stored as 0. *)
Lemma magnitude_is_integer_witness :
  let this := {| Unit._value := Num.pos_zero |} in
  Unit._value this = Num.NaN
  \/ (Num.is_finite (Unit._value this) = true
      /\ exists k : Z, (Num.to_Q (Unit._value this) == inject_Z k)%Q).
Proof.
  apply (magnitude_is_integer (VNumber (Num.of_ratio false 4 10)) (VString "ratoshis")).
  reflexivity.
Defined.

(** X4.  On an instance holding the integer [M] of at most 51 bits, [to]
    with a key of [UNITS] returns the Number that the decimal
    [M / 10^digits] denotes: a finite Number within the relative error
    [2^-53] of [M / 10^digits]. *)
Theorem to_denomination_of_integer
    (code : string) (scale : Num.number) (digits : nat) (M : Z) :
  In (code, (scale, digits)) Unit.UNITS -> Z.abs M <= 2 ^ 51 ->
  let this := {| Unit._value := Num.of_Z M |} in
  let result := Num.of_decimal false M digits in
  (Num.to_Q (Unit._value this) == inject_Z M)%Q
  /\ Unit.to (VString code) this = (Normal result, this)
  /\ Num.is_finite result = true
  /\ (Qabs (Num.to_Q result - inject_Z M / inject_Z (10 ^ Z.of_nat digits))
      <= Rounding.u53 * Qabs (Num.to_Q result) + Rounding.eta)%Q.
Proof.
  intros Hin HM this result.
  split; [apply NumFacts.of_Z_exact; lia|].
  apply (ConversionFacts.to_integer code scale digits M Hin HM).
Qed.

(** X4, an instance: 130,000,000 ratoshis are 1300 mBLK. *)
Lemma to_denomination_of_integer_witness :
  Unit.to (VString "mBLK") {| Unit._value := Num.of_Z 130000000 |}
  = (Normal (Num.of_Z 1300), {| Unit._value := Num.of_Z 130000000 |}).
Proof.
  destruct (to_denomination_of_integer "mBLK" (Num.of_Z 100000) 5 130000000)
    as (_ & H & _).
  - simpl. auto.
  - apply Z.leb_le. reflexivity.
  - exact H.
Defined.

(** X5.  An amount written with no more decimals than its denomination
    has digits is stored exactly: constructing from the Number that the
    decimal [M / 10^digits] denotes stores the integer [M], when [M] has at
    most 50 bits; and converting that instance to a denomination of the
    table returns the Number that [M] over the scale of that denomination
    denotes. *)
Theorem decimal_amount_stored
    (code code' : string) (scale scale' : Num.number) (digits digits' : nat) (M : Z) :
  In (code, (scale, digits)) Unit.UNITS ->
  In (code', (scale', digits')) Unit.UNITS ->
  Z.abs M <= 2 ^ 50 ->
  let this := {| Unit._value := Num.of_Z M |} in
  Unit.construct (VNumber (Num.of_decimal false M digits)) (VString code) = Normal this
  /\ (Num.to_Q (Unit._value this) == inject_Z M)%Q
  /\ Unit.to (VString code') this = (Normal (Num.of_decimal false M digits'), this).
Proof.
  intros Hin Hin' HM this.
  split; [apply (ConversionFacts.construct_decimal code scale digits M Hin HM)|].
  split; [apply NumFacts.of_Z_exact; lia|].
  apply (ConversionFacts.to_integer code' scale' digits' M Hin'). lia.
Qed.

(** X5, an instance: 1.3 BLK are 130,000,000 ratoshis, and 1300 mBLK. *)
Lemma decimal_amount_stored_witness :
  Unit.construct (VNumber (Num.of_ratio false 13 10)) (VString "BLK")
  = Normal {| Unit._value := Num.of_Z 130000000 |}
  /\ Unit.to (VString "mBLK") {| Unit._value := Num.of_Z 130000000 |}
     = (Normal (Num.of_Z 1300), {| Unit._value := Num.of_Z 130000000 |}).
Proof.
  destruct (decimal_amount_stored "BLK" "mBLK" (Num.of_Z 100000000) (Num.of_Z 100000)
              8 5 130000000) as (H1 & _ & H2).
  - simpl. auto.
  - simpl. auto.
  - apply Z.leb_le. reflexivity.
  - split; [exact H1 | exact H2].
Defined.

(** X6.  Converting to a denomination and constructing again from what is
    returned gives the instance back, when it holds an integer of at most 50
    bits. *)
Theorem denomination_round_trip
    (code : string) (scale : Num.number) (digits : nat) (M : Z) :
  In (code, (scale, digits)) Unit.UNITS -> Z.abs M <= 2 ^ 50 ->
  let this := {| Unit._value := Num.of_Z M |} in
  exists result,
    Unit.to (VString code) this = (Normal result, this)
    /\ Unit.construct (VNumber result) (VString code) = Normal this.
Proof.
  intros Hin HM this. exists (Num.of_decimal false M digits).
  split; [apply (ConversionFacts.to_integer code scale digits M Hin); lia|].
  apply (ConversionFacts.construct_decimal code scale digits M Hin HM).
Qed.

(** X6, an instance: 123,456,789 ratoshis through uBLK. *)
Lemma denomination_round_trip_witness :
  exists result,
    Unit.to (VString "uBLK") {| Unit._value := Num.of_Z 123456789 |}
    = (Normal result, {| Unit._value := Num.of_Z 123456789 |})
    /\ Unit.construct (VNumber result) (VString "uBLK")
       = Normal {| Unit._value := Num.of_Z 123456789 |}.
Proof.
  apply (denomination_round_trip "uBLK" (Num.of_Z 100) 2 123456789).
  - simpl. auto.
  - apply Z.leb_le. reflexivity.
Defined.

(** X7.  [Unit.fromObject] reads back what [toObject] (or [toJSON])
    writes: on an instance holding an integer of at most 50 bits, the object
    returned, given to [Unit.fromObject], gives the instance back. *)
Theorem toObject_fromObject (M : Z) :
  Z.abs M <= 2 ^ 50 ->
  let this := {| Unit._value := Num.of_Z M |} in
  exists o,
    Unit.toObject this = (Normal o, this)
    /\ Unit.toJSON this = (Normal o, this)
    /\ Unit.fromObject (Unit.as_argument o) = Normal this.
Proof.
  intros HM this.
  assert (Hin : In ("BLK"%string, (Num.of_Z 100000000, 8%nat)) Unit.UNITS)
    by (simpl; auto).
  destruct (ConversionFacts.to_integer "BLK" _ _ M Hin ltac:(lia)) as (Hto & _ & _).
  exists {| Unit.amount := Num.of_decimal false M 8; Unit.code := "BLK" |}.
  assert (Hobj : Unit.toObject this
                 = (Normal {| Unit.amount := Num.of_decimal false M 8; Unit.code := "BLK" |},
                    this)).
  { unfold Unit.toObject, Unit.then_, Unit.get.
    change (Unit.to_denomination (VString Unit.BLK) this)
      with (Unit.to (VString "BLK") this).
    fold this in Hto. rewrite Hto. reflexivity. }
  split; [exact Hobj|]. split; [exact Hobj|].
  unfold Unit.fromObject, Unit.as_argument. cbn [isObject checkArgument bind].
  cbn [property_of get_property String.eqb Ascii.eqb Bool.eqb Unit.amount Unit.code].
  apply (ConversionFacts.construct_decimal "BLK" _ _ M Hin HM).
Qed.

(** X7, an instance: 1.3 BLK. *)
Lemma toObject_fromObject_witness :
  exists o,
    Unit.toObject {| Unit._value := Num.of_Z 130000000 |}
    = (Normal o, {| Unit._value := Num.of_Z 130000000 |})
    /\ Unit.toJSON {| Unit._value := Num.of_Z 130000000 |}
       = (Normal o, {| Unit._value := Num.of_Z 130000000 |})
    /\ Unit.fromObject (Unit.as_argument o)
       = Normal {| Unit._value := Num.of_Z 130000000 |}.
Proof.
  apply (toObject_fromObject 130000000). apply Z.leb_le. reflexivity.
Defined.

(** X8.  Whole amounts convert exactly: constructing from the integer [k]
    in a denomination of the table stores [k * 10^digits], when that has at
    most 51 bits; and converting the instance to that denomination, or to one
    with fewer digits, returns a Number whose value is the integer
    [k * 10^(digits - digits')]: [k] itself in the denomination of
    construction. *)
Theorem whole_amount_exact
    (code code' : string) (scale scale' : Num.number) (digits digits' : nat) (k : Z) :
  In (code, (scale, digits)) Unit.UNITS ->
  In (code', (scale', digits')) Unit.UNITS ->
  (digits' <= digits)%nat ->
  Z.abs (k * 10 ^ Z.of_nat digits) <= 2 ^ 51 ->
  let this := {| Unit._value := Num.of_Z (k * 10 ^ Z.of_nat digits) |} in
  exists result,
    Unit.construct (VNumber (Num.of_Z k)) (VString code) = Normal this
    /\ (Num.to_Q (Unit._value this) == inject_Z (k * 10 ^ Z.of_nat digits))%Q
    /\ Unit.to (VString code') this = (Normal result, this)
    /\ Num.is_finite result = true
    /\ (Num.to_Q result == inject_Z (k * 10 ^ (Z.of_nat digits - Z.of_nat digits')))%Q.
Proof.
  intros Hin Hin' Hle HM this.
  pose proof (NumFacts.pow10_pos digits) as Hp.
  pose proof (NumFacts.pow10_pos digits') as Hp'.
  assert (Hq : 0 < 10 ^ (Z.of_nat digits - Z.of_nat digits'))
    by (apply Z.pow_pos_nonneg; lia).
  assert (Hsplit : k * 10 ^ Z.of_nat digits
                   = k * 10 ^ (Z.of_nat digits - Z.of_nat digits') * 10 ^ Z.of_nat digits').
  { rewrite <- Z.mul_assoc, <- Z.pow_add_r by lia. do 2 f_equal. lia. }
  destruct (ConversionFacts.to_integer code' scale' digits' _ Hin' HM) as (Hto & Hfin & _).
  exists (Num.of_decimal false (k * 10 ^ Z.of_nat digits) digits').
  split; [apply (ConversionFacts.construct_whole code scale digits k Hin HM)|].
  split; [apply NumFacts.of_Z_exact; lia|].
  split; [exact Hto|]. split; [exact Hfin|].
  rewrite Hsplit at 1. apply ConversionFacts.of_decimal_exact.
  assert (2 ^ 51 < 2 ^ 53) by reflexivity. nia.
Qed.

(** X8, an instance: 21 BLK are 2,100,000,000 ratoshis, which are
    21,000 mBLK. *)
Lemma whole_amount_exact_witness :
  exists result,
    Unit.construct (VNumber (Num.of_Z 21)) (VString "BLK")
    = Normal {| Unit._value := Num.of_Z 2100000000 |}
    /\ Unit.to (VString "mBLK") {| Unit._value := Num.of_Z 2100000000 |}
       = (Normal result, {| Unit._value := Num.of_Z 2100000000 |})
    /\ (Num.to_Q result == 21000)%Q.
Proof.
  destruct (whole_amount_exact "BLK" "mBLK" (Num.of_Z 100000000) (Num.of_Z 100000) 8 5 21)
    as (result & H1 & _ & H2 & _ & H3).
  - simpl. auto.
  - simpl. auto.
  - apply Nat.leb_le. reflexivity.
  - apply Z.leb_le. reflexivity.
  - exists result. split; [exact H1|]. split; [exact H2 | exact H3].
Defined.

(** X9.  On an instance holding the integer [M] of at most 51 bits,
    [toString] returns the decimal digits of [M], after a minus sign when [M]
    is negative, followed by " ratoshis", and [inspect] returns that string
    between "<Unit: " and ">".  The digits are those of [|M|]: decimal
    digits only, as many as [|M|] needs, and their value is [|M|]. *)
Theorem toString_of_integer (M : Z) :
  Z.abs M <= 2 ^ 51 ->
  let this := {| Unit._value := Num.of_Z M |} in
  let digits := Digits.of_Z (Z.abs M) in
  let shown := (JS.sign_string (M <? 0)%Z ++ digits ++ " ratoshis")%string in
  Unit.toString this = (Normal shown, this)
  /\ Unit.inspect this = (Normal ("<Unit: " ++ shown ++ ">")%string, this)
  /\ Digits.all_digits digits = true
  /\ Digits.value digits = Z.abs M
  /\ (M <> 0 ->
      10 ^ (Z.of_nat (String.length digits) - 1) <= Z.abs M
      < 10 ^ Z.of_nat (String.length digits)).
Proof.
  intros HM this digits shown.
  assert (Hin : In ("ratoshis"%string, (Num.of_Z 1, 0%nat)) Unit.UNITS)
    by (simpl; auto).
  destruct (ConversionFacts.to_integer "ratoshis" _ _ M Hin HM) as (Hto & _ & _).
  assert (Hs : Unit.toString this = (Normal shown, this)).
  { unfold Unit.toString, Unit.then_, Unit.get.
    change (Unit.to_denomination (VString Unit.ratoshis) this)
      with (Unit.to (VString "ratoshis") this).
    fold this in Hto. rewrite Hto. unfold Unit.ret.
    rewrite ToStringFacts.Number_toString_of_decimal
      by (assert (2 ^ 51 < 2 ^ 53) by reflexivity; lia).
    unfold shown, digits. now rewrite DigitsFacts.append_assoc. }
  split; [exact Hs|].
  split; [unfold Unit.inspect, Unit.then_; rewrite Hs; reflexivity|].
  destruct (DigitsFacts.of_Z_spec (Z.abs M) (Z.abs_nonneg M)) as (Ha & _ & Hv).
  split; [exact Ha|]. split; [exact Hv|].
  intro Hne. apply (DecimalFacts.of_Z_length (Z.abs M)). lia.
Qed.

(** X9, an instance: 1.3 BLK. *)
Lemma toString_of_integer_witness :
  Unit.toString {| Unit._value := Num.of_Z 130000000 |}
  = (Normal "130000000 ratoshis"%string, {| Unit._value := Num.of_Z 130000000 |})
  /\ Unit.inspect {| Unit._value := Num.of_Z (-5) |}
     = (Normal "<Unit: -5 ratoshis>"%string, {| Unit._value := Num.of_Z (-5) |}).
Proof.
  split.
  - destruct (toString_of_integer 130000000) as (H & _).
    + apply Z.leb_le. reflexivity.
    + exact H.
  - destruct (toString_of_integer (-5)) as (_ & H & _).
    + apply Z.leb_le. reflexivity.
    + exact H.
Defined.

(** X10.  An instance whose magnitude is NaN answers NaN: [to] returns NaN
    for every key of [UNITS] and for every rate that is not [<= 0],
    [toObject] returns the amount NaN, [toString] returns "NaN ratoshis" and
    [inspect] "<Unit: NaN ratoshis>"; nothing throws. *)
Theorem NaN_magnitude_propagates (this : Unit.instance) :
  Unit._value this = Num.NaN ->
  (forall code scale digits,
      In (code, (scale, digits)) Unit.UNITS ->
      Unit.to (VString code) this = (Normal Num.NaN, this))
  /\ (forall rate,
         Num.leb rate Num.pos_zero = false ->
         Unit.to (VNumber rate) this = (Normal Num.NaN, this))
  /\ Unit.toObject this
     = (Normal {| Unit.amount := Num.NaN; Unit.code := "BLK" |}, this)
  /\ Unit.toString this = (Normal "NaN ratoshis"%string, this)
  /\ Unit.inspect this = (Normal "<Unit: NaN ratoshis>"%string, this).
Proof.
  destruct this as [v]. cbn [Unit._value]. intros ->.
  split; [|split; [|repeat split]].
  - intros code scale digits Hin. simpl in Hin.
    destruct Hin as [E|[E|[E|[E|[]]]]]; injection E as <- <- <-; reflexivity.
  - intros rate Hrate. unfold Unit.to. cbn [isNumber ToNumber]. rewrite Hrate.
    reflexivity.
Qed.

(** X10, an instance: the instance [Unit.fromBLK()] returns. *)
Lemma NaN_magnitude_propagates_witness :
  Unit.toString {| Unit._value := Num.NaN |}
  = (Normal "NaN ratoshis"%string, {| Unit._value := Num.NaN |}).
Proof.
  destruct (NaN_magnitude_propagates {| Unit._value := Num.NaN |}) as (_ & _ & _ & H & _).
  - reflexivity.
  - exact H.
Defined.

(** X11.  Only a rate [<= 0] is rejected.  With every other Number as the
    rate, NaN included, and every amount that is [undefined], [null], a
    boolean, a Number or a string, the construction from fiat returns an
    instance and never throws [UnknownCode], and the conversion to fiat
    returns a Number; with the rate NaN the magnitude stored and the Number
    returned are NaN. *)
Theorem other_rates_accepted (amount : value) (rate : Num.number) (this : Unit.instance) :
  Num.leb rate Num.pos_zero = false ->
  (exists magnitude,
      Unit.fromFiat amount (VNumber rate) = Normal {| Unit._value := magnitude |}
      /\ (rate = Num.NaN -> magnitude = Num.NaN))
  /\ (exists result,
         Unit.atRate (VNumber rate) this = (Normal result, this)
         /\ (rate = Num.NaN -> result = Num.NaN)).
Proof.
  intro Hrate. split.
  - unfold Unit.fromFiat, Unit.construct, Unit._from. cbn [isNumber ToNumber].
    rewrite Hrate. cbn [bind].
    change (Unit.UNITS_get (VString Unit.BLK)) with (Unit.Entry (Num.of_Z 100000000) 8).
    cbn [Unit.missing Unit.scale_of ToNumber bind].
    eexists. split; [reflexivity|]. intros ->.
    rewrite TableFacts.div_NaN_r. reflexivity.
  - unfold Unit.atRate, Unit.to. cbn [isNumber ToNumber]. rewrite Hrate.
    unfold Unit.then_. rewrite UnitFacts.get_BLK. unfold Unit.ret.
    eexists. split; [reflexivity|]. intros ->.
    rewrite TableFacts.mul_NaN_r. reflexivity.
Qed.

(** X11, an instance: the rate NaN. *)
Lemma other_rates_accepted_witness :
  Unit.fromFiat (VNumber (Num.of_Z 1)) (VNumber Num.NaN)
  = Normal {| Unit._value := Num.NaN |}.
Proof.
  destruct (other_rates_accepted (VNumber (Num.of_Z 1)) Num.NaN {| Unit._value := Num.of_Z 1 |})
    as ((magnitude & H & HN) & _).
  - reflexivity.
  - rewrite H, (HN eq_refl). reflexivity.
Defined.

(** X12.  Construction is symmetric in the sign of the amount: with a key
    of [UNITS], the magnitude stored for the opposite of a Number is the
    opposite of the magnitude stored for that Number.  (When the product
    [amount * scale] is a zero, both magnitudes are [+0].) *)
Theorem opposite_amount
    (amount : Num.number) (code : string) (scale : Num.number) (digits : nat) :
  In (code, (scale, digits)) Unit.UNITS ->
  exists magnitude magnitude',
    Unit.construct (VNumber amount) (VString code)
    = Normal {| Unit._value := magnitude |}
    /\ Unit.construct (VNumber (SFopp amount)) (VString code)
       = Normal {| Unit._value := magnitude' |}
    /\ (Num.to_Q magnitude' == - Num.to_Q magnitude)%Q
    /\ Num.is_finite magnitude' = Num.is_finite magnitude
    /\ ((forall s, Num.mul amount scale <> S754_zero s) -> magnitude' = SFopp magnitude).
Proof.
  intro Hin.
  destruct (ConversionFacts.entry_cases code scale digits Hin) as (_ & _ & Hget & _ & _).
  unfold Unit.construct, Unit._from. cbn [isNumber bind]. rewrite Hget.
  cbn [Unit.missing Unit.scale_of ToNumber bind].
  do 2 eexists. split; [reflexivity|]. split; [reflexivity|].
  rewrite SignFacts.mul_opp. apply SignFacts.parseInt_toFixed_opp.
Qed.

(** X12, an instance: 0.015 uBLK and -0.015 uBLK. *)
Lemma opposite_amount_witness :
  exists magnitude magnitude',
    Unit.construct (VNumber (Num.of_decimal false 15 3)) (VString "uBLK")
    = Normal {| Unit._value := magnitude |}
    /\ Unit.construct (VNumber (SFopp (Num.of_decimal false 15 3))) (VString "uBLK")
       = Normal {| Unit._value := magnitude' |}
    /\ (Num.to_Q magnitude' == - Num.to_Q magnitude)%Q
    /\ Num.is_finite magnitude' = Num.is_finite magnitude
    /\ ((forall s, Num.mul (Num.of_decimal false 15 3) (Num.of_Z 100) <> S754_zero s) ->
        magnitude' = SFopp magnitude).
Proof.
  apply (opposite_amount (Num.of_decimal false 15 3) "uBLK" (Num.of_Z 100) 2).
  simpl. auto.
Defined.

(** X13.  Conversion is symmetric in the sign of the magnitude: with a key
    of [UNITS], [to] on the instance holding the opposite magnitude returns
    the opposite Number.  (When the quotient [magnitude / scale] is a zero,
    both results are [+0].) *)
Theorem opposite_magnitude
    (magnitude : Num.number) (code : string) (scale : Num.number) (digits : nat) :
  In (code, (scale, digits)) Unit.UNITS ->
  let this := {| Unit._value := magnitude |} in
  let this' := {| Unit._value := SFopp magnitude |} in
  exists result result',
    Unit.to (VString code) this = (Normal result, this)
    /\ Unit.to (VString code) this' = (Normal result', this')
    /\ (Num.to_Q result' == - Num.to_Q result)%Q
    /\ Num.is_finite result' = Num.is_finite result
    /\ ((forall s, Num.div magnitude scale <> S754_zero s) -> result' = SFopp result).
Proof.
  intros Hin this this'.
  destruct (ConversionFacts.entry_cases code scale digits Hin) as (_ & _ & Hget & _ & _).
  unfold Unit.to, Unit.to_denomination. cbn [isNumber]. rewrite Hget.
  cbn [Unit.missing Unit.scale_of Unit.digits_of ToNumber].
  unfold Unit.then_, Unit.read_value, Unit.ret. cbn [Unit._value this this'].
  do 2 eexists. split; [reflexivity|]. split; [reflexivity|].
  unfold this, this'. cbn [Unit._value].
  rewrite SignFacts.div_opp. apply SignFacts.parseFloat_toFixed_opp.
Qed.

(** X13, an instance: 130,000,000 ratoshis and -130,000,000 ratoshis in
    BLK. *)
Lemma opposite_magnitude_witness :
  let this := {| Unit._value := Num.of_Z 130000000 |} in
  let this' := {| Unit._value := SFopp (Num.of_Z 130000000) |} in
  exists result result',
    Unit.to (VString "BLK") this = (Normal result, this)
    /\ Unit.to (VString "BLK") this' = (Normal result', this')
    /\ (Num.to_Q result' == - Num.to_Q result)%Q
    /\ Num.is_finite result' = Num.is_finite result
    /\ ((forall s, Num.div (Num.of_Z 130000000) (Num.of_Z 100000000) <> S754_zero s) ->
        result' = SFopp result).
Proof.
  apply (opposite_magnitude (Num.of_Z 130000000) "BLK" (Num.of_Z 100000000) 8).
  simpl. auto.
Defined.

(** X14.  A code that names a property [UNITS] inherits from
    Object.prototype is not rejected: for every amount that is [undefined],
    [null], a boolean, a Number or a string the constructor returns an
    instance whose magnitude is NaN, and on every instance [to] returns
    NaN. *)
Theorem inherited_code_gives_NaN (key : string) (amount : value) (this : Unit.instance) :
  In key Unit.Object_prototype_keys ->
  Unit.UNITS_get (VString key) = Unit.Inherited
  /\ Unit.construct amount (VString key) = Normal {| Unit._value := Num.NaN |}
  /\ Unit.to (VString key) this = (Normal Num.NaN, this).
Proof.
  intro Hin.
  assert (Hget : Unit.UNITS_get (VString key) = Unit.Inherited).
  { simpl in Hin. repeat (destruct Hin as [<-|Hin]; [reflexivity|]). destruct Hin. }
  split; [exact Hget|]. split.
  - unfold Unit.construct, Unit._from. cbn [isNumber bind]. rewrite Hget.
    cbn [Unit.missing Unit.scale_of ToNumber bind].
    now rewrite TableFacts.mul_NaN_r.
  - unfold Unit.to, Unit.to_denomination. cbn [isNumber]. rewrite Hget.
    cbn [Unit.missing Unit.scale_of Unit.digits_of ToNumber].
    unfold Unit.then_, Unit.read_value, Unit.ret.
    now rewrite TableFacts.div_NaN_r.
Qed.

(** X14, an instance: the code "constructor". *)
Lemma inherited_code_gives_NaN_witness :
  Unit.construct (VNumber (Num.of_Z 1)) (VString "constructor")
  = Normal {| Unit._value := Num.NaN |}.
Proof.
  destruct (inherited_code_gives_NaN "constructor" (VNumber (Num.of_Z 1))
              {| Unit._value := Num.of_Z 1 |}) as (_ & H & _).
  - simpl. auto.
  - exact H.
Defined.
